(** * The slab allocator of realm-core (src/realm/alloc_slab.cpp)

    A shallow embedding of [SlabAlloc]: the header and footer codec, the slab
    list, the two free lists, the allocator operations and the attachment
    lifecycle, followed by the properties of the specification. *)

From Stdlib Require Import ZArith Lia List Zbitwise.
From Stdlib.Strings Require Import Byte.
From stdpp Require Import base tactics option list.

Local Open Scope Z_scope.

(** ** Machine integers and bytes *)

(** [size_t], [ref_type] and [uint64_t] are 64-bit unsigned: every arithmetic
    result is reduced modulo [2^64]. *)
Definition word_max : Z := 2 ^ 64.
Definition wrap (x : Z) : Z := x mod word_max.

(** The unsigned value of a byte, and the byte holding the low 8 bits. *)
Definition byte_val (b : byte) : Z := Z.of_N (Byte.to_N b).
Definition byte_of (z : Z) : byte :=
  default x00 (Byte.of_N (Z.to_N (z mod 256))).

(** A region of raw memory: where it starts and what it holds.  [char*]
    values are addresses; the null pointer is address 0. *)
Record Buffer := mkBuffer { base : Z; bytes : list byte }.

Definition buf_size (data : list byte) : Z := Z.of_nat (length data).

(** [data[i]], as an option: out of bounds there is nothing to read. *)
Definition get_byte (data : list byte) (i : Z) : option byte :=
  if i <? 0 then None else data !! Z.to_nat i.

(** [static_cast<unsigned char>(data[i])]; only used within bounds. *)
Definition peek (data : list byte) (i : Z) : Z :=
  from_option byte_val 0 (get_byte data i).

(** A little-endian [uint64_t] at byte offset [off]. *)
Fixpoint le_value (bs : list byte) : Z :=
  match bs with
  | [] => 0
  | b :: bs' => byte_val b + 256 * le_value bs'
  end.

Definition read_u64 (data : list byte) (off : Z) : Z :=
  le_value (take 8 (drop (Z.to_nat off) data)).

Fixpoint le_bytes (n : nat) (v : Z) : list byte :=
  match n with
  | O => []
  | S n' => byte_of v :: le_bytes n' (v / 256)
  end.

(** Overwrite [data] from offset [off] with [bs], keeping the length. *)
Definition splice (off : nat) (bs : list byte) (data : list byte) : list byte :=
  take (length data) (take off data ++ bs ++ drop (off + length bs) data).


Definition write_byte (data : list byte) (off : Z) (v : Z) : list byte :=
  splice (Z.to_nat off) [byte_of v] data.

(** ** Data model *)

Inductive AttachMode :=
| attach_None | attach_OwnedBuffer | attach_UsersBuffer
| attach_SharedFile | attach_UnsharedFile.

Inductive FreeSpaceState := free_space_Clean | free_space_Dirty | free_space_Invalid.

#[global] Instance AttachMode_eq_dec : EqDecision AttachMode.
Proof. solve_decision. Defined.
#[global] Instance FreeSpaceState_eq_dec : EqDecision FreeSpaceState.
Proof. solve_decision. Defined.

(** [struct Slab { ref_type ref_end; char* addr; }]: [addr] owns a heap array,
    kept here with its contents. *)
Record Slab := mkSlab { addr : Buffer; ref_end : Z }.

(** [struct Chunk { ref_type ref; size_t size; }] *)
Record Chunk := mkChunk { ref : Z; size : Z }.

Record MemRef := mkMemRef { m_addr : Z; m_ref : Z }.

Record SlabAlloc := mkSlabAlloc {
  m_data : option Buffer;            (* [None] is [nullptr] *)
  m_baseline : Z;
  m_attach_mode : AttachMode;
  m_free_space_state : FreeSpaceState;
  m_file_on_streaming_form : bool;
  m_file_format : Z;
  m_slabs : list Slab;
  m_free_space : list Chunk;         (* FM *)
  m_free_read_only : list Chunk      (* FR *)
}.

Definition with_data (d : option Buffer) (a : SlabAlloc) : SlabAlloc :=
  mkSlabAlloc d (m_baseline a) (m_attach_mode a) (m_free_space_state a)
    (m_file_on_streaming_form a) (m_file_format a) (m_slabs a)
    (m_free_space a) (m_free_read_only a).
Definition with_baseline (b : Z) (a : SlabAlloc) : SlabAlloc :=
  mkSlabAlloc (m_data a) b (m_attach_mode a) (m_free_space_state a)
    (m_file_on_streaming_form a) (m_file_format a) (m_slabs a)
    (m_free_space a) (m_free_read_only a).
Definition with_attach_mode (m : AttachMode) (a : SlabAlloc) : SlabAlloc :=
  mkSlabAlloc (m_data a) (m_baseline a) m (m_free_space_state a)
    (m_file_on_streaming_form a) (m_file_format a) (m_slabs a)
    (m_free_space a) (m_free_read_only a).
Definition with_free_space_state (s : FreeSpaceState) (a : SlabAlloc) : SlabAlloc :=
  mkSlabAlloc (m_data a) (m_baseline a) (m_attach_mode a) s
    (m_file_on_streaming_form a) (m_file_format a) (m_slabs a)
    (m_free_space a) (m_free_read_only a).
Definition with_streaming (f : bool) (a : SlabAlloc) : SlabAlloc :=
  mkSlabAlloc (m_data a) (m_baseline a) (m_attach_mode a) (m_free_space_state a)
    f (m_file_format a) (m_slabs a) (m_free_space a) (m_free_read_only a).
Definition with_file_format (f : Z) (a : SlabAlloc) : SlabAlloc :=
  mkSlabAlloc (m_data a) (m_baseline a) (m_attach_mode a) (m_free_space_state a)
    (m_file_on_streaming_form a) f (m_slabs a) (m_free_space a)
    (m_free_read_only a).
Definition with_slabs (l : list Slab) (a : SlabAlloc) : SlabAlloc :=
  mkSlabAlloc (m_data a) (m_baseline a) (m_attach_mode a) (m_free_space_state a)
    (m_file_on_streaming_form a) (m_file_format a) l (m_free_space a)
    (m_free_read_only a).
Definition with_free_space (l : list Chunk) (a : SlabAlloc) : SlabAlloc :=
  mkSlabAlloc (m_data a) (m_baseline a) (m_attach_mode a) (m_free_space_state a)
    (m_file_on_streaming_form a) (m_file_format a) (m_slabs a) l
    (m_free_read_only a).
Definition with_free_read_only (l : list Chunk) (a : SlabAlloc) : SlabAlloc :=
  mkSlabAlloc (m_data a) (m_baseline a) (m_attach_mode a) (m_free_space_state a)
    (m_file_on_streaming_form a) (m_file_format a) (m_slabs a)
    (m_free_space a) l.

(** ** Exceptions and outcomes *)

(** The reasons carried by [InvalidDatabase]. *)
Inductive db_error :=
| BadSize            (* "Realm file has bad size" *)
| BadMagic           (* "Not a Realm file" *)
| BadFormat          (* "Unsupported Realm file format version" *)
| StreamingBadSize   (* "Realm file in streaming form has bad size" *)
| BadHeader1 | BadHeader2 | BadHeader3
| FileTooLarge       (* "Realm file too large" *)
| ReadOnlyEmpty      (* "Read-only access to empty Realm file" *)
| NotCreatedForSync  (* "... was not created with support for ... synchronization" *)
| RequiresSync.      (* "... requires support for client/server synchronization" *)

Inductive exn :=
| InvalidFreeSpace
| InvalidDatabase (why : db_error)
| bad_alloc
| FileAccessError.

(** What a member function does to the allocator: it returns, it throws (the
    fields keep what was assigned before the throw), or the process stops
    ([REALM_ASSERT] failure, or behaviour the language leaves undefined). *)
Inductive outcome (A : Type) :=
| Ret (a : A) (s : SlabAlloc)
| Throw (e : exn) (s : SlabAlloc)
| Abort.
Arguments Ret {A} a s.
Arguments Throw {A} e s.
Arguments Abort {A}.

Definition M (A : Type) : Type := SlabAlloc -> outcome A.

Definition ret {A} (a : A) : M A := fun s => Ret a s.
Definition bind {A B} (c : M A) (k : A -> M B) : M B :=
  fun s => match c s with
           | Ret a s' => k a s'
           | Throw e s' => Throw e s'
           | Abort => Abort
           end.
Definition throw {A} (e : exn) : M A := fun s => Throw e s.
Definition modify (f : SlabAlloc -> SlabAlloc) : M unit := fun s => Ret tt (f s).
Definition gets {A} (f : SlabAlloc -> A) : M A := fun s => Ret (f s) s.
Definition throw_if (c : bool) (e : exn) : M unit :=
  if c then throw e else ret tt.
Definition realm_assert (c : bool) : M unit :=
  if c then ret tt else fun _ => Abort.

Declare Scope alloc_scope.
Delimit Scope alloc_scope with alloc.
Notation "x <- c ;; k" := (bind c (fun x => k))
  (at level 100, c at next level, right associativity) : alloc_scope.
Notation "c ;; k" := (bind c (fun _ => k))
  (at level 100, right associativity) : alloc_scope.

(** ** Header and footer codec *)

(** What the allocator takes from files that are not part of it. *)
Class Externals := {
  (** alloc_slab.hpp: the file format this library writes. *)
  library_file_format : Z;
  (** alloc_slab.hpp: the magic cookie closing a streaming footer. *)
  footer_magic_cookie : Z;
  (** array.hpp, [Array::get_byte_size_from_header]: the size recorded in the
      segment header at the start of the given memory. *)
  get_byte_size_from_header : list byte -> Z;
  (** array.hpp, [Array::get_capacity_from_header]. *)
  get_capacity_from_header : list byte -> Z
}.

Section Allocator.

Context `{ext : Externals}.

(** Modelled from the spec: [sizeof (Header)], 24 bytes at offset 0. *)
Definition sizeof_Header : Z := 24.
(** Modelled from the spec: [sizeof (StreamingFooter)], the last 16 bytes. *)
Definition sizeof_StreamingFooter : Z := 16.
(** Modelled from the spec: bit 0 of the flags byte selects the slot. *)
Definition flags_SelectBit : Z := 1.
(** Modelled from the spec: bit 1 of the flags byte marks server-sync mode. *)
Definition flags_ServerSyncMode : Z := 2.

(** Field offsets of [struct Header]. *)
Definition header_top_ref (data : list byte) (i : Z) : Z := read_u64 data (8 * i).
Definition header_mnemonic (data : list byte) (i : Z) : Z := peek data (16 + i).
Definition header_file_format (data : list byte) (i : Z) : Z := peek data (20 + i).
Definition header_flags (data : list byte) : Z := peek data 23.

(** [reinterpret_cast<const StreamingFooter*>(data+size) - 1] *)
Definition footer_top_ref (data : list byte) (size : Z) : Z :=
  read_u64 data (size - 16).
Definition footer_magic (data : list byte) (size : Z) : Z :=
  read_u64 data (size - 8).

Definition char_T : Z := 84.
Definition char_dash : Z := 45.
Definition char_D : Z := 68.
Definition char_B : Z := 66.
Definition streaming_sentinel : Z := 0xFFFFFFFFFFFFFFFF.

Local Open Scope alloc_scope.

(** [SlabAlloc::validate_buffer]; [top_ref] is the value returned. *)
Definition validate_buffer (data : list byte) (is_shared : bool) : M Z :=
  let size := buf_size data in
  throw_if ((size <? sizeof_Header) || negb (size mod 8 =? 0))
    (InvalidDatabase BadSize) ;;
  throw_if (negb ((header_mnemonic data 0 =? char_T) &&
                  (header_mnemonic data 1 =? char_dash) &&
                  (header_mnemonic data 2 =? char_D) &&
                  (header_mnemonic data 3 =? char_B)))
    (InvalidDatabase BadMagic) ;;
  let valid_part := Z.land (peek data (16 + 7)) 1 in
  let file_format := peek data (16 + 4 + valid_part) in
  let bad_file_format := negb (file_format =? library_file_format) in
  let bad_file_format :=
    if (file_format =? 2) && (library_file_format =? 3) && is_shared
    then false else bad_file_format in
  throw_if bad_file_format (InvalidDatabase BadFormat) ;;
  let ref := read_u64 data (8 * valid_part) in
  ref <- (if (valid_part =? 0) && (ref =? streaming_sentinel) then
            throw_if (size <? sizeof_Header + sizeof_StreamingFooter)
              (InvalidDatabase StreamingBadSize) ;;
            let ref := footer_top_ref data size in
            throw_if (negb (footer_magic data size =? footer_magic_cookie))
              (InvalidDatabase BadHeader1) ;;
            modify (with_streaming true) ;;
            ret ref
          else ret ref) ;;
  throw_if (negb (ref mod 8 =? 0)) (InvalidDatabase BadHeader2) ;;
  throw_if (size <=? ref) (InvalidDatabase BadHeader3) ;;
  ret ref.

(** ** Slab list and ref translation *)

(** [std::find_if]: the position of the first element satisfying [p], or
    [None] for [end()]. *)
Fixpoint find_if {A} (p : A -> bool) (l : list A) : option nat :=
  match l with
  | [] => None
  | x :: l' => if p x then Some O else S <$> find_if p l'
  end.

(** The first hit of a scan from [rbegin()] to [rend()]. *)
Fixpoint rfind_if {A} (p : A -> bool) (l : list A) : option nat :=
  match l with
  | [] => None
  | x :: l' =>
      match rfind_if p l' with
      | Some i => Some (S i)
      | None => if p x then Some O else None
      end
  end.

(** Erase by "move last over": [*i = v.back(); v.pop_back();] *)
Definition erase_move_last {A} (i : nat) (l : list A) : list A :=
  match last l with
  | Some b => take (pred (length l)) (<[i := b]> l)
  | None => l
  end.

Definition ChunkRefEq (r : Z) (chunk : Chunk) : bool := ref chunk =? r.
Definition ChunkRefEndEq (r : Z) (chunk : Chunk) : bool :=
  wrap (ref chunk + size chunk) =? r.
Definition SlabRefEndEq (r : Z) (slab : Slab) : bool := ref_end slab =? r.

(** Modelled from the spec: the comparison of alloc_slab.hpp handed to
    [upper_bound], "an upper-bound binary search on ref_end". *)
Definition ref_less_than_slab_ref_end (r : Z) (slab : Slab) : bool :=
  r <? ref_end slab.

(** [std::upper_bound] over the slabs: halve the range [first, first+len)
    until it is empty. *)
Fixpoint upper_bound_loop (fuel : nat) (slabs : list Slab) (val : Z)
    (first len : nat) : nat :=
  match fuel with
  | O => first
  | S fuel' =>
      if (len =? 0)%nat then first
      else
        let half := Nat.div2 len in
        let middle := (first + half)%nat in
        match slabs !! middle with
        | Some s =>
            if ref_less_than_slab_ref_end val s
            then upper_bound_loop fuel' slabs val first half
            else upper_bound_loop fuel' slabs val (S middle) (len - half - 1)
        | None => first
        end
  end.

Definition upper_bound (slabs : list Slab) (val : Z) : nat :=
  upper_bound_loop (length slabs) slabs val O (length slabs).

(** Where slab [i] starts: [i == begin() ? m_baseline : (i-1)->ref_end]. *)
Definition slab_ref_of (baseline : Z) (slabs : list Slab) (i : nat) : Z :=
  match i with
  | O => baseline
  | S j => from_option ref_end 0 (slabs !! j)
  end.

Definition slab_ref (a : SlabAlloc) (i : nat) : Z :=
  slab_ref_of (m_baseline a) (m_slabs a) i.

Definition data_addr (a : SlabAlloc) : Z := from_option base 0 (m_data a).

(** Modelled from the spec: [is_attached()] of alloc_slab.hpp, the attach
    mode is not None. *)
Definition is_attached (a : SlabAlloc) : bool :=
  negb (bool_decide (m_attach_mode a = attach_None)).

(** Modelled from the spec: [is_read_only(ref)] of alloc.hpp,
    "read_only = ref < B". *)
Definition is_read_only (a : SlabAlloc) (r : Z) : bool := r <? m_baseline a.

(** [SlabAlloc::do_translate]; [None] when the search ends at [end()], which
    the code dereferences. *)
Definition do_translate (r : Z) (a : SlabAlloc) : option Z :=
  if r <? m_baseline a then Some (data_addr a + r)
  else
    let i := upper_bound (m_slabs a) r in
    slab ← m_slabs a !! i;
    Some (base (addr slab) + wrap (r - slab_ref a i)).

Definition translate := do_translate.

(** The memory found at [translate(r)], up to the end of its region. *)
Definition memory_at (r : Z) (a : SlabAlloc) : list byte :=
  if r <? m_baseline a then
    drop (Z.to_nat r) (from_option bytes [] (m_data a))
  else
    let i := upper_bound (m_slabs a) r in
    match m_slabs a !! i with
    | Some slab => drop (Z.to_nat (wrap (r - slab_ref a i))) (bytes (addr slab))
    | None => []
    end.

(** A write of [bs] at [translate(r)], for a ref of the mutable region. *)
Definition store (r : Z) (bs : list byte) (a : SlabAlloc) : SlabAlloc :=
  let i := upper_bound (m_slabs a) r in
  match m_slabs a !! i with
  | Some slab =>
      let off := Z.to_nat (wrap (r - slab_ref a i)) in
      let buf := mkBuffer (base (addr slab)) (splice off bs (bytes (addr slab))) in
      with_slabs (<[i := mkSlab buf (ref_end slab)]> (m_slabs a)) a
  | None => a
  end.

(** [SlabAlloc::get_total_size] *)
Definition get_total_size (a : SlabAlloc) : Z :=
  match last (m_slabs a) with
  | None => m_baseline a
  | Some s => ref_end s
  end.

(** ** Allocation *)

(** What the free store does during one call of [do_alloc]: the address
    [new char[n]] returns ([None]: it throws), and whether each [push_back]
    finds memory. *)
Record AllocEnv := mkAllocEnv {
  new_array : option Z;
  slabs_push_ok : bool;
  free_space_push_ok : bool
}.

(** The size of the slab [do_alloc] creates for a request of [sz] bytes,
    and the ref at which it starts. *)
Definition round_up_256 (sz : Z) : Z := wrap (Z.lor (wrap (sz - 1)) 255 + 1).

Definition new_slab_ref_size (sz : Z) (a : SlabAlloc) : Z * Z :=
  let new_size := round_up_256 sz in
  match last (m_slabs a) with
  | None => (m_baseline a, new_size)
  | Some back =>
      let curr_ref_end := ref_end back in
      let prev_ref_end :=
        if (length (m_slabs a) =? 1)%nat then m_baseline a
        else from_option ref_end 0 (m_slabs a !! (length (m_slabs a) - 2)%nat) in
      let min_size := wrap (2 * wrap (curr_ref_end - prev_ref_end)) in
      let new_size := if new_size <? min_size then min_size else new_size in
      (curr_ref_end, new_size)
  end.

(** [SlabAlloc::do_alloc] *)
Definition do_alloc (env : AllocEnv) (sz : Z) : M MemRef := fun a =>
  if bool_decide (m_free_space_state a = free_space_Invalid)
  then Throw InvalidFreeSpace a
  else
    let a := with_free_space_state free_space_Dirty a in
    match rfind_if (fun c => sz <=? size c) (m_free_space a) with
    | Some i =>
        match m_free_space a !! i with
        | Some c =>
            let r := ref c in
            let rest := wrap (size c - sz) in
            let free_space :=
              if rest =? 0 then erase_move_last i (m_free_space a)
              else <[i := mkChunk (wrap (ref c + sz)) rest]> (m_free_space a) in
            let a := with_free_space free_space a in
            match translate r a with
            | Some p => Ret (mkMemRef p r) a
            | None => Abort
            end
        | None => Abort
        end
    | None =>
        let '(r, new_size) := new_slab_ref_size sz a in
        match new_array env with
        | None => Throw bad_alloc a
        | Some p =>
            let mem := mkBuffer p (replicate (Z.to_nat new_size) x00) in
            let slab := mkSlab mem (wrap (r + new_size)) in
            if negb (slabs_push_ok env) then Throw bad_alloc a
            else
              let a := with_slabs (m_slabs a ++ [slab]) a in
              let unused := wrap (new_size - sz) in
              if 0 <? unused then
                if negb (free_space_push_ok env) then Throw bad_alloc a
                else
                  let chunk := mkChunk (wrap (r + sz)) unused in
                  Ret (mkMemRef p r) (with_free_space (m_free_space a ++ [chunk]) a)
              else Ret (mkMemRef p r) a
        end
    end.

(** ** Deallocation *)

(** The size [do_free] reads from the segment header at [translate(r)]. *)
Definition freed_size (r : Z) (a : SlabAlloc) : Z :=
  wrap (if is_read_only a r
        then get_byte_size_from_header (memory_at r a)
        else get_capacity_from_header (memory_at r a)).

Definition add_size (n : Z) (c : Chunk) : Chunk :=
  mkChunk (ref c) (wrap (size c + n)).

(** The work of [do_free] on the list it selected; the result is the list
    and whether the chunk still has to be appended. *)
Definition coalesce (slabs : list Slab) (r sz : Z) (free_space : list Chunk)
    : list Chunk * bool :=
  let r_end := wrap (r + sz) in
  (* merge with the adjacent succeeding free block *)
  let '(free_space, merged_with) :=
    match find_if (ChunkRefEq r_end) free_space with
    | Some i =>
        match find_if (SlabRefEndEq r_end) slabs, free_space !! i with
        | None, Some c =>
            (<[i := mkChunk r (wrap (size c + sz))]> free_space, Some i)
        | _, _ => (free_space, None)
        end
    | None => (free_space, None)
    end in
  (* merge with the adjacent preceding free block *)
  let pred :=
    match find_if (SlabRefEndEq r) slabs with
    | None => find_if (ChunkRefEndEq r) free_space
    | Some _ => None
    end in
  match pred, merged_with with
  | Some i, Some m =>
      let msize := from_option size 0 (free_space !! m) in
      (erase_move_last m (alter (add_size msize) i free_space), false)
  | Some i, None => (alter (add_size sz) i free_space, false)
  | None, Some _ => (free_space, false)
  | None, None => (free_space, true)
  end.

(** [SlabAlloc::do_free]; [push_ok] tells whether [push_back] finds memory.
    [None]: one of the two [REALM_ASSERT_3] stops the process. *)
Definition do_free (push_ok : bool) (r : Z) (p : Z) (a : SlabAlloc)
    : option SlabAlloc :=
  if negb (bool_decide (translate r a = Some p)) then None
  else
    let read_only := is_read_only a r in
    let sz := freed_size r a in
    if bool_decide (m_free_space_state a = free_space_Invalid) then Some a
    else if negb (read_only ||
                  bool_decide (m_free_space_state a = free_space_Dirty))
    then None
    else
      let a := with_free_space_state free_space_Dirty a in
      let free_space := if read_only then m_free_read_only a else m_free_space a in
      let put l := if read_only then with_free_read_only l a
                   else with_free_space l a in
      let '(free_space, append) := coalesce (m_slabs a) r sz free_space in
      if append then
        if push_ok then Some (put (free_space ++ [mkChunk r sz]))
        else Some (with_free_space_state free_space_Invalid (put free_space))
      else Some (put free_space).

Definition lift_free (o : option SlabAlloc) : outcome unit :=
  match o with Some a => Ret tt a | None => Abort end.

(** [SlabAlloc::do_realloc] *)
Definition do_realloc (env : AllocEnv) (push_ok : bool)
    (r : Z) (p : Z) (old_size new_size : Z) : M MemRef :=
  (new_mem <- do_alloc env new_size ;;
   old <- gets (fun a => take (Z.to_nat old_size) (memory_at r a)) ;;
   modify (store (m_ref new_mem) old) ;;
   (fun a => lift_free (do_free push_ok r p a)) ;;
   ret new_mem)%alloc.

(** ** Free-space tracking *)

(** The loop of [reset_free_space_tracking]: one chunk per slab, [chunk.ref]
    carried from one slab to the next.  [pushes] is the number of
    [push_back] calls that still find memory; the result is the list built
    so far and whether the loop ran to its end. *)
Fixpoint rebuild_free_space (slabs : list Slab) (chunk_ref : Z)
    (free_space : list Chunk) (pushes : nat) : list Chunk * bool :=
  match slabs with
  | [] => (free_space, true)
  | slab :: rest =>
      match pushes with
      | O => (free_space, false)
      | S pushes' =>
          let chunk := mkChunk chunk_ref (wrap (ref_end slab - chunk_ref)) in
          rebuild_free_space rest (ref_end slab) (free_space ++ [chunk]) pushes'
      end
  end.

(** [SlabAlloc::reset_free_space_tracking] *)
Definition reset_free_space_tracking (pushes : nat) : M unit := fun a =>
  if bool_decide (m_free_space_state a = free_space_Clean) then Ret tt a
  else
    let a := with_free_space [] (with_free_read_only [] a) in
    match rebuild_free_space (m_slabs a) (m_baseline a) [] pushes with
    | (free_space, true) =>
        Ret tt (with_free_space_state free_space_Clean
                  (with_free_space free_space a))
    | (free_space, false) => Throw bad_alloc (with_free_space free_space a)
    end.

(** The loop of [remap]: chunk [i] and slab [i] are rebased together.
    [None]: the free list is longer than the slab list and [m_slabs[i]]
    is out of range. *)
Fixpoint rebase (free_space : list Chunk) (slabs : list Slab) (slab_ref : Z)
    : option (list Chunk * list Slab) :=
  match free_space, slabs with
  | [], _ => Some ([], slabs)
  | _ :: _, [] => None
  | free_chunk :: free_space', slab :: slabs' =>
      let slab_ref_end := wrap (slab_ref + size free_chunk) in
      '(cs, ss) ← rebase free_space' slabs' slab_ref_end;
      Some (mkChunk slab_ref (size free_chunk) :: cs,
            mkSlab (addr slab) slab_ref_end :: ss)
  end.

(** [SlabAlloc::remap]; [mapping] is what [m_file.remap] returns for
    [file_size] bytes.  The result tells whether the address changed. *)
Definition remap (mapping : Buffer) (file_size : Z) : M bool := fun a =>
  let addr_changed := negb (base mapping =? data_addr a) in
  let a := with_baseline file_size (with_data (Some mapping) a) in
  match rebase (m_free_space a) (m_slabs a) file_size with
  | Some (cs, ss) => Ret addr_changed (with_slabs ss (with_free_space cs a))
  | None => Abort
  end.

(** [SlabAlloc::get_free_read_only] *)
Definition get_free_read_only : M (list Chunk) := fun a =>
  if bool_decide (m_free_space_state a = free_space_Invalid)
  then Throw InvalidFreeSpace a
  else Ret (m_free_read_only a) a.

(** The loop of [is_all_free]. *)
Fixpoint slabs_all_free (free_space : list Chunk) (slabs : list Slab)
    (slab_ref : Z) : bool :=
  match slabs with
  | [] => true
  | slab :: rest =>
      let slab_size := wrap (ref_end slab - slab_ref) in
      match find_if (ChunkRefEq slab_ref) free_space with
      | None => false
      | Some i =>
          match free_space !! i with
          | Some chunk =>
              if negb (slab_size =? size chunk) then false
              else slabs_all_free free_space rest (ref_end slab)
          | None => false
          end
      end
  end.

(** [SlabAlloc::is_all_free] *)
Definition is_all_free (a : SlabAlloc) : bool :=
  if negb (length (m_free_space a) =? length (m_slabs a))%nat then false
  else slabs_all_free (m_free_space a) (m_slabs a) (m_baseline a).


(** ** Attachment lifecycle *)

(** [SlabAlloc::empty_file_header] and [SlabAlloc::streaming_header], as
    the 24 bytes they occupy. *)
Definition header_bytes (top_ref0 : Z) : list byte :=
  le_bytes 8 top_ref0 ++ le_bytes 8 0 ++
  [byte_of char_T; byte_of char_dash; byte_of char_D; byte_of char_B;
   byte_of library_file_format; byte_of library_file_format;
   byte_of 0; byte_of 0].

Definition empty_file_header : list byte := header_bytes 0.

(** [header->m_file_format[select_field]] with
    [select_field = (m_flags & flags_SelectBit) != 0 ? 1 : 0]. *)
Definition selected_file_format (data : list byte) : Z :=
  let select_field :=
    if negb (Z.land (header_flags data) flags_SelectBit =? 0) then 1 else 0 in
  header_file_format data select_field.

(** What [attach_file] is given: the contents of the file at [path] ([None]:
    there is no such file), the address at which the file gets mapped, and
    the flags of the call.  Encryption is left out. *)
Record FileArgs := mkFileArgs {
  file_contents : option (list byte);
  map_addr : Z;
  is_shared : bool;
  read_only : bool;
  no_create : bool;
  skip_validate : bool;
  server_sync_mode : bool
}.

Definition initial_size : Z := 4 * 1024.

Definition has_flag (flags bit : Z) : bool := negb (Z.land flags bit =? 0).

(** [SlabAlloc::attach_file]; the result is the top ref and the contents of
    the file afterwards. *)
Definition attach_file (f : FileArgs) : M (Z * list byte) :=
  a0 <- gets id ;;
  realm_assert (negb (is_attached a0)) ;;
  realm_assert (negb (is_shared f && read_only f)) ;;
  (* m_file.open: create_Never when read_only || no_create *)
  contents <- match file_contents f with
              | Some c => ret c
              | None => if read_only f || no_create f
                        then throw FileAccessError else ret []
              end ;;
  let size := buf_size contents in
  throw_if (word_max <=? size) (InvalidDatabase FileTooLarge) ;;
  let did_create := size =? 0 in
  contents <- (if did_create then
                 throw_if (read_only f) (InvalidDatabase ReadOnlyEmpty) ;;
                 (* write the header, then prealloc(0, initial_size) *)
                 ret (empty_file_header ++
                      replicate (Z.to_nat (initial_size - sizeof_Header)) x00)
               else ret contents) ;;
  let size := if did_create then initial_size else size in
  modify (with_streaming false) ;;
  top_ref <- (if skip_validate f then ret 0
              else validate_buffer contents (is_shared f)) ;;
  contents <- (if did_create then
                 let flags := Z.lor (header_flags contents)
                                (if server_sync_mode f
                                 then flags_ServerSyncMode else 0) in
                 let contents := write_byte contents 23 flags in
                 realm_assert (eqb (server_sync_mode f)
                                 (has_flag (header_flags contents)
                                    flags_ServerSyncMode)) ;;
                 ret contents
               else
                 let stored_server_sync_mode :=
                   has_flag (header_flags contents) flags_ServerSyncMode in
                 throw_if (server_sync_mode f && negb stored_server_sync_mode)
                   (InvalidDatabase NotCreatedForSync) ;;
                 throw_if (negb (server_sync_mode f) && stored_server_sync_mode)
                   (InvalidDatabase RequiresSync) ;;
                 ret contents) ;;
  modify (with_file_format (selected_file_format contents)) ;;
  modify (with_data (Some (mkBuffer (map_addr f) contents))) ;;
  modify (with_baseline size) ;;
  modify (with_attach_mode (if is_shared f then attach_SharedFile
                            else attach_UnsharedFile)) ;;
  modify (with_free_space_state free_space_Invalid) ;;
  ret (top_ref, contents).

(** [SlabAlloc::attach_buffer] *)
Definition attach_buffer (data : Buffer) : M Z :=
  a0 <- gets id ;;
  realm_assert (negb (is_attached a0)) ;;
  modify (with_streaming false) ;;
  top_ref <- validate_buffer (bytes data) false ;;
  modify (with_file_format (selected_file_format (bytes data))) ;;
  modify (with_data (Some data)) ;;
  modify (with_baseline (buf_size (bytes data))) ;;
  modify (with_attach_mode attach_UsersBuffer) ;;
  ret top_ref.

(** [SlabAlloc::attach_empty] *)
Definition attach_empty : M unit :=
  a0 <- gets id ;;
  realm_assert (negb (is_attached a0)) ;;
  modify (with_attach_mode attach_OwnedBuffer) ;;
  modify (with_data None) ;;
  modify (with_baseline sizeof_Header).

(** [SlabAlloc::detach]: every mode ends at [found:]. *)
Definition detach : M unit := modify (with_attach_mode attach_None).



(** [SlabAlloc::get_committed_file_format]; [None] when the header cannot
    be read through [m_data]. *)
Definition get_committed_file_format (a : SlabAlloc) : option Z :=
  header ← bytes <$> m_data a;
  flags ← get_byte header 23;
  let select_field := Z.land (byte_val flags) flags_SelectBit in
  byte_val <$> get_byte header (20 + select_field).

(** Modelled from the spec: the constructor of alloc_slab.hpp, "the
    allocator is constructed detached"; the free-space state it starts in
    is left open. *)
Definition fresh (fs : FreeSpaceState) : SlabAlloc :=
  mkSlabAlloc None 0 attach_None fs false 0 [] [] [].

(** ** Reachable states *)

(** [lo, hi) lies within the range of one slab. *)
Definition in_slab (a : SlabAlloc) (lo hi : Z) : Prop :=
  exists i slab, m_slabs a !! i = Some slab /\
                 slab_ref a i <= lo /\ hi <= ref_end slab.

(** A block [free] may be handed: [sz] bytes at [r], below the baseline or
    inside one slab, as every block given out by [alloc] is. *)
Definition block_ok (a : SlabAlloc) (r sz : Z) : Prop :=
  0 < sz /\ ((0 <= r /\ r + sz <= m_baseline a) \/ in_slab a r (r + sz)).

Definition last_slab_size (a : SlabAlloc) : Z :=
  match length (m_slabs a) with
  | O => 0
  | S n => get_total_size a - slab_ref a n
  end.

(** The refs of a slab grown for [sz] bytes fit in 64 bits: slabs are
    separate arrays of one address space. *)
Definition alloc_fits (a : SlabAlloc) (sz : Z) : Prop :=
  get_total_size a + Z.max (sz + 255) (2 * last_slab_size a) < word_max.

Definition alloc_pre (a : SlabAlloc) (sz : Z) : Prop :=
  0 < sz /\ sz mod 8 = 0 /\ is_attached a = true /\ alloc_fits a sz.

Inductive Op :=
| OpAlloc (env : AllocEnv) (sz : Z)
| OpFree (push_ok : bool) (r p : Z)
| OpRealloc (env : AllocEnv) (push_ok : bool) (r p old_size new_size : Z)
| OpReset (pushes : nat)
| OpRemap (mapping : Buffer) (file_size : Z)
| OpStore (r : Z) (bs : list byte).

Definition run (op : Op) : M unit :=
  match op with
  | OpAlloc env sz => _ <- do_alloc env sz ;; ret tt
  | OpFree push_ok r p => fun a => lift_free (do_free push_ok r p a)
  | OpRealloc env push_ok r p old_size new_size =>
      _ <- do_realloc env push_ok r p old_size new_size ;; ret tt
  | OpReset pushes => reset_free_space_tracking pushes
  | OpRemap mapping file_size => _ <- remap mapping file_size ;; ret tt
  | OpStore r bs => modify (store r bs)
  end.

(** What the caller owes for each operation (the debug assertions of the
    code, and that a freed block is one that was given out). *)
Definition op_pre (op : Op) (a : SlabAlloc) : Prop :=
  match op with
  | OpAlloc env sz => alloc_pre a sz
  | OpFree push_ok r p => block_ok a r (freed_size r a)
  | OpRealloc env push_ok r p old_size new_size =>
      alloc_pre a new_size /\
      forall new_mem a1, do_alloc env new_size a = Ret new_mem a1 ->
        let a2 := store (m_ref new_mem)
                    (take (Z.to_nat old_size) (memory_at r a1)) a1 in
        block_ok a2 r (freed_size r a2)
  | OpReset pushes => True
  | OpRemap mapping file_size =>
      (m_attach_mode a = attach_SharedFile \/
       m_attach_mode a = attach_UnsharedFile) /\
      m_free_space_state a = free_space_Clean /\
      m_baseline a <= file_size /\ file_size mod 8 = 0 /\
      file_size + (get_total_size a - m_baseline a) < word_max
  | OpStore r bs => True
  end.

(** The states of an allocator that was constructed, attached once, and
    then used. *)
Inductive reachable : SlabAlloc -> Prop :=
| reach_attach_file fs f res a :
    attach_file f (fresh fs) = Ret res a -> reachable a
| reach_attach_buffer fs data top_ref a :
    buf_size (bytes data) < word_max ->
    attach_buffer data (fresh fs) = Ret top_ref a -> reachable a
| reach_attach_empty fs a :
    attach_empty (fresh fs) = Ret tt a -> reachable a
| reach_returns a op a' :
    reachable a -> op_pre op a -> run op a = Ret tt a' -> reachable a'
| reach_throws a op e a' :
    reachable a -> op_pre op a -> run op a = Throw e a' -> reachable a'.

(** The chunks of a free list that lists every slab whole. *)
Fixpoint whole_slabs (lo : Z) (slabs : list Slab) : list Chunk :=
  match slabs with
  | [] => []
  | s :: rest => mkChunk lo (ref_end s - lo) :: whole_slabs (ref_end s) rest
  end.

Fixpoint slabs_sorted (lo : Z) (slabs : list Slab) : Prop :=
  match slabs with
  | [] => True
  | s :: rest => lo < ref_end s /\ slabs_sorted (ref_end s) rest
  end.

Definition mutable_chunk_ok (a : SlabAlloc) (c : Chunk) : Prop :=
  0 < size c /\ in_slab a (ref c) (ref c + size c).

Definition read_only_chunk_ok (a : SlabAlloc) (c : Chunk) : Prop :=
  0 <= ref c /\ 0 < size c /\ ref c + size c <= m_baseline a.

(** [P] holds of the allocator an operation leaves behind, whether it
    returned or threw. *)
Definition holds_after {A} (P : SlabAlloc -> Prop) (o : outcome A) : Prop :=
  match o with
  | Ret _ a | Throw _ a => P a
  | Abort => True
  end.

(** A chunk as a block: [ok] tells of a block, by its ref and its size,
    whether it lies in one region. *)
Definition chunk_in (ok : Z -> Z -> Prop) (c : Chunk) : Prop :=
  ok (ref c) (size c).

(** Two slab lists that cover the same refs. *)
Definition same_ends (l l' : list Slab) : Prop :=
  Forall2 (fun s t => ref_end s = ref_end t) l l'.

(** The slabs moved up by [d] refs. *)
Definition shift_slabs (d : Z) (l : list Slab) : list Slab :=
  (fun s => mkSlab (addr s) (ref_end s + d)) <$> l.

(** The invariant carried by every reachable state. *)
Record alloc_inv (a : SlabAlloc) : Prop := mk_alloc_inv {
  inv_baseline : 0 <= m_baseline a;
  inv_sorted : slabs_sorted (m_baseline a) (m_slabs a);
  inv_total : get_total_size a < word_max;
  inv_mutable : Forall (mutable_chunk_ok a) (m_free_space a);
  inv_read_only : Forall (read_only_chunk_ok a) (m_free_read_only a);
  inv_clean : m_free_space_state a = free_space_Clean ->
              m_free_read_only a = [] /\
              m_free_space a = whole_slabs (m_baseline a) (m_slabs a)
}.

(** *** Checking a run *)

(** [op_pre], decided, for the operations used in examples. *)
Definition in_slab_b (a : SlabAlloc) (lo hi : Z) : bool :=
  existsb (fun i => match m_slabs a !! i with
                    | Some slab => (slab_ref a i <=? lo) && (hi <=? ref_end slab)
                    | None => false
                    end)
    (seq 0 (length (m_slabs a))).

Definition block_ok_b (a : SlabAlloc) (r sz : Z) : bool :=
  (0 <? sz) &&
  (((0 <=? r) && (r + sz <=? m_baseline a)) || in_slab_b a r (r + sz)).

Definition alloc_pre_b (a : SlabAlloc) (sz : Z) : bool :=
  (0 <? sz) && (sz mod 8 =? 0) && is_attached a &&
  (get_total_size a + Z.max (sz + 255) (2 * last_slab_size a) <? word_max).

Definition op_ok (op : Op) (a : SlabAlloc) : bool :=
  match op with
  | OpAlloc _ sz => alloc_pre_b a sz
  | OpFree _ r _ => block_ok_b a r (freed_size r a)
  | OpReset _ => true
  | OpStore _ _ => true
  | OpRealloc _ _ _ _ _ _ => false
  | OpRemap _ _ => false
  end.

(** The state after a sequence of operations, each checked. *)
Fixpoint run_ops (ops : list Op) (a : SlabAlloc) : option SlabAlloc :=
  match ops with
  | [] => Some a
  | op :: rest =>
      if op_ok op a then
        match run op a with
        | Ret _ a' | Throw _ a' => run_ops rest a'
        | Abort => None
        end
      else None
  end.

(** ** Vocabulary of the header checks *)

Definition selected_slot (data : list byte) : Z := Z.land (peek data 23) 1.

Definition bad_size (data : list byte) : Prop :=
  buf_size data < 24 \/ buf_size data mod 8 <> 0.
Definition magic_ok (data : list byte) : Prop :=
  peek data 16 = 84 /\ peek data 17 = 45 /\ peek data 18 = 68 /\
  peek data 19 = 66.
Definition format_ok (data : list byte) (shared : bool) : Prop :=
  let stored := peek data (20 + selected_slot data) in
  stored = library_file_format \/
  (stored = 2 /\ library_file_format = 3 /\ shared = true).
Definition streaming_form (data : list byte) : Prop :=
  selected_slot data = 0 /\ read_u64 data 0 = 0xFFFFFFFFFFFFFFFF.
Definition cookie_ok (data : list byte) : Prop :=
  read_u64 data (buf_size data - 8) = footer_magic_cookie.

(** The last two checks of [validate_buffer], on the ref [r] it picked. *)
Definition finish_cases (sz : Z) (result : outcome Z) (r : Z) (a' : SlabAlloc)
    : Prop :=
  (r mod 8 <> 0 /\ result = Throw (InvalidDatabase BadHeader2) a') \/
  (r mod 8 = 0 /\ sz <= r /\
   result = Throw (InvalidDatabase BadHeader3) a') \/
  (r mod 8 = 0 /\ r < sz /\ result = Ret r a').

End Allocator.

(** ** A concrete library, to run the model on examples *)

(** The capacity field of a segment header, three bytes, high byte first. *)
Definition capacity_of (header : list byte) : Z :=
  peek header 0 * 65536 + peek header 1 * 256 + peek header 2.

(** File format 3 and its footer cookie; both accessors read the capacity
    field. *)
Definition realm3 : Externals := {|
  library_file_format := 3;
  footer_magic_cookie := 0x3034125237E526C8;
  get_byte_size_from_header := capacity_of;
  get_capacity_from_header := capacity_of
|}.

(** A user buffer holding just the header of an empty file. *)
Definition empty_buffer : Buffer :=
  mkBuffer 4096 (empty_file_header (ext := realm3)).

(** A file on streaming form: the streaming header with the given format
    bytes, 48 bytes of payload, and a footer whose top ref is [0x40]. *)
Definition streaming_file (format0 format1 : Z) : list byte :=
  le_bytes 8 streaming_sentinel ++ le_bytes 8 0 ++
  [byte_of char_T; byte_of char_dash; byte_of char_D; byte_of char_B;
   byte_of format0; byte_of format1; byte_of 0; byte_of 0] ++
  replicate 48 x00 ++
  le_bytes 8 0x40 ++ le_bytes 8 (footer_magic_cookie (Externals := realm3)).

(** attach to a buffer, reset, detach, attach empty *)
Definition reattach_empty : M unit :=
  (_ <- attach_buffer (ext := realm3) empty_buffer ;;
   reset_free_space_tracking 0 ;;
   detach ;;
   attach_empty)%alloc.

(** An allocator just attached to nothing: what [attach_empty] makes of a
    fresh allocator. *)
Definition attached_empty (fs : FreeSpaceState) : SlabAlloc :=
  with_baseline 24
    (with_data None (with_attach_mode attach_OwnedBuffer (fresh fs))).

(** A call of [alloc] with memory to spare; a new array would be at [p]. *)
Definition plenty (p : Z) : AllocEnv := mkAllocEnv (Some p) true true.

(** A segment header announcing a capacity of 8 bytes. *)
Definition header8 : list byte := [x00; x00; x08; x00; x00; x00; x00; x00].

(** Three blocks of 8 bytes from a fresh slab, each given its header. *)
Definition three_blocks : list Op :=
  [OpReset 0;
   OpAlloc (plenty 0x10000) 8; OpAlloc (plenty 0x10000) 8;
   OpAlloc (plenty 0x10000) 8;
   OpStore 24 header8; OpStore 32 header8; OpStore 40 header8].

(** ... then the middle block and the left block freed. *)
Definition two_freed : list Op :=
  three_blocks ++ [OpFree true 32 0x10008; OpFree true 24 0x10000].

(** The same as a program: allocate three blocks, free them in the order
    middle, left, right. *)
Definition coalesce_three : M unit :=
  (attach_empty ;;
   reset_free_space_tracking 0 ;;
   left <- do_alloc (plenty 0x10000) 8 ;;
   middle <- do_alloc (plenty 0x10000) 8 ;;
   right <- do_alloc (plenty 0x10000) 8 ;;
   modify (store (m_ref left) header8) ;;
   modify (store (m_ref middle) header8) ;;
   modify (store (m_ref right) header8) ;;
   run (ext := realm3) (OpFree true (m_ref middle) (m_addr middle)) ;;
   run (ext := realm3) (OpFree true (m_ref left) (m_addr left)) ;;
   run (ext := realm3) (OpFree true (m_ref right) (m_addr right)))%alloc.

(** The states these runs end in. *)
Definition state_three_blocks : SlabAlloc :=
  Eval vm_compute in
    default (fresh free_space_Clean)
      (run_ops (ext := realm3) three_blocks (attached_empty free_space_Clean)).

Definition state_two_freed : SlabAlloc :=
  Eval vm_compute in
    default (fresh free_space_Clean)
      (run_ops (ext := realm3) two_freed (attached_empty free_space_Clean)).


(** A call of [attach_file] on a path where no file exists yet. *)
Definition new_file : FileArgs :=
  mkFileArgs None 0x20000 false false false false false.

(** ** Further vocabulary *)

Section Vocabulary.

Context `{ext : Externals}.

(** What [attach_file] leaves in a file it creates: the empty header, zeros
    up to [initial_size], and the server-sync bit of the flags byte. *)
Definition created_file (sync : bool) : list byte :=
  let contents :=
    empty_file_header ++
    replicate (Z.to_nat (initial_size - sizeof_Header)) x00 in
  write_byte contents 23
    (Z.lor (header_flags contents) (if sync then flags_ServerSyncMode else 0)).


(** The block of [sz] bytes at [r] and the chunk [c] do not overlap. *)
Definition apart (r sz : Z) (c : Chunk) : Prop :=
  r + sz <= ref c \/ ref c + size c <= r.

(** No two chunks of a free list overlap. *)
Fixpoint disjoint_chunks (l : list Chunk) : Prop :=
  match l with
  | [] => True
  | c :: l' => Forall (apart (ref c) (size c)) l' /\ disjoint_chunks l'
  end.

(** The first line of [SlabAlloc::print]: [free] is summed over the mutable
    free list, and "Attached:" and "Allocated:" are followed by these two
    numbers. *)
Definition allocated_for_slabs (a : SlabAlloc) : Z :=
  match last (m_slabs a) with
  | None => 0
  | Some back => wrap (ref_end back - m_baseline a)
  end.

Fixpoint sum_sizes (free : Z) (l : list Chunk) : Z :=
  match l with
  | [] => free
  | c :: l' => sum_sizes (wrap (free + size c)) l'
  end.

Definition print_attached (a : SlabAlloc) : Z :=
  match m_data a with Some _ => m_baseline a | None => 0 end.

Definition print_allocated (a : SlabAlloc) : Z :=
  wrap (allocated_for_slabs a - sum_sizes 0 (m_free_space a)).

(** The sizes of a list of chunks, added up without wrap-around. *)
Definition total_size (l : list Chunk) : Z :=
  foldr (fun c n => size c + n) 0 l.

(** [SlabAlloc::~SlabAlloc] in a debug build: [None] when it stops the
    process with "SlabAlloc detected a leak", otherwise the allocator it
    leaves, detached. *)
Definition destructor (a : SlabAlloc) : option SlabAlloc :=
  if is_attached a &&
     negb (bool_decide (m_attach_mode a = attach_SharedFile)) &&
     negb (bool_decide (m_free_space_state a = free_space_Invalid)) &&
     negb (is_all_free a)
  then None
  else Some (if is_attached a then with_attach_mode attach_None a else a).

(** Where the block of a returning [do_alloc] comes from: the head of the
    last chunk of the free list that is large enough, or the head of a new
    slab at the end of the refs. *)
Definition from_chunk (sz : Z) (a : SlabAlloc) (mem : MemRef)
    (a' : SlabAlloc) : Prop :=
  exists i c,
    rfind_if (fun c => sz <=? size c) (m_free_space a) = Some i /\
    m_free_space a !! i = Some c /\ sz <= size c /\
    m_ref mem = ref c /\ translate (ref c) a = Some (m_addr mem) /\
    a' = with_free_space
           (if size c - sz =? 0 then erase_move_last i (m_free_space a)
            else <[i := mkChunk (ref c + sz) (size c - sz)]> (m_free_space a))
           (with_free_space_state free_space_Dirty a).

Definition from_new_slab (env : AllocEnv) (sz : Z) (a : SlabAlloc)
    (mem : MemRef) (a' : SlabAlloc) : Prop :=
  let start := get_total_size a in
  let new_size := Z.max (256 * ((sz + 255) / 256)) (2 * last_slab_size a) in
  rfind_if (fun c => sz <=? size c) (m_free_space a) = None /\
  exists p, new_array env = Some p /\ mem = mkMemRef p start /\
    let slab := mkSlab (mkBuffer p (replicate (Z.to_nat new_size) x00))
                  (start + new_size) in
    let a2 := with_slabs (m_slabs a ++ [slab])
                (with_free_space_state free_space_Dirty a) in
    a' = if 0 <? new_size - sz
         then with_free_space
                (m_free_space a ++ [mkChunk (start + sz) (new_size - sz)]) a2
         else a2.

(** Everything the allocator hands out or keeps is 8-byte aligned:
    the baseline, the slab ends, and the ref and size of every free
    chunk. *)
Definition aligned8 (a : SlabAlloc) : Prop :=
  m_baseline a mod 8 = 0 /\
  Forall (fun s => ref_end s mod 8 = 0) (m_slabs a) /\
  Forall (fun c => ref c mod 8 = 0 /\ size c mod 8 = 0) (m_free_space a).

End Vocabulary.

(** * The owning pointer of util/unique_ptr.hpp

    [UniquePtr<T,D>] with the default deleter.  Pointers are addresses, 0 is
    the null pointer, and the free store is the list of the addresses of
    the objects that are alive. *)

Module UniquePtr.

Record UniquePtr := mkUniquePtr { m_ptr : Z }.

(** [DefaultDelete<T>::operator()]: [delete p].  Deleting the null pointer
    does nothing; deleting an object that is not alive is undefined
    ([None]). *)
Definition DefaultDelete (p : Z) (alive : list Z) : option (list Z) :=
  if p =? 0 then Some alive
  else if bool_decide (p ∈ alive)
       then Some (filter (fun q => q <> p) alive)
       else None.

(** [UniquePtr(T* p = 0)] and [~UniquePtr()] *)
Definition construct (p : Z) : UniquePtr := mkUniquePtr p.
Definition destruct_ (u : UniquePtr) (alive : list Z) : option (list Z) :=
  DefaultDelete (m_ptr u) alive.

Definition get (u : UniquePtr) : Z := m_ptr u.

(** [operator bool]: [m_ptr != 0] *)
Definition to_bool (u : UniquePtr) : bool := negb (m_ptr u =? 0).

(** [u.swap(p)]: the two objects afterwards, [u] first. *)
Definition swap (u p : UniquePtr) : UniquePtr * UniquePtr :=
  (mkUniquePtr (m_ptr p), mkUniquePtr (m_ptr u)).

(** [u.reset(p)]: a temporary [UniquePtr(p)] is swapped with [u] and then
    destroyed. *)
Definition reset (u : UniquePtr) (p : Z) (alive : list Z)
    : option (UniquePtr * list Z) :=
  let '(temporary, u') := swap (construct p) u in
  alive' ← destruct_ temporary alive;
  Some (u', alive').

(** [u.release()]: the pointer returned and the object afterwards. *)
Definition release (u : UniquePtr) : Z * UniquePtr :=
  (m_ptr u, mkUniquePtr 0).

(** The pointer held is null or points to an object that is alive. *)
Definition owns (u : UniquePtr) (alive : list Z) : Prop :=
  m_ptr u = 0 \/ m_ptr u ∈ alive.

(** A run of calls on one [UniquePtr]. *)
Inductive Call := CallReset (p : Z) | CallRelease.

(** The object and the free store after the calls, and the pointers that
    [release()] returned. *)
Fixpoint calls (cs : list Call) (u : UniquePtr) (alive : list Z)
    : option (UniquePtr * list Z * list Z) :=
  match cs with
  | [] => Some (u, alive, [])
  | CallReset p :: cs' =>
      '(u', alive') ← reset u p alive;
      calls cs' u' alive'
  | CallRelease :: cs' =>
      let '(q, u') := release u in
      '(u'', alive', released) ← calls cs' u' alive;
      Some (u'', alive', q :: released)
  end.

(** The pointers handed to [reset]. *)
Fixpoint given (cs : list Call) : list Z :=
  match cs with
  | [] => []
  | CallReset p :: cs' => p :: given cs'
  | CallRelease :: cs' => given cs'
  end.

End UniquePtr.

(** ** More concrete runs *)

(** The allocator attached to a new file. *)
Definition state_new_file : SlabAlloc :=
  Eval vm_compute in
    match attach_file (ext := realm3) new_file (fresh free_space_Clean) with
    | Ret _ a => a
    | _ => fresh free_space_Clean
    end.

(** ... after a reset, one allocation and another reset: one slab of 256
    bytes above the 4096 bytes of the file, all of it free. *)
Definition file_one_slab : list Op :=
  [OpReset 0; OpAlloc (plenty 0x30000) 8; OpReset 1].

Definition state_file_slab : SlabAlloc :=
  Eval vm_compute in
    default (fresh free_space_Clean)
      (run_ops (ext := realm3) file_one_slab state_new_file).

(** The mapping of the file once it has grown to 8192 bytes. *)
Definition grown_mapping : Buffer := mkBuffer 0x50000 (replicate (Z.to_nat 8192) x00).

(** A call of [attach_file] on a file that holds just the header of an
    empty file, and a read-only call on a file created before. *)
Definition existing_file : FileArgs :=
  mkFileArgs (Some (empty_file_header (ext := realm3))) 0x20000
    false false false false false.

Definition reopened_file : FileArgs :=
  mkFileArgs (Some (created_file (ext := realm3) false)) 0x20000
    false true false false false.

Definition empty_read_only : FileArgs :=
  mkFileArgs (Some []) 0x20000 false true false false false.

(** * Properties *)

(** Tactics shared by the proofs. *)

Ltac bool_hyps :=
  repeat match goal with
  | H : (_ <? _) = true |- _ => apply Z.ltb_lt in H
  | H : (_ <? _) = false |- _ => apply Z.ltb_ge in H
  | H : (_ <=? _) = true |- _ => apply Z.leb_le in H
  | H : (_ <=? _) = false |- _ => apply Z.leb_gt in H
  | H : (_ =? _) = true |- _ => apply Z.eqb_eq in H
  | H : (_ =? _) = false |- _ => apply Z.eqb_neq in H
  end.

Ltac inv_fields :=
  constructor; simpl; try done;
  try (let E := fresh in intros E; simpl in E; congruence).

Section Properties.

Context `{ext : Externals}.

Local Open Scope alloc_scope.

(** ** Header validation *)

(** Every run of [validate_buffer] takes exactly one of these paths. *)
Lemma validate_buffer_cases (data : list byte) (shared : bool) (a : SlabAlloc) :
  let size := buf_size data in
  let result := validate_buffer data shared a in
  (bad_size data /\ result = Throw (InvalidDatabase BadSize) a) \/
  (~ bad_size data /\ ~ magic_ok data /\
   result = Throw (InvalidDatabase BadMagic) a) \/
  (~ bad_size data /\ magic_ok data /\ ~ format_ok data shared /\
   result = Throw (InvalidDatabase BadFormat) a) \/
  (~ bad_size data /\ magic_ok data /\ format_ok data shared /\
   streaming_form data /\ size < 40 /\
   result = Throw (InvalidDatabase StreamingBadSize) a) \/
  (~ bad_size data /\ magic_ok data /\ format_ok data shared /\
   streaming_form data /\ 40 <= size /\ ~ cookie_ok data /\
   result = Throw (InvalidDatabase BadHeader1) a) \/
  (~ bad_size data /\ magic_ok data /\ format_ok data shared /\
   streaming_form data /\ 40 <= size /\ cookie_ok data /\
   finish_cases size result (read_u64 data (size - 16))
     (with_streaming true a)) \/
  (~ bad_size data /\ magic_ok data /\ format_ok data shared /\
   ~ streaming_form data /\
   finish_cases size result (read_u64 data (8 * selected_slot data)) a).
Proof.
  cbv zeta.
  unfold bad_size, magic_ok, format_ok, streaming_form, cookie_ok, finish_cases,
    selected_slot.
  unfold validate_buffer, bind, throw_if, throw, ret, modify,
    header_mnemonic, footer_magic, footer_top_ref, sizeof_Header,
    sizeof_StreamingFooter, char_T, char_dash, char_D, char_B,
    streaming_sentinel.
  replace (16 + 7) with 23 by lia.
  replace (16 + 0) with 16 by lia. replace (16 + 1) with 17 by lia.
  replace (16 + 2) with 18 by lia. replace (16 + 3) with 19 by lia.
  replace (24 + 16) with 40 by lia.
  set (size := buf_size data). set (select := Z.land (peek data 23) 1).
  replace (16 + 4 + select) with (20 + select) by lia.
  set (stored := peek data (20 + select)).
  destruct (size <? 24) eqn:E1; simpl; bool_hyps; [left; split; [lia | done] |].
  destruct (size mod 8 =? 0) eqn:E2; simpl; bool_hyps;
    [| left; split; [lia | done]].
  right.
  assert (Hsz : ~ (size < 24 \/ size mod 8 <> 0)) by lia.
  destruct (peek data 16 =? 84) eqn:M0; simpl; bool_hyps;
    [| left; tauto].
  destruct (peek data 17 =? 45) eqn:M1; simpl; bool_hyps;
    [| left; tauto].
  destruct (peek data 18 =? 68) eqn:M2; simpl; bool_hyps;
    [| left; tauto].
  destruct (peek data 19 =? 66) eqn:M3; simpl; bool_hyps;
    [| left; tauto].
  right.
  assert (Hfmt : (if (stored =? 2) && (library_file_format =? 3) && shared
                  then false else negb (stored =? library_file_format)) = false
                 <-> (stored = library_file_format \/
                      stored = 2 /\ library_file_format = 3 /\ shared = true)).
  { destruct (stored =? 2) eqn:F1, (library_file_format =? 3) eqn:F2,
      shared, (stored =? library_file_format) eqn:F3;
      simpl; bool_hyps; split; intros; try done; try tauto; try lia;
      intuition (try congruence; try lia). }
  destruct (if (stored =? 2) && (library_file_format =? 3) && shared
            then false else negb (stored =? library_file_format)) eqn:F.
  { left. repeat split; try tauto. intros Hok. apply Hfmt in Hok. done. }
  right. assert (Hok : stored = library_file_format \/
                stored = 2 /\ library_file_format = 3 /\ shared = true)
    by (by apply Hfmt).
  assert (Hfin : forall r a',
    finish_cases size
      (match (if negb (r mod 8 =? 0)
              then fun s => Throw (InvalidDatabase BadHeader2) s
              else fun s => Ret () s) a' with
       | Ret _ s' =>
           match (if size <=? r
                  then fun s => Throw (InvalidDatabase BadHeader3) s
                  else fun s => Ret () s) s' with
           | Ret _ s'' => Ret r s''
           | Throw e s'' => Throw e s''
           | Abort => Abort
           end
       | Throw e s' => Throw e s'
       | Abort => Abort
       end) r a').
  { intros r a'. unfold finish_cases.
    destruct (r mod 8 =? 0) eqn:R1; simpl; bool_hyps; [| by left].
    destruct (size <=? r) eqn:R2; bool_hyps; right; [left | right]; done. }
  unfold finish_cases in Hfin.
  destruct (select =? 0) eqn:S0; simpl; bool_hyps.
  - destruct (read_u64 data (8 * select) =? 18446744073709551615) eqn:S1;
      simpl; bool_hyps; rewrite S0 in S1; simpl in S1.
    + destruct (size <? 40) eqn:L; simpl; bool_hyps; [left; tauto |].
      right.
      destruct (read_u64 data (size - 8) =? footer_magic_cookie) eqn:K;
        simpl; bool_hyps; [right; left | left; tauto].
      repeat split; try tauto. apply Hfin.
    + do 3 right. repeat split; try tauto. apply Hfin.
  - do 3 right. repeat split; try tauto. apply Hfin.
Qed.



(** C2.  The decision chain of [validate_buffer] on a buffer of [size]
    bytes: bad size iff [size < 24] or [size] is not a multiple of 8;
    otherwise bad magic iff bytes 16..19 are not T-DB; otherwise, with
    [select] the low bit of byte 23, bad format iff the stored format of the
    selected slot is not the library's (format 2 under library format 3 in
    shared mode is accepted); otherwise a file on streaming form ([select]
    0, slot 0 the sentinel) needs 40 bytes and the footer cookie, sets the
    streaming flag and takes the footer's top ref, any other file takes the
    selected slot; at last bad header 2 iff the ref is not a multiple of 8,
    bad header 3 iff it is not below [size], and else the ref is returned. *)
Theorem validate_buffer_decision (data : list byte) (shared : bool) (a : SlabAlloc) :
  let size := buf_size data in
  let select := Z.land (peek data 23) 1 in
  let stored := peek data (20 + select) in
  let magic_ok := peek data 16 = 84 /\ peek data 17 = 45 /\
                  peek data 18 = 68 /\ peek data 19 = 66 in
  let format_ok := stored = library_file_format \/
                   (stored = 2 /\ library_file_format = 3 /\ shared = true) in
  let streaming := select = 0 /\ read_u64 data 0 = 0xFFFFFFFFFFFFFFFF in
  let cookie_ok := read_u64 data (size - 8) = footer_magic_cookie in
  let result := validate_buffer data shared a in
  let finish (r : Z) (a' : SlabAlloc) :=
    (result = Throw (InvalidDatabase BadHeader2) a' <-> r mod 8 <> 0) /\
    (r mod 8 = 0 ->
     (result = Throw (InvalidDatabase BadHeader3) a' <-> size <= r) /\
     (r < size -> result = Ret r a')) in
  (result = Throw (InvalidDatabase BadSize) a <-> size < 24 \/ size mod 8 <> 0) /\
  (~ (size < 24 \/ size mod 8 <> 0) ->
   (result = Throw (InvalidDatabase BadMagic) a <-> ~ magic_ok) /\
   (magic_ok ->
    (result = Throw (InvalidDatabase BadFormat) a <-> ~ format_ok) /\
    (format_ok ->
     (streaming ->
      (result = Throw (InvalidDatabase StreamingBadSize) a <-> size < 40) /\
      (40 <= size ->
       (result = Throw (InvalidDatabase BadHeader1) a <-> ~ cookie_ok) /\
       (cookie_ok ->
        finish (read_u64 data (size - 16)) (with_streaming true a)))) /\
     (~ streaming -> finish (read_u64 data (8 * select)) a)))).
Proof.
  cbv zeta.
  pose proof (validate_buffer_cases data shared a) as Hc. cbv zeta in Hc.
  unfold bad_size, magic_ok, format_ok, streaming_form, cookie_ok, finish_cases,
    selected_slot in Hc.
  set (result := validate_buffer data shared a) in *.
  set (size := buf_size data) in *.
  set (select := Z.land (peek data 23) 1) in *.
  set (stored := peek data (20 + select)) in *.
  destruct Hc as [Hc|[Hc|[Hc|[Hc|[Hc|[Hc|Hc]]]]]];
    decompose [and or] Hc; clear Hc;
    repeat match goal with H : result = _ |- _ => rewrite H; clear H end;
    repeat (split || intros); try done; try tauto; try lia.
Qed.

End Properties.

(** ** Attachment *)

Lemma bind_Ret {A B} (c : M A) (k : A -> M B) a (b : B) a' :
  bind c k a = Ret b a' ->
  exists x a1, c a = Ret x a1 /\ k x a1 = Ret b a'.
Proof.
  unfold bind. destruct (c a) as [x a1| |]; [eauto | done | done].
Qed.

Lemma realm_assert_Ret c a u a' :
  realm_assert c a = Ret u a' -> c = true /\ a' = a.
Proof. destruct c; simpl; unfold ret; intros; simplify_eq; done. Qed.

Lemma throw_if_Ret c e a u a' :
  throw_if c e a = Ret u a' -> c = false /\ a' = a.
Proof. destruct c; simpl; unfold ret, throw; intros; simplify_eq; done. Qed.

Ltac monad_inv :=
  repeat (match goal with
  | H : bind _ _ _ = Ret _ _ |- _ => apply bind_Ret in H as (? & ? & ? & ?)
  | H : realm_assert _ _ = Ret _ _ |- _ => apply realm_assert_Ret in H as [? ?]
  | H : throw_if _ _ _ = Ret _ _ |- _ => apply throw_if_Ret in H as [? ?]
  | H : modify _ _ = Ret _ _ |- _ => unfold modify in H
  | H : gets _ _ = Ret _ _ |- _ => unfold gets in H
  | H : ret _ _ = Ret _ _ |- _ => unfold ret in H
  | H : throw _ _ = Ret _ _ |- _ => discriminate H
  | H : (if ?c then _ else _) _ = Ret _ _ |- _ => destruct c eqn:?
  | H : (match ?c with Some _ => _ | None => _ end) _ = Ret _ _ |- _ =>
      destruct c eqn:?
  end; simplify_eq).

Section Attach.

Context `{ext : Externals}.

Local Open Scope alloc_scope.

Lemma validate_buffer_state data shared a top a' :
  validate_buffer data shared a = Ret top a' ->
  m_free_space_state a' = m_free_space_state a /\
  m_slabs a' = m_slabs a /\ m_free_space a' = m_free_space a /\
  m_free_read_only a' = m_free_read_only a /\
  m_attach_mode a' = m_attach_mode a.
Proof.
  intros Hv.
  pose proof (validate_buffer_cases data shared a) as Hc. cbv zeta in Hc.
  rewrite Hv in Hc. unfold finish_cases in Hc.
  decompose [and or] Hc; simplify_eq; done.
Qed.

(** C9, as the code has it.  A successful [attach_file] leaves the
    free-space state Invalid; a successful [attach_buffer] or [attach_empty]
    leaves the free-space state as it found it. *)
Theorem attach_free_space_state (a : SlabAlloc) :
  (forall f res a', attach_file f a = Ret res a' ->
     m_free_space_state a' = free_space_Invalid) /\
  (forall data top_ref a', attach_buffer data a = Ret top_ref a' ->
     m_free_space_state a' = m_free_space_state a) /\
  (forall a', attach_empty a = Ret tt a' ->
     m_free_space_state a' = m_free_space_state a).
Proof.
  split; [| split].
  - intros f res a' Ha. unfold attach_file in Ha. monad_inv; done.
  - intros data top_ref a' Ha. unfold attach_buffer in Ha. monad_inv.
    match goal with H : validate_buffer _ _ _ = _ |- _ =>
      apply validate_buffer_state in H as (Hs & _) end.
    simpl. by rewrite Hs.
  - intros a' Ha. unfold attach_empty in Ha. monad_inv. done.
Qed.

(** C10.  [get_committed_file_format] yields a value exactly when [m_data]
    points at 24 bytes or more, and then it is the format byte of the
    selected slot; after [attach_empty], where [m_data] is null, it yields
    none: the call needs an allocator attached to a file or a buffer. *)
Theorem get_committed_file_format_needs_header (a : SlabAlloc) :
  (is_Some (get_committed_file_format a) <->
   exists buf, m_data a = Some buf /\ 24 <= buf_size (bytes buf)) /\
  (forall buf, m_data a = Some buf -> 24 <= buf_size (bytes buf) ->
     get_committed_file_format a =
       Some (header_file_format (bytes buf) (selected_slot (bytes buf)))) /\
  (forall a', attach_empty a = Ret tt a' ->
     m_data a' = None /\ get_committed_file_format a' = None).
Proof.
  assert (Hb : forall (data : list byte) i, 0 <= i < buf_size data ->
                 exists b, get_byte data i = Some b).
  { intros data i Hi. unfold get_byte, buf_size in *.
    destruct (i <? 0) eqn:E; [apply Z.ltb_lt in E; lia |].
    apply lookup_lt_is_Some_2. lia. }
  assert (Hsel : forall z, 0 <= Z.land z 1 <= 1).
  { intros z. change (Z.land z 1) with (Z.land z (Z.ones 1)).
    rewrite Z.land_ones by lia.
    change (2 ^ 1) with 2. pose proof (Z.mod_pos_bound z 2). lia. }
  assert (Hdef : forall buf, m_data a = Some buf -> 24 <= buf_size (bytes buf) ->
     get_committed_file_format a =
       Some (header_file_format (bytes buf) (selected_slot (bytes buf)))).
  { intros buf Hd Hlen. unfold get_committed_file_format. rewrite Hd. simpl.
    destruct (Hb (bytes buf) 23 ltac:(lia)) as [fl Hfl]. rewrite Hfl. simpl.
    unfold header_file_format, selected_slot, peek, flags_SelectBit.
    rewrite Hfl. simpl.
    pose proof (Hsel (byte_val fl)).
    destruct (Hb (bytes buf) (20 + Z.land (byte_val fl) 1) ltac:(lia))
      as [fm Hfm].
    rewrite Hfm. done. }
  split; [| split; [done |]].
  - split.
    + intros [v Hv]. unfold get_committed_file_format in Hv.
      destruct (m_data a) as [buf|] eqn:Hd; [| done]. simpl in Hv.
      exists buf. split; [done |].
      destruct (get_byte (bytes buf) 23) as [fl|] eqn:Hfl; [| done].
      unfold get_byte in Hfl. simpl in Hfl.
      apply lookup_lt_Some in Hfl. unfold buf_size. lia.
    + intros (buf & Hd & Hlen). rewrite (Hdef buf Hd Hlen). eauto.
  - intros a' Ha. unfold attach_empty in Ha. monad_inv. done.
Qed.

End Attach.

(** ** Bytes and words in a buffer *)

Lemma byte_val_range (b : byte) : 0 <= byte_val b < 256.
Proof.
  unfold byte_val. pose proof (Byte.to_N_bounded b). lia.
Qed.


Lemma byte_val_of (z : Z) : byte_val (byte_of z) = z mod 256.
Proof.
  unfold byte_of, byte_val.
  pose proof (Z.mod_pos_bound z 256 ltac:(lia)) as Hr.
  destruct (Byte.of_N (Z.to_N (z mod 256))) as [b|] eqn:E; simpl.
  - apply Byte.to_of_N in E. rewrite E. lia.
  - apply Byte.of_N_None_iff in E. lia.
Qed.

Lemma le_value_range (bs : list byte) :
  0 <= le_value bs < 256 ^ Z.of_nat (length bs).
Proof.
  induction bs as [|b bs IH]; simpl length; [simpl; lia |].
  rewrite Nat2Z.inj_succ, Z.pow_succ_r by lia. simpl le_value.
  pose proof (byte_val_range b). lia.
Qed.


Lemma length_le_bytes n v : length (le_bytes n v) = n.
Proof. revert v. induction n; intros; simpl; [done | by rewrite IHn]. Qed.

Lemma length_splice off bs (data : list byte) :
  length (splice off bs data) = length data.
Proof.
  unfold splice. rewrite length_take, !length_app, length_take, length_drop.
  lia.
Qed.

Lemma splice_lookup off bs (data : list byte) (i : nat) :
  (off + length bs <= length data)%nat ->
  splice off bs data !! i =
    if decide (off <= i < off + length bs)%nat then bs !! (i - off)%nat
    else data !! i.
Proof.
  intros Hfit. unfold splice.
  destruct (decide (i < length data)%nat) as [Hi|Hi].
  - rewrite lookup_take_lt by done.
    destruct (decide (i < off)%nat) as [Hlt|Hge].
    + rewrite lookup_app_l by (rewrite length_take; lia).
      rewrite lookup_take_lt by done.
      case_decide; [lia | done].
    + rewrite lookup_app_r by (rewrite length_take; lia).
      rewrite length_take. replace (off `min` length data)%nat with off by lia.
      destruct (decide (i < off + length bs)%nat) as [Hin|Hout].
      * rewrite lookup_app_l by lia. case_decide; [done | lia].
      * rewrite lookup_app_r by lia. rewrite lookup_drop.
        case_decide; [lia |]. f_equal. lia.
  - rewrite lookup_take_ge by lia.
    case_decide.
    + lia.
    + symmetry. apply lookup_ge_None. lia.
Qed.

Lemma buf_size_splice off bs data :
  buf_size (splice off bs data) = buf_size data.
Proof. unfold buf_size. by rewrite length_splice. Qed.

Lemma peek_ext (d1 d2 : list byte) (i : Z) :
  d1 !! Z.to_nat i = d2 !! Z.to_nat i -> peek d1 i = peek d2 i.
Proof. intros He. unfold peek, get_byte. by rewrite He. Qed.

Lemma read_u64_ext (d1 d2 : list byte) (off : Z) :
  (forall k, (k < 8)%nat -> d1 !! (Z.to_nat off + k)%nat = d2 !! (Z.to_nat off + k)%nat) ->
  read_u64 d1 off = read_u64 d2 off.
Proof.
  intros He. unfold read_u64. f_equal.
  apply list_eq. intros k.
  destruct (decide (k < 8)%nat) as [Hk|Hk].
  - rewrite !lookup_take_lt, !lookup_drop by done. by apply He.
  - rewrite !lookup_take_ge by lia. done.
Qed.

Lemma read_u64_splice_same off (bs data : list byte) :
  length bs = 8%nat -> (off + 8 <= length data)%nat ->
  read_u64 (splice off bs data) (Z.of_nat off) = le_value bs.
Proof.
  intros Hl Hfit. unfold read_u64. f_equal. rewrite Nat2Z.id.
  apply list_eq. intros k.
  destruct (decide (k < 8)%nat) as [Hk|Hk].
  - rewrite lookup_take_lt, lookup_drop by done.
    rewrite splice_lookup by lia. case_decide; [| lia]. f_equal. lia.
  - rewrite lookup_take_ge by lia. symmetry. apply lookup_ge_None. lia.
Qed.

Lemma read_u64_range (data : list byte) off :
  0 <= read_u64 data off < word_max.
Proof.
  unfold read_u64.
  pose proof (le_value_range (take 8 (drop (Z.to_nat off) data))) as Hr.
  assert (length (take 8 (drop (Z.to_nat off) data)) <= 8)%nat
    by (rewrite length_take; lia).
  assert (256 ^ Z.of_nat (length (take 8 (drop (Z.to_nat off) data))) <= 256 ^ 8)
    by (apply Z.pow_le_mono_r; lia).
  change word_max with (256 ^ 8). lia.
Qed.

(** ** Conversion of a streaming file *)

Section Streaming.

Context `{ext : Externals}.

Local Open Scope alloc_scope.









End Streaming.

(** ** Searching and erasing in a vector *)

Section Vectors.

Context {A : Type}.
Implicit Types (p : A -> bool) (l : list A).

Lemma find_if_Some p l i :
  find_if p l = Some i ->
  exists x, l !! i = Some x /\ p x = true /\
            forall j y, (j < i)%nat -> l !! j = Some y -> p y = false.
Proof.
  revert i. induction l as [|x l IH]; intros i Hf; simpl in Hf; [done |].
  destruct (p x) eqn:Hp.
  - simplify_eq. exists x. split; [done |]. split; [done |]. intros; lia.
  - destruct (find_if p l) as [k|] eqn:Hk; simplify_eq/=.
    destruct (IH k eq_refl) as (y & Hy & Hpy & Hmin).
    exists y. split; [done |]. split; [done |].
    intros [|j] z Hj Hz; simplify_eq/=; [done |].
    apply (Hmin j); [lia | done].
Qed.

Lemma find_if_None p l :
  find_if p l = None -> forall x, x ∈ l -> p x = false.
Proof.
  induction l as [|x l IH]; intros Hf y Hy; simpl in Hf.
  - by apply elem_of_nil in Hy.
  - destruct (p x) eqn:Hp; [done |].
    destruct (find_if p l) eqn:Hk; [done |].
    apply elem_of_cons in Hy as [->|Hy]; [done | by apply IH].
Qed.

Lemma find_if_is_Some p l x :
  x ∈ l -> p x = true -> is_Some (find_if p l).
Proof.
  intros Hx Hp. destruct (find_if p l) eqn:Hf; [eauto |].
  rewrite (find_if_None p l Hf x Hx) in Hp. done.
Qed.

Lemma rfind_if_Some p l i :
  rfind_if p l = Some i ->
  exists x, l !! i = Some x /\ p x = true /\
            forall j y, (i < j)%nat -> l !! j = Some y -> p y = false.
Proof.
  revert i. induction l as [|x l IH]; intros i Hf; simpl in Hf; [done |].
  destruct (rfind_if p l) as [k|] eqn:Hk.
  - simplify_eq. destruct (IH k eq_refl) as (y & Hy & Hpy & Hmax).
    exists y. split; [done |]. split; [done |].
    intros [|j] z Hj Hz; [lia |]. simpl in Hz. apply (Hmax j); [lia | done].
  - destruct (p x) eqn:Hp; simplify_eq.
    exists x. split; [done |]. split; [done |].
    intros [|j] z Hj Hz; [lia |]. simpl in Hz.
    clear IH. revert j z Hj Hz Hk. clear. revert l.
    induction l as [|y l IH]; intros j z Hj Hz Hk; [done |].
    simpl in Hk. destruct (rfind_if p l) eqn:Hr; [done |].
    destruct (p y) eqn:Hy; [done |].
    destruct j as [|j]; simplify_eq/=; [done |].
    apply (IH j z); [lia | done | done].
Qed.

Lemma rfind_if_None p l :
  rfind_if p l = None -> forall x, x ∈ l -> p x = false.
Proof.
  induction l as [|x l IH]; intros Hf y Hy; simpl in Hf.
  - by apply elem_of_nil in Hy.
  - destruct (rfind_if p l) eqn:Hk; [done |].
    destruct (p x) eqn:Hp; [done |].
    apply elem_of_cons in Hy as [->|Hy]; [done | by apply IH].
Qed.

Lemma rfind_if_is_Some p l x :
  x ∈ l -> p x = true -> is_Some (rfind_if p l).
Proof.
  intros Hx Hp. destruct (rfind_if p l) eqn:Hf; [eauto |].
  rewrite (rfind_if_None p l Hf x Hx) in Hp. done.
Qed.

Lemma erase_move_last_Forall (P : A -> Prop) i l :
  Forall P l -> Forall P (erase_move_last i l).
Proof.
  intros Hl. unfold erase_move_last.
  destruct (last l) as [b|] eqn:Hb; [| done].
  apply Forall_take. apply Forall_insert; [done |].
  apply last_Some in Hb as [l' ->].
  apply Forall_app in Hl as [_ Hb]. by inversion Hb.
Qed.

Lemma length_erase_move_last i l :
  l <> [] -> length (erase_move_last i l) = pred (length l).
Proof.
  intros Hne. unfold erase_move_last.
  destruct (last l) as [b|] eqn:Hb.
  - rewrite length_take, length_insert. lia.
  - apply last_None in Hb. done.
Qed.

(** Erasing position [i] by moving the last element over it leaves the
    other elements, in some order. *)
Lemma erase_move_last_Permutation i l x :
  l !! i = Some x -> x :: erase_move_last i l ≡ₚ l.
Proof.
  intros Hi. unfold erase_move_last.
  destruct (last l) as [b|] eqn:Hb; [| apply last_None in Hb; by subst].
  apply last_Some in Hb as [l' ->].
  rewrite length_app. simpl.
  replace (pred (length l' + 1)) with (length l') by lia.
  destruct (decide (i < length l')%nat) as [Hlt|Hge].
  - rewrite lookup_app_l in Hi by done.
    rewrite insert_app_l by done.
    rewrite take_app_length' by (by rewrite length_insert).
    rewrite insert_take_drop by done.
    rewrite <- (take_drop_middle l' i x Hi) at 3.
    rewrite <- !app_assoc. simpl.
    rewrite <- (Permutation_middle (take i l') _ x).
    f_equiv. f_equiv. apply Permutation_cons_append.
  - assert (i = length l') as ->.
    { apply lookup_lt_Some in Hi. rewrite length_app in Hi. simpl in Hi. lia. }
    rewrite list_lookup_middle in Hi by done. simplify_eq.
    rewrite insert_app_r_alt by lia. rewrite Nat.sub_diag. simpl.
    rewrite take_app_length. apply Permutation_cons_append.
Qed.

End Vectors.

(** ** The slab list *)

Lemma slab_ref_of_cons lo x l i :
  slab_ref_of lo (x :: l) (S i) = slab_ref_of (ref_end x) l i.
Proof. by destruct i. Qed.

Lemma slabs_sorted_lookup lo l i s :
  slabs_sorted lo l -> l !! i = Some s ->
  lo <= slab_ref_of lo l i /\ slab_ref_of lo l i < ref_end s.
Proof.
  revert lo i. induction l as [|x l IH]; intros lo i Hs Hi; [done |].
  destruct Hs as [Hx Hs]. destruct i as [|i].
  - simplify_eq/=. lia.
  - rewrite slab_ref_of_cons. simpl in Hi.
    destruct (IH _ _ Hs Hi). lia.
Qed.

Lemma slabs_sorted_mono lo l i j s :
  slabs_sorted lo l -> (i < j)%nat -> l !! i = Some s ->
  (j <= length l)%nat -> ref_end s <= slab_ref_of lo l j.
Proof.
  revert lo i j. induction l as [|x l IH]; intros lo i j Hs Hij Hi Hj; [done |].
  destruct Hs as [Hx Hs]. destruct j as [|j]; [lia |].
  rewrite slab_ref_of_cons. simpl in Hj.
  destruct i as [|i].
  - simplify_eq/=. destruct j as [|j]; [simpl; lia |].
    destruct (l !! j) as [t|] eqn:Ht.
    + destruct (slabs_sorted_lookup _ _ j _ Hs Ht).
      simpl. rewrite Ht. simpl. lia.
    + apply lookup_ge_None in Ht. lia.
  - simpl in Hi. apply (IH _ i j); [done | lia | done | lia].
Qed.

Lemma slabs_sorted_ends lo l i j s t :
  slabs_sorted lo l -> (i < j)%nat -> l !! i = Some s -> l !! j = Some t ->
  ref_end s < ref_end t.
Proof.
  intros Hs Hij Hi Hj.
  pose proof (slabs_sorted_mono lo l i j s Hs Hij Hi) as H1.
  pose proof (slabs_sorted_lookup lo l j t Hs Hj) as H2.
  apply lookup_lt_Some in Hj. lia.
Qed.

(** Two slabs whose ranges share a point are the same slab. *)
Lemma slab_ranges_disjoint lo l i j s t x :
  slabs_sorted lo l -> l !! i = Some s -> l !! j = Some t ->
  slab_ref_of lo l i <= x < ref_end s ->
  slab_ref_of lo l j <= x < ref_end t ->
  i = j.
Proof.
  intros Hs Hi Hj Hxi Hxj.
  destruct (Nat.lt_trichotomy i j) as [Hlt|[->|Hlt]]; [| done |].
  - pose proof (slabs_sorted_mono lo l i j s Hs Hlt Hi) as H1.
    apply lookup_lt_Some in Hj. lia.
  - pose proof (slabs_sorted_mono lo l j i t Hs Hlt Hj) as H1.
    apply lookup_lt_Some in Hi. lia.
Qed.

Lemma slabs_sorted_app lo l s :
  slabs_sorted lo (l ++ [s]) <->
  slabs_sorted lo l /\ slab_ref_of lo l (length l) < ref_end s.
Proof.
  revert lo. induction l as [|x l IH]; intros lo.
  - simpl. tauto.
  - simpl length. rewrite slab_ref_of_cons. simpl. rewrite IH. tauto.
Qed.

Lemma get_total_size_slab_ref a :
  get_total_size a = slab_ref a (length (m_slabs a)).
Proof.
  unfold get_total_size, slab_ref.
  destruct (m_slabs a) as [|x l] using rev_ind; [done |].
  rewrite last_snoc, length_app. simpl.
  replace (length l + 1)%nat with (S (length l)) by lia. simpl.
  by rewrite list_lookup_middle.
Qed.

Lemma slabs_sorted_total a i s :
  slabs_sorted (m_baseline a) (m_slabs a) -> m_slabs a !! i = Some s ->
  ref_end s <= get_total_size a.
Proof.
  intros Hs Hi. rewrite get_total_size_slab_ref.
  pose proof (lookup_lt_Some _ _ _ Hi) as Hlt.
  destruct (decide (S i = length (m_slabs a))) as [He|Hne].
  - rewrite <- He. unfold slab_ref. simpl. rewrite Hi. done.
  - apply (slabs_sorted_mono _ _ i); [done | lia | done | lia].
Qed.

Lemma baseline_le_total a :
  slabs_sorted (m_baseline a) (m_slabs a) -> m_baseline a <= get_total_size a.
Proof.
  intros Hs. unfold get_total_size.
  destruct (last (m_slabs a)) as [s|] eqn:Hl; [| done].
  rewrite last_lookup in Hl.
  destruct (slabs_sorted_lookup _ _ _ _ Hs Hl). lia.
Qed.

(** ** Binary search *)

(** On sorted slabs [upper_bound] finds the first slab whose [ref_end] lies
    above the ref. *)
Lemma upper_bound_loop_spec lo l r fuel first len :
  slabs_sorted lo l ->
  (len <= fuel)%nat -> (first + len <= length l)%nat ->
  (forall j s, (j < first)%nat -> l !! j = Some s -> ref_end s <= r) ->
  (forall j s, (first + len <= j)%nat -> l !! j = Some s -> r < ref_end s) ->
  let i := upper_bound_loop fuel l r first len in
  (i <= length l)%nat /\
  (forall j s, (j < i)%nat -> l !! j = Some s -> ref_end s <= r) /\
  (forall j s, (i <= j)%nat -> l !! j = Some s -> r < ref_end s).
Proof.
  intros Hs. revert first len.
  induction fuel as [|fuel IH]; intros first len Hfuel Hlen Hlow Hhigh.
  - simpl. assert (len = 0)%nat as -> by lia.
    split; [lia |]. split; [done |]. intros j s Hj. apply Hhigh. lia.
  - simpl. destruct (len =? 0)%nat eqn:Hl0.
    + apply Nat.eqb_eq in Hl0 as ->.
      split; [lia |]. split; [done |]. intros j s Hj. apply Hhigh. lia.
    + apply Nat.eqb_neq in Hl0.
      assert (Hhalf : (Nat.div2 len < len)%nat) by (apply Nat.lt_div2; lia).
      set (half := Nat.div2 len) in *. clearbody half.
      destruct (l !! (first + half)%nat) as [m|] eqn:Hm.
      * unfold ref_less_than_slab_ref_end.
        destruct (r <? ref_end m) eqn:Hcmp.
        -- apply Z.ltb_lt in Hcmp. apply IH; [lia | lia | done |].
           intros j s Hj Hjs.
           destruct (decide (j = first + half)%nat) as [->|Hne].
           ++ by simplify_eq.
           ++ pose proof (slabs_sorted_ends lo l (first + half) j m s
                            Hs ltac:(lia) Hm Hjs). lia.
        -- apply Z.ltb_ge in Hcmp. apply IH; [lia | lia | | ].
           ++ intros j s Hj Hjs.
              destruct (decide (j = first + half)%nat) as [->|Hne].
              ** by simplify_eq.
              ** pose proof (slabs_sorted_ends lo l j (first + half) s m
                               Hs ltac:(lia) Hjs Hm). lia.
           ++ intros j s Hj. apply Hhigh. lia.
      * apply lookup_ge_None in Hm. lia.
Qed.

Lemma upper_bound_spec lo l r :
  slabs_sorted lo l ->
  let i := upper_bound l r in
  (i <= length l)%nat /\
  (forall j s, (j < i)%nat -> l !! j = Some s -> ref_end s <= r) /\
  (forall j s, (i <= j)%nat -> l !! j = Some s -> r < ref_end s).
Proof.
  intros Hs. unfold upper_bound.
  apply (upper_bound_loop_spec lo); [done | lia | simpl; lia | |].
  - intros j s Hj. lia.
  - intros j s Hj Hjs. apply lookup_lt_Some in Hjs. simpl in Hj. lia.
Qed.

(** The slab that holds [r] is the one the search returns. *)
Lemma upper_bound_in_slab lo l r i s :
  slabs_sorted lo l -> l !! i = Some s ->
  slab_ref_of lo l i <= r < ref_end s ->
  upper_bound l r = i.
Proof.
  intros Hs Hi Hr.
  destruct (upper_bound_spec lo l r Hs) as (Hle & Hlow & Hhigh).
  set (k := upper_bound l r) in *.
  destruct (Nat.lt_trichotomy k i) as [Hlt|[->|Hlt]]; [| done |].
  - destruct (lookup_lt_is_Some_2 l k) as [t Ht].
    { apply lookup_lt_Some in Hi. lia. }
    pose proof (Hhigh k t ltac:(lia) Ht).
    pose proof (slabs_sorted_mono lo l k i t Hs Hlt Ht) as H1.
    apply lookup_lt_Some in Hi. lia.
  - pose proof (Hlow i s Hlt Hi). lia.
Qed.

(** ** Coalescing *)

Lemma wrap_small x : 0 <= x < word_max -> wrap x = x.
Proof. intros Hx. unfold wrap. by apply Z.mod_small. Qed.

Lemma wrap_range x : 0 <= wrap x < word_max.
Proof. unfold wrap, word_max. apply Z.mod_pos_bound. lia. Qed.

(** [coalesce] keeps every chunk inside its region, for any notion [ok] of
    "the block of [n] bytes at [x] lies in one region" that is closed under
    joining two adjacent blocks which do not meet at the end of a slab. *)
Section Coalesce.

Variables (slabs : list Slab) (ok : Z -> Z -> Prop).

Hypothesis ok_bounds : forall x n, ok x n -> 0 <= x /\ 0 < n /\ x + n < word_max.
Hypothesis ok_join : forall x n m,
  ok x n -> ok (x + n) m -> find_if (SlabRefEndEq (x + n)) slabs = None ->
  ok x (n + m).

Lemma coalesce_ok r sz fs :
  ok r sz -> Forall (chunk_in ok) fs ->
  Forall (chunk_in ok) (coalesce slabs r sz fs).1 /\
  ((coalesce slabs r sz fs).2 = true -> (coalesce slabs r sz fs).1 = fs).
Proof.
  intros Hblock Hfs. unfold coalesce.
  destruct (ok_bounds _ _ Hblock) as (Hr0 & Hsz0 & Hrsz).
  rewrite (wrap_small (r + sz)) by lia.
  (* the successor *)
  set (succ := match find_if (ChunkRefEq (r + sz)) fs with
               | Some i =>
                   match find_if (SlabRefEndEq (r + sz)) slabs, fs !! i with
                   | None, Some c =>
                       (<[i := mkChunk r (wrap (size c + sz))]> fs, Some i)
                   | _, _ => (fs, None)
                   end
               | None => (fs, None)
               end).
  assert (Hsucc : Forall (chunk_in ok) succ.1 /\
                  match succ.2 with
                  | Some m => exists n, succ.1 !! m = Some (mkChunk r n) /\ ok r n
                  | None => succ.1 = fs
                  end).
  { unfold succ.
    destruct (find_if (ChunkRefEq (r + sz)) fs) as [i|] eqn:Hfi; [| done].
    destruct (find_if_Some _ _ _ Hfi) as (c & Hc & Hrc & _).
    unfold ChunkRefEq in Hrc. apply Z.eqb_eq in Hrc.
    destruct (find_if (SlabRefEndEq (r + sz)) slabs) eqn:Hsl; [done |].
    rewrite Hc. simpl.
    assert (Hokc : chunk_in ok c) by (eapply Forall_lookup_1; eauto).
    unfold chunk_in in Hokc. rewrite Hrc in Hokc.
    pose proof (ok_join _ _ _ Hblock Hokc Hsl) as Hj.
    destruct (ok_bounds _ _ Hj) as (_ & _ & Hb).
    destruct (ok_bounds _ _ Hokc) as (_ & Hc0 & _).
    rewrite wrap_small by lia.
    rewrite (Z.add_comm (size c) sz).
    split.
    - apply Forall_insert; [done |]. done.
    - exists (sz + size c). split; [| done].
      apply list_lookup_insert_eq. by eapply lookup_lt_Some. }
  clearbody succ. destruct succ as [fs1 merged_with]. simpl in Hsucc.
  destruct Hsucc as [Hfs1 Hm].
  (* the predecessor *)
  set (pred := match find_if (SlabRefEndEq r) slabs with
               | None => find_if (ChunkRefEndEq r) fs1
               | Some _ => None
               end).
  assert (Hpred : match pred with
                  | Some k => exists p, fs1 !! k = Some p /\
                                ref p + size p = r /\ chunk_in ok p /\
                                find_if (SlabRefEndEq r) slabs = None
                  | None => True
                  end).
  { unfold pred. destruct (find_if (SlabRefEndEq r) slabs) eqn:Hsl; [done |].
    destruct (find_if (ChunkRefEndEq r) fs1) as [k|] eqn:Hfk; [| done].
    destruct (find_if_Some _ _ _ Hfk) as (p & Hp & Hrp & _).
    exists p. assert (Hokp : chunk_in ok p) by (eapply Forall_lookup_1; eauto).
    destruct (ok_bounds _ _ Hokp) as (? & ? & ?).
    unfold ChunkRefEndEq in Hrp. apply Z.eqb_eq in Hrp.
    rewrite wrap_small in Hrp by lia. done. }
  clearbody pred. destruct pred as [k|].
  - destruct Hpred as (p & Hp & Hend & Hokp & Hsl).
    destruct merged_with as [m|]; simpl.
    + destruct Hm as (n & Hmn & Hokn). rewrite Hmn. simpl.
      split; [| done]. apply erase_move_last_Forall.
      apply Forall_alter; [done |]. intros p' Hp' _. rewrite Hp in Hp'. injection Hp' as <-.
      unfold chunk_in, add_size. simpl. rewrite <- Hend in Hokn, Hsl.
      pose proof (ok_join _ _ _ Hokp Hokn Hsl) as Hj.
      destruct (ok_bounds _ _ Hj) as (? & ? & ?).
      destruct (ok_bounds _ _ Hokp) as (? & ? & ?).
      rewrite wrap_small by lia. done.
    + split; [| done]. subst fs1.
      apply Forall_alter; [done |]. intros p' Hp' _. rewrite Hp in Hp'. injection Hp' as <-.
      unfold chunk_in, add_size. simpl. rewrite <- Hend in Hblock, Hsl.
      pose proof (ok_join _ _ _ Hokp Hblock Hsl) as Hj.
      destruct (ok_bounds _ _ Hj) as (? & ? & ?).
      destruct (ok_bounds _ _ Hokp) as (? & ? & ?).
      rewrite wrap_small by lia. done.
  - destruct merged_with as [m|]; simpl; [done |]. by subst fs1.
Qed.

End Coalesce.

(** ** The invariant *)

Section Invariant.

Context `{ext : Externals}.

Implicit Types (a : SlabAlloc) (c : Chunk).

Lemma in_slab_bounds a lo hi :
  slabs_sorted (m_baseline a) (m_slabs a) -> in_slab a lo hi ->
  m_baseline a <= lo /\ hi <= get_total_size a.
Proof.
  intros Hs (i & s & Hi & Hlo & Hhi).
  destruct (slabs_sorted_lookup _ _ _ _ Hs Hi) as [H1 H2].
  pose proof (slabs_sorted_total a i s Hs Hi). unfold slab_ref in Hlo. lia.
Qed.

Lemma no_slab_end r (slabs : list Slab) i s :
  find_if (SlabRefEndEq r) slabs = None -> slabs !! i = Some s ->
  ref_end s <> r.
Proof.
  intros Hf Hi. apply list_elem_of_lookup_2 in Hi.
  pose proof (find_if_None _ _ Hf s Hi) as Hn.
  unfold SlabRefEndEq in Hn. by apply Z.eqb_neq in Hn.
Qed.

Lemma mutable_ok_bounds a x n :
  alloc_inv a -> 0 < n /\ in_slab a x (x + n) ->
  0 <= x /\ 0 < n /\ x + n < word_max.
Proof.
  intros [Hb Hs Ht _ _ _] [Hn Hin].
  destruct (in_slab_bounds a _ _ Hs Hin). lia.
Qed.

Lemma mutable_ok_join a x n m :
  alloc_inv a ->
  0 < n /\ in_slab a x (x + n) ->
  0 < m /\ in_slab a (x + n) (x + n + m) ->
  find_if (SlabRefEndEq (x + n)) (m_slabs a) = None ->
  0 < n + m /\ in_slab a x (x + (n + m)).
Proof.
  intros [Hb Hs Ht _ _ _] [Hn (i & s & Hi & Hlo & Hhi)]
    [Hm (j & t & Hj & Hlo' & Hhi')] Hno.
  split; [lia |].
  pose proof (no_slab_end _ _ _ _ Hno Hi).
  assert (i = j) as ->.
  { unfold slab_ref in *.
    apply (slab_ranges_disjoint _ _ i j s t (x + n) Hs Hi Hj); lia. }
  rewrite Hi in Hj. injection Hj as <-.
  exists j, s. split; [done |]. split; [done | lia].
Qed.

(** *** [do_free] *)

Lemma block_ok_read_only a r sz :
  alloc_inv a -> block_ok a r sz ->
  if is_read_only a r
  then 0 <= r /\ 0 < sz /\ r + sz <= m_baseline a
  else 0 < sz /\ in_slab a r (r + sz).
Proof.
  intros Hinv [Hsz Hb]. unfold is_read_only.
  destruct (r <? m_baseline a) eqn:Hro.
  - apply Z.ltb_lt in Hro. destruct Hb as [Hb|Hin]; [lia |].
    destruct (in_slab_bounds a _ _ (inv_sorted a Hinv) Hin). lia.
  - apply Z.ltb_ge in Hro. destruct Hb as [Hb|Hin]; [lia | done].
Qed.

Lemma do_free_inv push_ok r p a a' :
  alloc_inv a -> block_ok a r (freed_size r a) ->
  do_free push_ok r p a = Some a' -> alloc_inv a'.
Proof.
  intros Hinv Hblock Hfree. unfold do_free in Hfree.
  destruct (negb (bool_decide (translate r a = Some p))); [done |].
  destruct (bool_decide (m_free_space_state a = free_space_Invalid));
    [by simplify_eq |].
  destruct (negb (is_read_only a r ||
                  bool_decide (m_free_space_state a = free_space_Dirty)));
    [done |].
  pose proof (block_ok_read_only a r _ Hinv Hblock) as Hb.
  set (sz := freed_size r a) in *. clearbody sz.
  destruct Hinv as [Hbase Hs Ht Hfm Hfr Hcl].
  assert (Hinv : alloc_inv a) by done.
  destruct (is_read_only a r) eqn:Hro.
  - (* the read-only list *)
    simpl in Hfree.
    destruct (coalesce_ok (m_slabs a)
                (fun x n => 0 <= x /\ 0 < n /\ x + n <= m_baseline a)) with
      (r := r) (sz := sz) (fs := m_free_read_only a) as [Hok Hsame].
    { intros x n (? & ? & ?). pose proof (baseline_le_total a Hs). lia. }
    { intros x n m (? & ? & ?) (? & ? & ?) _. lia. }
    { done. }
    { done. }
    destruct (coalesce (m_slabs a) r sz (m_free_read_only a))
      as [fs append] eqn:Hco. simpl in Hok, Hsame.
    assert (Hfr' : Forall (read_only_chunk_ok a) (fs ++ [mkChunk r sz])).
    { apply Forall_app. split; [done |]. by apply Forall_singleton. }
    destruct append; [destruct push_ok |]; simplify_eq;
      by constructor.
  - (* the mutable list *)
    simpl in Hfree.
    destruct (coalesce_ok (m_slabs a)
                (fun x n => 0 < n /\ in_slab a x (x + n))) with
      (r := r) (sz := sz) (fs := m_free_space a) as [Hok Hsame].
    { intros x n. by apply mutable_ok_bounds. }
    { intros x n m H1 H2 H3. by apply (mutable_ok_join a x n m). }
    { done. }
    { done. }
    destruct (coalesce (m_slabs a) r sz (m_free_space a))
      as [fs append] eqn:Hco. simpl in Hok, Hsame.
    assert (Hfm' : Forall (mutable_chunk_ok a) (fs ++ [mkChunk r sz])).
    { apply Forall_app. split; [done |]. by apply Forall_singleton. }
    destruct append; [destruct push_ok |]; simplify_eq;
      by constructor.
Qed.

(** *** [do_alloc] *)

Lemma lor_255 x : Z.lor x 255 = x + 255 - x mod 256.
Proof.
  pose proof (Z.add_lor_land x 255) as H.
  change 255 with (Z.ones 8) in H at 2.
  rewrite Z.land_ones in H by lia. change (2 ^ 8) with 256 in H. lia.
Qed.

Lemma round_up_256_spec sz :
  0 < sz -> sz + 255 < word_max ->
  round_up_256 sz = 256 * ((sz + 255) / 256).
Proof.
  intros H0 Hmax. unfold round_up_256. unfold word_max in *.
  rewrite (wrap_small (sz - 1)) by (unfold word_max; lia).
  rewrite lor_255. rewrite wrap_small.
  - Z.div_mod_to_equations. lia.
  - unfold word_max. Z.div_mod_to_equations. lia.
Qed.

Lemma round_up_256_bounds sz :
  sz <= 256 * ((sz + 255) / 256) <= sz + 255.
Proof. Z.div_mod_to_equations. lia. Qed.

Lemma last_slab_size_pos a :
  alloc_inv a -> m_slabs a <> [] -> 0 < last_slab_size a.
Proof.
  intros Hinv Hne. unfold last_slab_size.
  destruct (length (m_slabs a)) as [|n] eqn:Hlen.
  - by apply length_zero_iff_nil in Hlen.
  - destruct (lookup_lt_is_Some_2 (m_slabs a) n) as [s Hs]; [lia |].
    destruct (slabs_sorted_lookup _ _ _ _ (inv_sorted a Hinv) Hs) as [H1 H2].
    rewrite get_total_size_slab_ref, Hlen. unfold slab_ref at 1. simpl.
    rewrite Hs. simpl. unfold slab_ref. lia.
Qed.

Lemma last_slab_size_nonneg a : alloc_inv a -> 0 <= last_slab_size a.
Proof.
  intros Hinv. destruct (m_slabs a) eqn:Hl.
  - unfold last_slab_size. by rewrite Hl.
  - pose proof (last_slab_size_pos a Hinv). rewrite Hl in *.
    assert (0 < last_slab_size a) by auto. lia.
Qed.

(** The slab [do_alloc] grows starts where the refs end so far, and is as
    large as the request rounded up to 256 or twice the last slab. *)
Lemma new_slab_ref_size_spec a sz :
  alloc_inv a -> 0 < sz -> alloc_fits a sz ->
  new_slab_ref_size sz a =
    (get_total_size a,
     Z.max (256 * ((sz + 255) / 256)) (2 * last_slab_size a)).
Proof.
  intros Hinv Hsz Hfit. unfold alloc_fits in Hfit.
  pose proof (last_slab_size_nonneg a Hinv) as Hl0.
  pose proof (baseline_le_total a (inv_sorted a Hinv)) as Hbt.
  pose proof (inv_baseline a Hinv) as Hb0.
  unfold new_slab_ref_size. rewrite round_up_256_spec by lia.
  pose proof (round_up_256_bounds sz) as Hr.
  destruct (last (m_slabs a)) as [back|] eqn:Hlast.
  - assert (Hne : m_slabs a <> []) by (intros E; by rewrite E in Hlast).
    pose proof (last_slab_size_pos a Hinv Hne) as Hpos.
    assert (Htot : get_total_size a = ref_end back)
      by (unfold get_total_size; by rewrite Hlast).
    unfold last_slab_size in *. rewrite Htot in *.
    destruct (length (m_slabs a)) as [|n] eqn:Hlen;
      [by apply length_zero_iff_nil in Hlen |].
    assert (Hprev : (if (S n =? 1)%nat then m_baseline a
                     else from_option ref_end 0 (m_slabs a !! (S n - 2)%nat))
                    = slab_ref a n).
    { unfold slab_ref. destruct n as [|n]; [done |]. simpl.
      by rewrite Nat.sub_0_r. }
    rewrite Hprev. f_equal.
    rewrite (wrap_small (ref_end back - slab_ref a n)) by lia.
    rewrite wrap_small by lia.
    destruct (_ <? _) eqn:Hcmp; [apply Z.ltb_lt in Hcmp | apply Z.ltb_ge in Hcmp];
      lia.
  - assert (Htot : get_total_size a = m_baseline a)
      by (unfold get_total_size; by rewrite Hlast).
    rewrite Htot. f_equal.
    apply last_None in Hlast. unfold last_slab_size. rewrite Hlast. simpl. lia.
Qed.

Lemma slab_ref_of_app lo l s i :
  (i <= length l)%nat -> slab_ref_of lo (l ++ [s]) i = slab_ref_of lo l i.
Proof.
  intros Hi. destruct i as [|i]; [done |]. simpl.
  by rewrite lookup_app_l by lia.
Qed.

Lemma in_slab_app a s lo hi :
  in_slab a lo hi -> in_slab (with_slabs (m_slabs a ++ [s]) a) lo hi.
Proof.
  intros (i & t & Hi & Hlo & Hhi). exists i, t.
  pose proof (lookup_lt_Some _ _ _ Hi).
  unfold slab_ref in *. simpl.
  rewrite lookup_app_l, slab_ref_of_app by lia. done.
Qed.

Lemma alloc_inv_dirty a :
  alloc_inv a -> alloc_inv (with_free_space_state free_space_Dirty a).
Proof. intros [? ? ? ? ? ?]. by constructor. Qed.

Lemma do_alloc_inv env sz a :
  alloc_inv a -> alloc_pre a sz ->
  holds_after alloc_inv (do_alloc env sz a).
Proof.
  intros Hinv (Hsz & _ & _ & Hfit). unfold do_alloc.
  case_bool_decide as Hst; [done |].
  pose proof (new_slab_ref_size_spec a sz Hinv Hsz Hfit) as Hnew.
  pose proof (alloc_inv_dirty a Hinv) as Hinv1.
  assert (Hnew1 : new_slab_ref_size sz (with_free_space_state free_space_Dirty a)
                  = new_slab_ref_size sz a) by done.
  assert (Htot1 : get_total_size (with_free_space_state free_space_Dirty a)
                  = get_total_size a) by done.
  unfold alloc_fits in Hfit.
  set (a1 := with_free_space_state free_space_Dirty a) in *.
  assert (Hd1 : m_free_space_state a1 = free_space_Dirty) by done.
  clearbody a1. clear Hinv Hst.
  destruct Hinv1 as [Hb Hs Ht Hfm Hfr Hcl].
  assert (Hinv1 : alloc_inv a1) by done.
  destruct (rfind_if _ (m_free_space a1)) as [i|] eqn:Hfind.
  - (* a chunk of the free list *)
    destruct (rfind_if_Some _ _ _ Hfind) as (c & Hc & Hfit_c & _).
    rewrite Hc. apply Z.leb_le in Hfit_c.
    pose proof (Forall_lookup_1 _ _ _ _ Hfm Hc) as Hokc.
    destruct (mutable_ok_bounds a1 _ _ Hinv1 Hokc) as (Hr0 & Hc0 & Hcmax).
    destruct Hokc as [_ (k & s & Hk & Hlo & Hhi)].
    rewrite (wrap_small (size c - sz)) by lia.
    match goal with |- holds_after _ (match translate _ ?a2 with _ => _ end) =>
      assert (Hinv2 : alloc_inv a2) end.
    { destruct (size c - sz =? 0) eqn:Hrest.
      - inv_fields. by apply erase_move_last_Forall.
      - apply Z.eqb_neq in Hrest.
        inv_fields. apply Forall_insert; [done |].
        rewrite wrap_small by lia. split; simpl; [lia |].
        exists k, s. unfold slab_ref in *. simpl.
        split; [done |]. split; [lia | lia]. }
    destruct (translate _ _); done.
  - (* a new slab *)
    rewrite Hnew1, Hnew.
    set (ns := Z.max (256 * ((sz + 255) / 256)) (2 * last_slab_size a)) in *.
    pose proof (round_up_256_bounds sz) as Hr.
    assert (Hns : sz <= ns /\ get_total_size a1 + ns < word_max)
      by (rewrite Htot1; lia).
    clear Hnew Hnew1 Hfit. rewrite <- Htot1. clearbody ns.
    pose proof (baseline_le_total a1 Hs) as Hbt.
    destruct (new_array env) as [p|]; [| done].
    destruct (slabs_push_ok env); simpl; [| done].
    rewrite (wrap_small (get_total_size a1 + ns)) by lia.
    rewrite (wrap_small (ns - sz)) by lia.
    set (slab := mkSlab _ (get_total_size a1 + ns)).
    assert (Hinv2 : alloc_inv (with_slabs (m_slabs a1 ++ [slab]) a1)).
    { inv_fields.
      - apply slabs_sorted_app. split; [done |].
        fold (slab_ref a1 (length (m_slabs a1))).
        rewrite <- get_total_size_slab_ref. simpl. lia.
      - unfold get_total_size. simpl. rewrite last_snoc. simpl. lia.
      - eapply Forall_impl; [exact Hfm |].
        intros c [? ?]. split; [done |]. by apply in_slab_app. }
    destruct (0 <? ns - sz) eqn:Hun; [| done].
    apply Z.ltb_lt in Hun.
    destruct (free_space_push_ok env); simpl; [| done].
    destruct Hinv2 as [Hb2 Hs2 Ht2 Hfm2 Hfr2 Hcl2].
    inv_fields.
    apply Forall_app. split; [done |]. apply Forall_singleton.
    rewrite wrap_small by lia.
    split; simpl; [lia |].
    exists (length (m_slabs a1)), slab.
    split; [by apply list_lookup_middle |].
    unfold slab_ref. simpl. rewrite slab_ref_of_app by lia.
    fold (slab_ref a1 (length (m_slabs a1))).
    rewrite <- get_total_size_slab_ref. simpl. lia.
Qed.

End Invariant.

(** *** Slab lists with the same ends *)

Lemma same_ends_refl l : same_ends l l.
Proof. unfold same_ends. induction l; by constructor. Qed.

Lemma same_ends_sorted lo l l' :
  same_ends l l' -> slabs_sorted lo l -> slabs_sorted lo l'.
Proof.
  intros He. revert lo. induction He as [|s t l l' Hst _ IH]; intros lo; [done |].
  simpl. rewrite <- Hst. intros [? ?]. split; [done | by apply IH].
Qed.

Lemma same_ends_slab_ref lo l l' i :
  same_ends l l' -> slab_ref_of lo l i = slab_ref_of lo l' i.
Proof.
  intros He. destruct i as [|i]; [done |]. simpl.
  destruct (l !! i) as [s|] eqn:Hs.
  - destruct (Forall2_lookup_l _ _ _ _ _ He Hs) as (t & -> & Hst). done.
  - apply lookup_ge_None in Hs.
    rewrite (Forall2_length _ _ _ He) in Hs.
    apply lookup_ge_None in Hs. by rewrite Hs.
Qed.

Lemma same_ends_whole lo l l' :
  same_ends l l' -> whole_slabs lo l = whole_slabs lo l'.
Proof.
  intros He. revert lo. induction He as [|s t l l' Hst _ IH]; intros lo; [done |].
  simpl. rewrite Hst. f_equal. apply IH.
Qed.

Lemma same_ends_in_slab a a' lo hi :
  m_baseline a' = m_baseline a -> same_ends (m_slabs a) (m_slabs a') ->
  in_slab a lo hi -> in_slab a' lo hi.
Proof.
  intros Hb He (i & s & Hi & Hlo & Hhi).
  destruct (Forall2_lookup_l _ _ _ _ _ He Hi) as (t & Ht & Hst).
  exists i, t. split; [done |]. unfold slab_ref in *.
  rewrite Hb, <- (same_ends_slab_ref _ _ _ _ He), <- Hst. done.
Qed.

Lemma same_ends_total a a' :
  m_baseline a' = m_baseline a -> same_ends (m_slabs a) (m_slabs a') ->
  get_total_size a' = get_total_size a.
Proof.
  intros Hb He. rewrite !get_total_size_slab_ref. unfold slab_ref.
  rewrite Hb, <- (Forall2_length _ _ _ He).
  symmetry. by apply same_ends_slab_ref.
Qed.

Lemma alloc_inv_same_ends a a' :
  m_baseline a' = m_baseline a -> same_ends (m_slabs a) (m_slabs a') ->
  m_free_space a' = m_free_space a ->
  m_free_read_only a' = m_free_read_only a ->
  m_free_space_state a' = m_free_space_state a ->
  alloc_inv a -> alloc_inv a'.
Proof.
  intros Hb He Hfm Hfr Hst [H1 H2 H3 H4 H5 H6].
  constructor.
  - by rewrite Hb.
  - rewrite Hb. by eapply same_ends_sorted.
  - by rewrite (same_ends_total a a').
  - rewrite Hfm. eapply Forall_impl; [exact H4 |].
    intros c [? ?]. split; [done |]. by eapply same_ends_in_slab.
  - rewrite Hfr. eapply Forall_impl; [exact H5 |].
    intros c (? & ? & ?). unfold read_only_chunk_ok. rewrite Hb. done.
  - rewrite Hst, Hfm, Hfr, Hb. intros E. destruct (H6 E) as [-> ->].
    split; [done |]. by apply same_ends_whole.
Qed.

Lemma store_same_ends r bs a : same_ends (m_slabs a) (m_slabs (store r bs a)).
Proof.
  unfold store.
  destruct (m_slabs a !! upper_bound (m_slabs a) r) as [s|] eqn:Hs;
    [| apply same_ends_refl].
  simpl. unfold same_ends.
  rewrite <- (list_insert_id _ _ _ Hs) at 1.
  apply Forall2_insert; [apply same_ends_refl | done].
Qed.

Lemma store_inv r bs a : alloc_inv a -> alloc_inv (store r bs a).
Proof.
  apply alloc_inv_same_ends; try apply store_same_ends;
    unfold store; by destruct (m_slabs a !! _).
Qed.

(** *** Whole slabs as free chunks *)

Lemma length_whole_slabs lo l : length (whole_slabs lo l) = length l.
Proof. revert lo. induction l; intros; simpl; [done | by rewrite IHl]. Qed.

Lemma whole_slabs_lookup lo l i c :
  whole_slabs lo l !! i = Some c ->
  exists s, l !! i = Some s /\
            c = mkChunk (slab_ref_of lo l i) (ref_end s - slab_ref_of lo l i).
Proof.
  revert lo i. induction l as [|x l IH]; intros lo i Hc; [done |].
  destruct i as [|i]; simpl in Hc.
  - simplify_eq. by exists x.
  - destruct (IH _ _ Hc) as (s & Hs & ->). exists s.
    split; [done |]. by rewrite slab_ref_of_cons.
Qed.

Lemma whole_slabs_ok a :
  slabs_sorted (m_baseline a) (m_slabs a) ->
  Forall (mutable_chunk_ok a) (whole_slabs (m_baseline a) (m_slabs a)).
Proof.
  intros Hs. apply Forall_lookup. intros i c Hc.
  destruct (whole_slabs_lookup _ _ _ _ Hc) as (s & Hi & ->).
  destruct (slabs_sorted_lookup _ _ _ _ Hs Hi).
  split; simpl; [lia |]. exists i, s. unfold slab_ref.
  split; [done |]. split; lia.
Qed.

Lemma rebuild_free_space_spec lo l acc n :
  slabs_sorted lo l -> 0 <= lo ->
  Forall (fun s => ref_end s < word_max) l ->
  rebuild_free_space l lo acc n =
    (acc ++ take n (whole_slabs lo l), bool_decide (length l <= n)%nat).
Proof.
  revert lo acc n. induction l as [|x l IH]; intros lo acc n Hs Hlo Hmax.
  - cbn [rebuild_free_space whole_slabs]. rewrite take_nil, app_nil_r.
    by rewrite bool_decide_eq_true_2 by (simpl; lia).
  - destruct Hs as [Hx Hs]. apply Forall_cons in Hmax as [Hxm Hmax].
    destruct n as [|n]; cbn [rebuild_free_space whole_slabs].
    + rewrite take_0, app_nil_r.
      by rewrite bool_decide_eq_false_2 by (simpl; lia).
    + rewrite IH by (done || lia). rewrite wrap_small by lia.
      rewrite <- app_assoc. cbn [take app length]. f_equal.
      apply bool_decide_ext. lia.
Qed.

Lemma slabs_below_max a :
  slabs_sorted (m_baseline a) (m_slabs a) -> get_total_size a < word_max ->
  Forall (fun s => ref_end s < word_max) (m_slabs a).
Proof.
  intros Hs Ht. apply Forall_lookup. intros i s Hi.
  pose proof (slabs_sorted_total a i s Hs Hi). lia.
Qed.

(** *** [reset_free_space_tracking] and [remap] *)

(** What [reset_free_space_tracking] leaves in the free list. *)
Lemma reset_free_space_tracking_spec pushes a :
  alloc_inv a -> m_free_space_state a <> free_space_Clean ->
  let whole := whole_slabs (m_baseline a) (m_slabs a) in
  reset_free_space_tracking pushes a =
    if bool_decide (length (m_slabs a) <= pushes)%nat
    then Ret tt (with_free_space_state free_space_Clean
                   (with_free_space whole
                      (with_free_space [] (with_free_read_only [] a))))
    else Throw bad_alloc
           (with_free_space (take pushes whole)
              (with_free_space [] (with_free_read_only [] a))).
Proof.
  intros Hinv Hst. cbv zeta. unfold reset_free_space_tracking.
  rewrite bool_decide_eq_false_2 by done. simpl.
  rewrite rebuild_free_space_spec;
    [| apply (inv_sorted _ Hinv) | apply (inv_baseline _ Hinv)
     | apply slabs_below_max; [apply (inv_sorted _ Hinv) | apply (inv_total _ Hinv)]].
  simpl. case_bool_decide; [| done].
  rewrite take_ge by (rewrite length_whole_slabs; lia). done.
Qed.

Lemma reset_inv pushes a :
  alloc_inv a -> holds_after alloc_inv (reset_free_space_tracking pushes a).
Proof.
  intros Hinv.
  destruct (decide (m_free_space_state a = free_space_Clean)) as [Hc|Hc].
  - unfold reset_free_space_tracking. by rewrite bool_decide_eq_true_2.
  - rewrite reset_free_space_tracking_spec by done.
    destruct Hinv as [H1 H2 H3 H4 H5 H6].
    case_bool_decide; simpl.
    + constructor; simpl; try done. exact (whole_slabs_ok a H2).
    + inv_fields. apply Forall_take.
      exact (whole_slabs_ok a H2).
Qed.

Lemma shift_slabs_sorted d lo l :
  slabs_sorted lo l -> slabs_sorted (lo + d) (shift_slabs d l).
Proof.
  revert lo. induction l as [|x l IH]; intros lo; [done |].
  intros [Hx Hs]. simpl. split; [lia | by apply IH].
Qed.

(** On a free list that lists every slab whole, the loop of [remap] moves
    slabs and chunks up together. *)
Lemma rebase_whole d lo l :
  slabs_sorted lo l -> 0 <= lo -> 0 <= d ->
  Forall (fun s => ref_end s + d < word_max) l ->
  rebase (whole_slabs lo l) l (lo + d) =
    Some (whole_slabs (lo + d) (shift_slabs d l), shift_slabs d l).
Proof.
  revert lo. induction l as [|x l IH]; intros lo Hs Hlo Hd Hmax; [done |].
  destruct Hs as [Hx Hs]. apply Forall_cons in Hmax as [Hxm Hmax].
  cbn [whole_slabs rebase size]. rewrite wrap_small by lia.
  replace (lo + d + (ref_end x - lo)) with (ref_end x + d) by lia.
  rewrite IH by (done || lia). simpl. do 3 f_equal. f_equal. lia.
Qed.

Lemma get_total_size_shift d a l :
  l = shift_slabs d (m_slabs a) ->
  get_total_size (with_slabs l (with_baseline (m_baseline a + d) a)) =
  get_total_size a + d.
Proof.
  intros ->. unfold get_total_size. simpl. unfold shift_slabs.
  rewrite fmap_last. by destruct (last (m_slabs a)).
Qed.

Section Reachable.

Context `{ext : Externals}.

Local Open Scope alloc_scope.

Lemma remap_inv mapping file_size a :
  alloc_inv a -> op_pre (OpRemap mapping file_size) a ->
  holds_after alloc_inv (remap mapping file_size a).
Proof.
  intros Hinv (_ & Hclean & Hle & _ & Hfit).
  destruct Hinv as [H1 H2 H3 H4 H5 H6].
  destruct (H6 Hclean) as [Hfr Hfm].
  unfold remap. simpl. rewrite Hfm.
  set (d := file_size - m_baseline a).
  replace file_size with (m_baseline a + d) by lia.
  rewrite rebase_whole; [| done | done | lia |].
  - simpl.
    assert (Hs' : slabs_sorted (m_baseline a + d) (shift_slabs d (m_slabs a)))
      by (by apply shift_slabs_sorted).
    constructor; simpl.
    + lia.
    + done.
    + pose proof (get_total_size_shift d a _ eq_refl) as Ht.
      unfold get_total_size in *. simpl in *. lia.
    + apply (whole_slabs_ok
               (with_slabs (shift_slabs d (m_slabs a))
                  (with_free_space
                     (whole_slabs (m_baseline a + d) (shift_slabs d (m_slabs a)))
                     (with_baseline (m_baseline a + d)
                        (with_data (Some mapping) a))))).
      done.
    + by rewrite Hfr.
    + done.
  - apply Forall_lookup. intros i s Hi.
    pose proof (slabs_sorted_total a i s H2 Hi). lia.
Qed.

(** *** Attaching *)

Lemma attach_file_fresh f fs res a :
  attach_file f (fresh fs) = Ret res a ->
  m_slabs a = [] /\ m_free_space a = [] /\ m_free_read_only a = [] /\
  0 <= m_baseline a < word_max.
Proof.
  intros Ha. unfold attach_file in Ha.
  monad_inv;
    repeat match goal with
    | H : validate_buffer _ _ _ = Ret _ _ |- _ =>
        apply validate_buffer_state in H as (? & ? & ? & ? & ?)
    end; simpl in *; bool_hyps;
    repeat split; try done; try (unfold buf_size in *; lia).
Qed.

Lemma attach_buffer_fresh data fs top_ref a :
  attach_buffer data (fresh fs) = Ret top_ref a ->
  m_slabs a = [] /\ m_free_space a = [] /\ m_free_read_only a = [] /\
  m_baseline a = buf_size (bytes data).
Proof.
  intros Ha. unfold attach_buffer in Ha. monad_inv.
  match goal with H : validate_buffer _ _ _ = Ret _ _ |- _ =>
    apply validate_buffer_state in H as (? & ? & ? & ? & ?) end.
  done.
Qed.

Lemma attach_empty_fresh fs a :
  attach_empty (fresh fs) = Ret tt a ->
  m_slabs a = [] /\ m_free_space a = [] /\ m_free_read_only a = [] /\
  m_baseline a = 24.
Proof. intros Ha. unfold attach_empty in Ha. by monad_inv. Qed.

Lemma alloc_inv_no_slabs a :
  m_slabs a = [] -> m_free_space a = [] -> m_free_read_only a = [] ->
  0 <= m_baseline a < word_max -> alloc_inv a.
Proof.
  intros Hs Hfm Hfr Hb. constructor; rewrite ?Hs, ?Hfm, ?Hfr; try done.
  - lia.
  - unfold get_total_size. rewrite Hs. simpl. lia.
Qed.

Lemma do_realloc_inv env push_ok r p old_size new_size a :
  alloc_inv a -> op_pre (OpRealloc env push_ok r p old_size new_size) a ->
  holds_after alloc_inv (do_realloc env push_ok r p old_size new_size a).
Proof.
  intros Hinv [Hpre Hblock].
  pose proof (do_alloc_inv env new_size a Hinv Hpre) as Ha.
  unfold do_realloc, bind.
  destruct (do_alloc env new_size a) as [new_mem a1|e a1|] eqn:Hal;
    [| done | done].
  simpl in Ha. unfold gets, modify.
  specialize (Hblock new_mem a1 eq_refl). cbv zeta in Hblock.
  set (a2 := store _ _ a1) in *.
  assert (Hinv2 : alloc_inv a2) by (by apply store_inv).
  destruct (do_free push_ok r p a2) as [a3|] eqn:Hfr; simpl; [| done].
  unfold ret. simpl. by eapply do_free_inv.
Qed.

Lemma run_inv op a :
  alloc_inv a -> op_pre op a -> holds_after alloc_inv (run op a).
Proof.
  intros Hinv Hpre. destruct op; simpl.
  - pose proof (do_alloc_inv env sz a Hinv Hpre) as Ha.
    unfold bind. by destruct (do_alloc env sz a).
  - destruct (do_free push_ok r p a) as [a'|] eqn:Hf; simpl; [| done].
    by eapply do_free_inv.
  - pose proof (do_realloc_inv env push_ok r p old_size new_size a Hinv Hpre)
      as Ha.
    unfold bind. by destruct (do_realloc env push_ok r p old_size new_size a).
  - by apply reset_inv.
  - pose proof (remap_inv mapping file_size a Hinv Hpre) as Ha.
    unfold bind. by destruct (remap mapping file_size a).
  - by apply store_inv.
Qed.

(** Every reachable state satisfies the invariant. *)
Lemma reachable_inv a : reachable a -> alloc_inv a.
Proof.
  induction 1 as [fs f res a Ha|fs data top_ref a Hsz Ha|fs a Ha
                 |a op a' _ IH Hpre Hrun|a op e a' _ IH Hpre Hrun].
  - destruct (attach_file_fresh _ _ _ _ Ha) as (? & ? & ? & ?).
    by apply alloc_inv_no_slabs.
  - destruct (attach_buffer_fresh _ _ _ _ Ha) as (? & ? & ? & Hb).
    apply alloc_inv_no_slabs; try done. rewrite Hb. unfold buf_size in *. lia.
  - destruct (attach_empty_fresh _ _ Ha) as (? & ? & ? & Hb).
    apply alloc_inv_no_slabs; try done. rewrite Hb. done.
  - pose proof (run_inv op a IH Hpre) as Hr. by rewrite Hrun in Hr.
  - pose proof (run_inv op a IH Hpre) as Hr. by rewrite Hrun in Hr.
Qed.

End Reachable.

(** ** Translation *)

Lemma translate_in_slab a r i s :
  alloc_inv a -> m_slabs a !! i = Some s ->
  slab_ref a i <= r < ref_end s ->
  translate r a = Some (base (addr s) + (r - slab_ref a i)).
Proof.
  intros Hinv Hi Hr. unfold translate, do_translate.
  pose proof (inv_sorted a Hinv) as Hs.
  destruct (slabs_sorted_lookup _ _ _ _ Hs Hi) as [Hb _].
  pose proof (slabs_sorted_total a i s Hs Hi) as Ht.
  pose proof (inv_total a Hinv). pose proof (inv_baseline a Hinv).
  unfold slab_ref in *.
  destruct (r <? m_baseline a) eqn:Hlt; [apply Z.ltb_lt in Hlt; lia |].
  rewrite (upper_bound_in_slab _ _ _ _ _ Hs Hi) by lia.
  rewrite Hi. simpl. rewrite wrap_small by lia. done.
Qed.

(** A ref of the mutable region lies in a slab. *)
Lemma ref_in_some_slab a r :
  alloc_inv a -> m_baseline a <= r < get_total_size a ->
  exists i s, m_slabs a !! i = Some s /\ slab_ref a i <= r < ref_end s.
Proof.
  intros Hinv Hr. pose proof (inv_sorted a Hinv) as Hs.
  destruct (upper_bound_spec _ _ r Hs) as (Hle & Hlow & Hhigh).
  set (i := upper_bound (m_slabs a) r) in *.
  assert (Hlt : (i < length (m_slabs a))%nat).
  { destruct (decide (i < length (m_slabs a))%nat) as [|Hge]; [done |].
    assert (i = length (m_slabs a)) as Hi by lia.
    rewrite get_total_size_slab_ref in Hr. unfold slab_ref in Hr.
    destruct (length (m_slabs a)) as [|n] eqn:Hlen; [simpl in Hr; lia |].
    simpl in Hr.
    destruct (lookup_lt_is_Some_2 (m_slabs a) n) as [t Ht]; [lia |].
    rewrite Ht in Hr. simpl in Hr.
    pose proof (Hlow n t ltac:(lia) Ht). lia. }
  destruct (lookup_lt_is_Some_2 _ _ Hlt) as [s Hi].
  exists i, s. split; [done |]. split; [| by apply (Hhigh i)].
  unfold slab_ref. destruct i as [|j]; simpl; [lia |].
  destruct (lookup_lt_is_Some_2 (m_slabs a) j) as [t Ht]; [lia |].
  rewrite Ht. simpl. apply (Hlow j); [lia | done].
Qed.

Lemma translate_free_chunk a c :
  alloc_inv a -> mutable_chunk_ok a c -> is_Some (translate (ref c) a).
Proof.
  intros Hinv [Hsz (i & s & Hi & Hlo & Hhi)].
  rewrite (translate_in_slab a (ref c) i s Hinv Hi) by lia. eauto.
Qed.

(** ** Growing a slab *)

(** [do_alloc] when no chunk of the free list is large enough. *)
Lemma do_alloc_grow env sz a :
  alloc_inv a -> alloc_pre a sz ->
  m_free_space_state a <> free_space_Invalid ->
  rfind_if (fun c => sz <=? size c) (m_free_space a) = None ->
  let start := get_total_size a in
  let new_size := Z.max (256 * ((sz + 255) / 256)) (2 * last_slab_size a) in
  let a1 := with_free_space_state free_space_Dirty a in
  do_alloc env sz a =
    match new_array env with
    | None => Throw bad_alloc a1
    | Some p =>
        let slab := mkSlab (mkBuffer p (replicate (Z.to_nat new_size) x00))
                      (start + new_size) in
        let a2 := with_slabs (m_slabs a ++ [slab]) a1 in
        if negb (slabs_push_ok env) then Throw bad_alloc a1
        else if 0 <? new_size - sz then
          if negb (free_space_push_ok env) then Throw bad_alloc a2
          else Ret (mkMemRef p start)
                 (with_free_space
                    (m_free_space a ++ [mkChunk (start + sz) (new_size - sz)]) a2)
        else Ret (mkMemRef p start) a2
    end.
Proof.
  intros Hinv (Hsz & Hpre) Hst Hnone. cbv zeta.
  destruct Hpre as (_ & _ & Hfit).
  pose proof (new_slab_ref_size_spec a sz Hinv Hsz Hfit) as Hnew.
  unfold do_alloc. rewrite bool_decide_eq_false_2 by done.
  simpl. rewrite Hnone.
  change (new_slab_ref_size sz (with_free_space_state free_space_Dirty a))
    with (new_slab_ref_size sz a).
  rewrite Hnew.
  pose proof (round_up_256_bounds sz) as Hr.
  pose proof (baseline_le_total a (inv_sorted a Hinv)) as Hbt.
  pose proof (inv_baseline a Hinv) as Hb0.
  pose proof (last_slab_size_nonneg a Hinv) as Hl0.
  unfold alloc_fits in Hfit.
  set (ns := Z.max (256 * ((sz + 255) / 256)) (2 * last_slab_size a)) in *.
  destruct (new_array env) as [p|]; [| done].
  rewrite (wrap_small (get_total_size a + ns)) by lia.
  rewrite (wrap_small (ns - sz)) by lia.
  rewrite (wrap_small (get_total_size a + sz)) by lia.
  done.
Qed.

(** The new slab is at least as large as the request and the refs still
    fit in 64 bits. *)
Lemma new_size_bounds a sz :
  alloc_inv a -> alloc_pre a sz ->
  let new_size := Z.max (256 * ((sz + 255) / 256)) (2 * last_slab_size a) in
  sz <= new_size /\ get_total_size a + new_size < word_max.
Proof.
  intros Hinv (Hsz & _ & _ & Hfit). cbv zeta. unfold alloc_fits in Hfit.
  pose proof (round_up_256_bounds sz). lia.
Qed.

(** ** Finding the first match *)

Lemma find_if_first {A} (p : A -> bool) (l : list A) i x :
  l !! i = Some x -> p x = true ->
  (forall j y, (j < i)%nat -> l !! j = Some y -> p y = false) ->
  find_if p l = Some i.
Proof.
  revert i. induction l as [|y l IH]; intros i Hi Hp Hmin; [done |].
  destruct i as [|i]; simpl in *.
  - simplify_eq. by rewrite Hp.
  - rewrite (Hmin O y ltac:(lia) eq_refl).
    rewrite (IH i Hi Hp); [done |].
    intros j z Hj Hz. apply (Hmin (S j)); [lia | done].
Qed.

Lemma find_if_insert_same {A} (p : A -> bool) (l : list A) i x y :
  l !! i = Some x -> p y = p x -> find_if p (<[i := y]> l) = find_if p l.
Proof.
  revert i. induction l as [|z l IH]; intros i Hi Hp; [done |].
  destruct i as [|i]; simpl in *.
  - simplify_eq. by rewrite Hp.
  - by rewrite (IH i Hi Hp).
Qed.

(** Two positions of a list, and what is left without them. *)
Lemma two_positions {A} (l : list A) i j x y :
  l !! i = Some x -> l !! j = Some y -> i <> j ->
  exists rest, l ≡ₚ x :: y :: rest /\
    forall x' y', <[j := y']> (<[i := x']> l) ≡ₚ x' :: y' :: rest.
Proof.
  revert i j. induction l as [|z l IH]; intros i j Hi Hj Hne; [done |].
  assert (Hdel : forall k (u v : A), l !! k = Some u ->
            l ≡ₚ u :: delete k l /\ <[k := v]> l ≡ₚ v :: delete k l).
  { intros k u v Hk. split; [by apply delete_Permutation |].
    rewrite (delete_Permutation (<[k:=v]> l) k v).
    - f_equiv. rewrite insert_take_drop by (by eapply lookup_lt_Some).
      rewrite !delete_take_drop.
      rewrite take_app_length' by (rewrite length_take; apply lookup_lt_Some in Hk; lia).
      f_equiv.
      rewrite cons_middle, app_assoc, drop_app_length'; [done |].
      rewrite length_app, length_take. simpl.
      apply lookup_lt_Some in Hk. lia.
    - apply list_lookup_insert_eq. by eapply lookup_lt_Some. }
  destruct i as [|i], j as [|j]; simpl in *; simplify_eq.
  - destruct (Hdel j y y Hj) as [Hp _]. exists (delete j l).
    split; [by rewrite Hp at 1 |].
    intros x' y'. destruct (Hdel j y y' Hj) as [_ Hq]. by rewrite Hq.
  - destruct (Hdel i x x Hi) as [Hp _]. exists (delete i l).
    split; [rewrite Hp at 1; apply Permutation_swap |].
    intros x' y'. destruct (Hdel i x x' Hi) as [_ Hq]. rewrite Hq.
    apply Permutation_swap.
  - destruct (IH i j Hi Hj ltac:(lia)) as (rest & Hp & Hq).
    exists (z :: rest). split.
    + rewrite Hp. solve_Permutation.
    + intros x' y'. rewrite Hq. solve_Permutation.
Qed.

(** ** The allocator *)

Section Allocation.

Context `{ext : Externals}.

Implicit Types (a : SlabAlloc) (c : Chunk).




End Allocation.

(** ** Freeing *)

Lemma list_alter_insert {A} (f : A -> A) (l : list A) i x :
  l !! i = Some x -> alter f i l = <[i := f x]> l.
Proof.
  intros Hi. apply list_eq. intros k.
  destruct (decide (k = i)) as [->|Hne].
  - rewrite list_lookup_alter_eq, Hi. simpl.
    by rewrite list_lookup_insert_eq by (by eapply lookup_lt_Some).
  - by rewrite list_lookup_alter_ne, list_lookup_insert_ne by done.
Qed.

Lemma find_if_no_slab_end r (slabs : list Slab) :
  (forall slab, slab ∈ slabs -> ref_end slab <> r) ->
  find_if (SlabRefEndEq r) slabs = None.
Proof.
  intros Hno. destruct (find_if _ _) as [k|] eqn:Hf; [| done].
  destruct (find_if_Some _ _ _ Hf) as (s & Hs & Heq & _).
  apply Z.eqb_eq in Heq. apply list_elem_of_lookup_2 in Hs.
  by destruct (Hno s Hs).
Qed.

(** If nothing has to be appended after looking for neighbours and nothing
    was merged, the list is as it was. *)
Lemma coalesce_append slabs r sz fs :
  (coalesce slabs r sz fs).2 = true -> (coalesce slabs r sz fs).1 = fs.
Proof.
  unfold coalesce.
  destruct (find_if (ChunkRefEq (wrap (r + sz))) fs) as [i|]; simpl.
  - destruct (find_if (SlabRefEndEq (wrap (r + sz))) slabs), (fs !! i);
      simpl; repeat case_match; simpl; done.
  - repeat case_match; simpl; done.
Qed.

Section Freeing.

Context `{ext : Externals}.

Implicit Types (a : SlabAlloc) (c : Chunk).

(** Freeing a mutable block that has a free chunk on either side, inside
    one slab: both chunks and the block become one chunk. *)
Lemma do_free_merges_both push_ok r p a succ pred :
  reachable a ->
  m_free_space_state a = free_space_Dirty ->
  translate r a = Some p ->
  m_baseline a <= r ->
  let s := freed_size r a in
  block_ok a r s ->
  succ ∈ m_free_space a -> ref succ = r + s ->
  (forall c, c ∈ m_free_space a -> ref c = r + s -> c = succ) ->
  pred ∈ m_free_space a -> ref pred + size pred = r ->
  (forall c, c ∈ m_free_space a -> ref c + size c = r -> c = pred) ->
  (forall slab, slab ∈ m_slabs a -> ref_end slab <> r + s) ->
  (forall slab, slab ∈ m_slabs a -> ref_end slab <> r) ->
  exists a' rest,
    do_free push_ok r p a = Some a' /\
    m_free_space a ≡ₚ pred :: succ :: rest /\
    m_free_space a' ≡ₚ mkChunk (ref pred) (size pred + s + size succ) :: rest /\
    (length (m_free_space a') + 1 = length (m_free_space a))%nat /\
    m_slabs a' = m_slabs a /\
    m_free_read_only a' = m_free_read_only a /\
    m_free_space_state a' = free_space_Dirty.
Proof.
  intros Hr Hst Htr Hmut s Hblock Hsucc Hsref Hsuniq Hpred Hpend Hpuniq
    Hno1 Hno2.
  pose proof (reachable_inv a Hr) as Hinv.
  pose proof (inv_mutable a Hinv) as Hfm.
  assert (Hro : is_read_only a r = false)
    by (unfold is_read_only; by apply Z.ltb_ge).
  pose proof (block_ok_read_only a r s Hinv Hblock) as Hb. rewrite Hro in Hb.
  destruct (mutable_ok_bounds a _ _ Hinv Hb) as (Hr0 & Hs0 & Hrs).
  pose proof (proj1 (Forall_forall _ _) Hfm succ Hsucc) as Hoks.
  pose proof (proj1 (Forall_forall _ _) Hfm pred Hpred) as Hokp.
  destruct (mutable_ok_bounds a _ _ Hinv Hoks) as (_ & Hss0 & Hsmax).
  destruct (mutable_ok_bounds a _ _ Hinv Hokp) as (Hpr0 & Hps0 & Hpmax).
  (* where the two chunks are found *)
  destruct (find_if_is_Some (ChunkRefEq (r + s)) _ succ Hsucc) as [i Hfi].
  { unfold ChunkRefEq. by apply Z.eqb_eq. }
  destruct (find_if_Some _ _ _ Hfi) as (c & Hi & Hc & _).
  apply Z.eqb_eq in Hc.
  assert (c = succ) as -> by (apply Hsuniq; [by eapply list_elem_of_lookup_2 | done]).
  destruct (find_if_is_Some (ChunkRefEndEq r) _ pred Hpred) as [j Hfj].
  { unfold ChunkRefEndEq. rewrite wrap_small by lia. by apply Z.eqb_eq. }
  destruct (find_if_Some _ _ _ Hfj) as (c & Hj & Hc' & _). clear Hc.
  rename Hc' into Hc.
  assert (Hcok : mutable_chunk_ok a c)
    by (eapply Forall_lookup_1; eauto).
  destruct (mutable_ok_bounds a _ _ Hinv Hcok) as (? & ? & ?).
  apply Z.eqb_eq in Hc. rewrite wrap_small in Hc by lia.
  assert (c = pred) as -> by (apply Hpuniq; [by eapply list_elem_of_lookup_2 | done]).
  assert (Hij : i <> j).
  { intros ->. rewrite Hi in Hj. injection Hj as ->. lia. }
  set (merged := mkChunk r (size succ + s)).
  set (fs1 := <[i := merged]> (m_free_space a)).
  assert (Hfj1 : find_if (ChunkRefEndEq r) fs1 = Some j).
  { unfold fs1. rewrite (find_if_insert_same _ _ _ succ); [done | done |].
    unfold ChunkRefEndEq, merged. simpl. f_equal. f_equal. lia. }
  assert (Hi1 : fs1 !! i = Some merged).
  { apply list_lookup_insert_eq. by eapply lookup_lt_Some. }
  assert (Hj1 : fs1 !! j = Some pred).
  { unfold fs1. by rewrite list_lookup_insert_ne. }
  (* what [coalesce] computes *)
  assert (Hco : coalesce (m_slabs a) r s (m_free_space a) =
                (erase_move_last i
                   (<[j := mkChunk (ref pred) (size pred + s + size succ)]> fs1),
                 false)).
  { unfold coalesce. rewrite wrap_small by lia.
    rewrite Hfi, (find_if_no_slab_end _ _ Hno1), Hi.
    rewrite (wrap_small (size succ + s)) by lia. fold merged. fold fs1.
    rewrite (find_if_no_slab_end _ _ Hno2), Hfj1, Hi1. simpl.
    rewrite (list_alter_insert _ _ _ pred Hj1). unfold add_size. simpl.
    rewrite wrap_small by lia.
    do 3 f_equal. f_equal. lia. }
  destruct (two_positions (m_free_space a) i j succ pred Hi Hj Hij)
    as (rest & Hperm & Hins).
  set (merged2 := mkChunk (ref pred) (size pred + s + size succ)) in *.
  set (fs2 := <[j := merged2]> fs1) in *.
  assert (Hi2 : fs2 !! i = Some merged).
  { unfold fs2. by rewrite list_lookup_insert_ne. }
  exists (with_free_space (erase_move_last i fs2)
            (with_free_space_state free_space_Dirty a)), rest.
  split; [| split; [| split; [| split]]].
  - unfold do_free. rewrite Htr, bool_decide_eq_true_2 by done. simpl.
    rewrite Hst. rewrite bool_decide_eq_false_2 by done.
    rewrite Hro, bool_decide_eq_true_2 by done. simpl.
    fold s. rewrite Hco. done.
  - rewrite Hperm. apply Permutation_swap.
  - simpl. apply (Permutation_cons_inv (a := merged)).
    rewrite (erase_move_last_Permutation i fs2 merged Hi2).
    unfold fs2, fs1. apply Hins.
  - simpl. rewrite length_erase_move_last.
    + unfold fs2, fs1. rewrite !length_insert.
      apply lookup_lt_Some in Hi. lia.
    + intros E. by rewrite E in Hi2.
  - done.
Qed.

End Freeing.

(** ** Losing and rebuilding the free list *)

Lemma whole_slabs_lookup_slab lo l i s :
  l !! i = Some s ->
  whole_slabs lo l !! i =
    Some (mkChunk (slab_ref_of lo l i) (ref_end s - slab_ref_of lo l i)).
Proof.
  revert lo i. induction l as [|x l IH]; intros lo i Hi; [done |].
  destruct i as [|i]; simpl in Hi.
  - by simplify_eq.
  - rewrite slab_ref_of_cons. simpl. by apply IH.
Qed.

Lemma slabs_all_free_whole lo l (front rest : list Slab) :
  slabs_sorted lo l -> 0 <= lo -> Forall (fun s => ref_end s < word_max) l ->
  l = front ++ rest ->
  slabs_all_free (whole_slabs lo l) rest (slab_ref_of lo l (length front)) = true.
Proof.
  intros Hs Hlo Hmax. revert front.
  induction rest as [|x rest IH]; intros front Hl; [done |].
  assert (Hx : l !! length front = Some x)
    by (rewrite Hl; by apply list_lookup_middle).
  destruct (slabs_sorted_lookup _ _ _ _ Hs Hx) as [H1 H2].
  pose proof (proj1 (Forall_lookup _ _) Hmax _ _ Hx) as H3. simpl in H3.
  cbn [slabs_all_free]. rewrite wrap_small by lia.
  rewrite (find_if_first _ _ (length front)
             (mkChunk (slab_ref_of lo l (length front))
                (ref_end x - slab_ref_of lo l (length front)))).
  - rewrite (whole_slabs_lookup_slab _ _ _ _ Hx). simpl.
    rewrite Z.eqb_refl. simpl.
    specialize (IH (front ++ [x])).
    rewrite length_app in IH. simpl in IH.
    replace (length front + 1)%nat with (S (length front)) in IH by lia.
    simpl in IH. rewrite Hx in IH. simpl in IH. apply IH.
    by rewrite <- app_assoc.
  - by apply whole_slabs_lookup_slab.
  - unfold ChunkRefEq. simpl. apply Z.eqb_refl.
  - intros j c Hj Hc. destruct (whole_slabs_lookup _ _ _ _ Hc) as (t & Ht & ->).
    unfold ChunkRefEq. simpl. apply Z.eqb_neq.
    destruct (slabs_sorted_lookup _ _ _ _ Hs Ht) as [H4 H5].
    pose proof (slabs_sorted_mono lo l j (length front) t Hs Hj Ht) as H6.
    apply lookup_lt_Some in Hx. lia.
Qed.

Lemma is_all_free_whole a :
  alloc_inv a ->
  m_free_space a = whole_slabs (m_baseline a) (m_slabs a) ->
  is_all_free a = true.
Proof.
  intros Hinv Hfm. unfold is_all_free.
  rewrite Hfm, length_whole_slabs, Nat.eqb_refl. simpl.
  apply (slabs_all_free_whole _ _ []).
  - apply (inv_sorted a Hinv).
  - apply (inv_baseline a Hinv).
  - apply slabs_below_max; [apply (inv_sorted a Hinv) | apply (inv_total a Hinv)].
  - done.
Qed.

Lemma do_alloc_succeeds env sz a p :
  alloc_inv a -> alloc_pre a sz ->
  m_free_space_state a <> free_space_Invalid ->
  new_array env = Some p ->
  slabs_push_ok env = true -> free_space_push_ok env = true ->
  exists mem a', do_alloc env sz a = Ret mem a'.
Proof.
  intros Hinv Hpre Hst Hnew Hp1 Hp2.
  destruct (rfind_if (fun c => sz <=? size c) (m_free_space a)) as [i|] eqn:Hf.
  - destruct (rfind_if_Some _ _ _ Hf) as (c & Hc & _).
    pose proof (Forall_lookup_1 _ _ _ _ (inv_mutable a Hinv) Hc) as Hok.
    destruct (translate_free_chunk a c Hinv Hok) as [q Hq].
    unfold do_alloc. rewrite bool_decide_eq_false_2 by done. simpl.
    rewrite Hf, Hc.
    match goal with |- context [translate (ref c) ?a2] =>
      change (translate (ref c) a2) with (translate (ref c) a) end.
    rewrite Hq. eauto.
  - rewrite do_alloc_grow by done. rewrite Hnew, Hp1, Hp2. cbv zeta. simpl.
    destruct (0 <? _); eauto.
Qed.

Section Tracking.

Context `{ext : Externals}.

Implicit Types (a : SlabAlloc) (c : Chunk).

(** C5.  [free] returns whenever its assertions hold, whatever becomes of
    the append; when the freed chunk has to be appended and the append
    throws, [free] returns with the state Invalid and the lists as they
    were.  In state Invalid every [alloc] throws [InvalidFreeSpace] and
    changes nothing, every [free] returns and changes nothing, and
    [get_free_read_only] throws [InvalidFreeSpace].  After a
    [reset_free_space_tracking] that returns the state is Clean and [alloc]
    succeeds when the free store has memory. *)
Theorem invalid_free_space_sticks a :
  reachable a ->
  (forall push_ok r p,
     translate r a = Some p ->
     is_read_only a r = true \/ m_free_space_state a <> free_space_Clean ->
     exists a', do_free push_ok r p a = Some a') /\
  (forall r p,
     translate r a = Some p ->
     is_read_only a r = true \/ m_free_space_state a = free_space_Dirty ->
     m_free_space_state a <> free_space_Invalid ->
     let free_space :=
       if is_read_only a r then m_free_read_only a else m_free_space a in
     (coalesce (m_slabs a) r (freed_size r a) free_space).2 = true ->
     do_free false r p a = Some (with_free_space_state free_space_Invalid a)) /\
  (m_free_space_state a = free_space_Invalid ->
     (forall env sz, do_alloc env sz a = Throw InvalidFreeSpace a) /\
     (forall push_ok r p,
        translate r a = Some p -> do_free push_ok r p a = Some a) /\
     get_free_read_only a = Throw InvalidFreeSpace a) /\
  (forall pushes, (length (m_slabs a) <= pushes)%nat ->
     exists a',
       reset_free_space_tracking pushes a = Ret tt a' /\
       m_free_space_state a' = free_space_Clean /\
       forall env sz p,
         alloc_pre a' sz -> new_array env = Some p ->
         slabs_push_ok env = true -> free_space_push_ok env = true ->
         exists mem a'', do_alloc env sz a' = Ret mem a'').
Proof.
  intros Hr. pose proof (reachable_inv a Hr) as Hinv.
  split; [| split; [| split]].
  - intros push_ok r p Htr Hst. unfold do_free.
    rewrite Htr, bool_decide_eq_true_2 by done. simpl.
    case_bool_decide as Hinvd; [eauto |].
    assert (Hok : is_read_only a r ||
                  bool_decide (m_free_space_state a = free_space_Dirty) = true).
    { destruct Hst as [->|Hst]; [done |].
      rewrite bool_decide_eq_true_2; [by rewrite orb_true_r |].
      by destruct (m_free_space_state a). }
    rewrite Hok. simpl.
    destruct (coalesce _ _ _ _) as [fs []]; [destruct push_ok |]; eauto.
  - intros r p Htr Hst Hninv free_space Happ. unfold do_free.
    rewrite Htr, bool_decide_eq_true_2 by done. simpl.
    rewrite bool_decide_eq_false_2 by done.
    assert (Hok : is_read_only a r ||
                  bool_decide (m_free_space_state a = free_space_Dirty) = true).
    { destruct Hst as [->|Hst]; [done |].
      by rewrite bool_decide_eq_true_2, orb_true_r. }
    rewrite Hok. simpl.
    pose proof (coalesce_append _ _ _ _ Happ) as Hsame.
    unfold free_space in Happ, Hsame.
    destruct (is_read_only a r); simpl;
      destruct (coalesce _ _ _ _) as [fs append]; simpl in *; subst; done.
  - intros Hst. split; [| split].
    + intros env sz. unfold do_alloc. by rewrite bool_decide_eq_true_2.
    + intros push_ok r p Htr. unfold do_free.
      rewrite Htr, bool_decide_eq_true_2 by done. simpl.
      by rewrite bool_decide_eq_true_2.
    + unfold get_free_read_only. by rewrite bool_decide_eq_true_2.
  - intros pushes Hp.
    pose proof (reset_inv pushes a Hinv) as Hinv'.
    destruct (decide (m_free_space_state a = free_space_Clean)) as [Hc|Hc].
    + exists a. unfold reset_free_space_tracking.
      rewrite bool_decide_eq_true_2 by done.
      split; [done |]. split; [done |].
      intros env sz p Hpre Hnew Hp1 Hp2.
      apply (do_alloc_succeeds env sz a p); try done. by rewrite Hc.
    + rewrite reset_free_space_tracking_spec in * by done.
      rewrite bool_decide_eq_true_2 in * by done.
      eexists. split; [done |]. split; [done |].
      intros env sz p Hpre Hnew Hp1 Hp2.
      by apply (do_alloc_succeeds env sz _ p).
Qed.

(** C6.  [reset_free_space_tracking] changes nothing in state Clean.  In
    any other state (the free store having memory) it empties the read-only
    free list and leaves in the mutable free list one chunk per slab, the
    i-th of them starting where slab i starts and as large as slab i, and
    the state is Clean.  Whenever it returns, [is_all_free] holds. *)
Theorem reset_free_space_tracking_rebuilds pushes a :
  reachable a ->
  (m_free_space_state a = free_space_Clean ->
   reset_free_space_tracking pushes a = Ret tt a) /\
  (m_free_space_state a <> free_space_Clean ->
   (length (m_slabs a) <= pushes)%nat ->
   exists a',
     reset_free_space_tracking pushes a = Ret tt a' /\
     m_free_read_only a' = [] /\
     length (m_free_space a') = length (m_slabs a) /\
     (forall i s, m_slabs a !! i = Some s ->
        m_free_space a' !! i =
          Some (mkChunk (slab_ref a i) (ref_end s - slab_ref a i))) /\
     m_free_space_state a' = free_space_Clean /\
     m_slabs a' = m_slabs a /\ m_baseline a' = m_baseline a) /\
  (forall a', reset_free_space_tracking pushes a = Ret tt a' ->
     is_all_free a' = true).
Proof.
  intros Hr. pose proof (reachable_inv a Hr) as Hinv.
  split; [| split].
  - intros Hc. unfold reset_free_space_tracking.
    by rewrite bool_decide_eq_true_2.
  - intros Hc Hp. rewrite reset_free_space_tracking_spec by done.
    rewrite bool_decide_eq_true_2 by done.
    eexists. split; [done |]. simpl.
    split; [done |]. split; [apply length_whole_slabs |].
    split; [| done].
    intros i s Hi. by apply whole_slabs_lookup_slab.
  - intros a' Hres.
    pose proof (reset_inv pushes a Hinv) as Hinv'. rewrite Hres in Hinv'.
    simpl in Hinv'.
    destruct (decide (m_free_space_state a = free_space_Clean)) as [Hc|Hc].
    + unfold reset_free_space_tracking in Hres.
      rewrite bool_decide_eq_true_2 in Hres by done. simplify_eq.
      apply is_all_free_whole; [done |].
      by destruct (inv_clean a' Hinv' Hc).
    + rewrite reset_free_space_tracking_spec in Hres by done.
      case_bool_decide; [| done]. simplify_eq.
      by apply is_all_free_whole.
Qed.

End Tracking.

(** ** Checked runs *)

Section Runs.

Context `{ext : Externals}.

Lemma in_slab_b_sound a lo hi : in_slab_b a lo hi = true -> in_slab a lo hi.
Proof.
  unfold in_slab_b. intros Hex. apply existsb_exists in Hex as (i & _ & Hi).
  destruct (m_slabs a !! i) as [s|] eqn:Hs; [| done].
  apply andb_true_iff in Hi as [H1 H2]. bool_hyps.
  by exists i, s.
Qed.

Lemma op_ok_sound op a : op_ok op a = true -> op_pre op a.
Proof.
  destruct op; simpl; try done.
  - unfold alloc_pre_b, alloc_pre, alloc_fits. intros Hok.
    repeat (apply andb_true_iff in Hok as [Hok ?]). bool_hyps. done.
  - unfold block_ok_b, block_ok. intros Hok.
    apply andb_true_iff in Hok as [H0 Hok]. bool_hyps. split; [done |].
    apply orb_true_iff in Hok as [Hok|Hok].
    + apply andb_true_iff in Hok as [? ?]. bool_hyps. by left.
    + right. by apply in_slab_b_sound.
Qed.

Lemma run_ops_reachable ops a a' :
  reachable a -> run_ops ops a = Some a' -> reachable a'.
Proof.
  revert a. induction ops as [|op ops IH]; intros a Hr Hrun; simpl in Hrun.
  - by simplify_eq.
  - destruct (op_ok op a) eqn:Hok; [| done].
    apply op_ok_sound in Hok.
    destruct (run op a) as [[] a1|e a1|] eqn:Hop; [| | done].
    + apply (IH a1); [| done]. by eapply reach_returns.
    + apply (IH a1); [| done]. by eapply reach_throws.
Qed.

Lemma attached_empty_reachable fs : reachable (attached_empty fs).
Proof. by apply (reach_attach_empty fs). Qed.

End Runs.

(** ** Concrete runs *)

Lemma state_three_blocks_reachable : reachable (ext := realm3) state_three_blocks.
Proof.
  apply (run_ops_reachable (ext := realm3) three_blocks
           (attached_empty free_space_Clean)).
  - apply attached_empty_reachable.
  - vm_compute. reflexivity.
Qed.

Lemma state_two_freed_reachable : reachable (ext := realm3) state_two_freed.
Proof.
  apply (run_ops_reachable (ext := realm3) two_freed
           (attached_empty free_space_Clean)).
  - apply attached_empty_reachable.
  - vm_compute. reflexivity.
Qed.

(** C4.  A mutable block freed in state Dirty between the free chunk that
    begins where it ends and the free chunk that ends where it begins,
    neither meeting it at the end of a slab: the two chunks give way to one
    chunk that covers the predecessor, the block and the successor, and the
    list is one chunk shorter.  Three adjacent blocks of 8 bytes of a fresh
    slab, freed in the order middle, left, right, leave a free list of one
    chunk that covers the whole slab. *)
Theorem free_coalesces_both_sides :
  (forall (ext : Externals) push_ok r p a succ pred,
     reachable a ->
     m_free_space_state a = free_space_Dirty ->
     translate r a = Some p ->
     m_baseline a <= r ->
     let s := freed_size r a in
     block_ok a r s ->
     succ ∈ m_free_space a -> ref succ = r + s ->
     (forall c, c ∈ m_free_space a -> ref c = r + s -> c = succ) ->
     pred ∈ m_free_space a -> ref pred + size pred = r ->
     (forall c, c ∈ m_free_space a -> ref c + size c = r -> c = pred) ->
     (forall slab, slab ∈ m_slabs a -> ref_end slab <> r + s) ->
     (forall slab, slab ∈ m_slabs a -> ref_end slab <> r) ->
     exists a' rest,
       do_free push_ok r p a = Some a' /\
       m_free_space a ≡ₚ pred :: succ :: rest /\
       m_free_space a' ≡ₚ
         mkChunk (ref pred) (size pred + s + size succ) :: rest /\
       (length (m_free_space a') + 1 = length (m_free_space a))%nat /\
       m_slabs a' = m_slabs a /\
       m_free_read_only a' = m_free_read_only a /\
       m_free_space_state a' = free_space_Dirty) /\
  (forall fs, exists a,
     coalesce_three (fresh fs) = Ret tt a /\
     m_free_space a = [mkChunk 24 256] /\
     ref_end <$> m_slabs a = [280] /\ m_baseline a = 24).
Proof.
  split.
  - intros ext push_ok r p a succ pred. apply do_free_merges_both.
  - intros fs. eexists. split; [| split; [| split]].
    + destruct fs; vm_compute; reflexivity.
    + reflexivity.
    + reflexivity.
    + reflexivity.
Qed.

(** * Further properties of the code *)

(** ** Attaching to a file *)

Lemma bind_Throw {A B} (c : M A) (k : A -> M B) a e a' :
  bind c k a = Throw e a' ->
  c a = Throw e a' \/ exists x a1, c a = Ret x a1 /\ k x a1 = Throw e a'.
Proof.
  unfold bind. destruct (c a) as [x a1| |]; [eauto | | done].
  intros; simplify_eq; auto.
Qed.

Lemma realm_assert_Throw c a e a' : realm_assert c a = Throw e a' -> False.
Proof. destruct c; simpl; unfold ret; intros; simplify_eq. Qed.

Lemma throw_if_Throw c e0 a e a' :
  throw_if c e0 a = Throw e a' -> c = true /\ e = e0 /\ a' = a.
Proof. destruct c; simpl; unfold ret, throw; intros; simplify_eq; done. Qed.

(** Running a sequence step by step. *)
Lemma bind_ret {A B} (x : A) (k : A -> M B) a : bind (ret x) k a = k x a.
Proof. reflexivity. Qed.
Lemma bind_gets {A B} (f : SlabAlloc -> A) (k : A -> M B) a :
  bind (gets f) k a = k (f a) a.
Proof. reflexivity. Qed.
Lemma bind_modify {B} (f : SlabAlloc -> SlabAlloc) (k : unit -> M B) a :
  bind (modify f) k a = k tt (f a).
Proof. reflexivity. Qed.
Lemma bind_assert_true {B} (k : unit -> M B) a :
  bind (realm_assert true) k a = k tt a.
Proof. reflexivity. Qed.
Lemma bind_throw_if_false {B} e (k : unit -> M B) a :
  bind (throw_if false e) k a = k tt a.
Proof. reflexivity. Qed.
Lemma bind_throw_if_true {B} e (k : unit -> M B) a :
  bind (throw_if true e) k a = Throw e a.
Proof. reflexivity. Qed.
Lemma bind_throw {A B} e (k : A -> M B) a : bind (throw e) k a = Throw e a.
Proof. reflexivity. Qed.
Lemma bind_assoc {A B C} (c : M A) (k : A -> M B) (h : B -> M C) a :
  bind (bind c k) h a = bind c (fun x => bind (k x) h) a.
Proof. unfold bind. by destruct (c a). Qed.
Lemma bind_eq {A B} (c : M A) (k : A -> M B) a x a1 :
  c a = Ret x a1 -> bind c k a = k x a1.
Proof. unfold bind. by intros ->. Qed.

Ltac step :=
  repeat (progress
    rewrite ?bind_gets, ?bind_modify, ?bind_assert_true, ?bind_throw_if_false,
      ?bind_throw_if_true, ?bind_throw, ?bind_ret).

Ltac monad_inv_throw :=
  repeat (match goal with
  | H : bind _ _ _ = Ret _ _ |- _ => apply bind_Ret in H as (? & ? & ? & ?)
  | H : bind _ _ _ = Throw _ _ |- _ =>
      apply bind_Throw in H as [? | (? & ? & ? & ?)]
  | H : realm_assert _ _ = Ret _ _ |- _ => apply realm_assert_Ret in H as [? ?]
  | H : realm_assert _ _ = Throw _ _ |- _ =>
      exfalso; exact (realm_assert_Throw _ _ _ _ H)
  | H : throw_if _ _ _ = Ret _ _ |- _ => apply throw_if_Ret in H as [? ?]
  | H : throw_if _ _ _ = Throw _ _ |- _ =>
      apply throw_if_Throw in H as (? & ? & ?)
  | H : modify _ _ = _ |- _ => unfold modify in H
  | H : gets _ _ = _ |- _ => unfold gets in H
  | H : ret _ _ = _ |- _ => unfold ret in H
  | H : throw _ _ = _ |- _ => unfold throw in H
  | H : (if ?c then _ else _) _ = _ |- _ => destruct c eqn:?
  | H : (match ?c with Some _ => _ | None => _ end) _ = _ |- _ =>
      destruct c eqn:?
  end; simplify_eq).

(** Reads of a file that was extended or had one byte overwritten. *)
Lemma peek_app_l (l1 l2 : list byte) (i : Z) :
  0 <= i < buf_size l1 -> peek (l1 ++ l2) i = peek l1 i.
Proof.
  unfold buf_size. intros Hi. apply peek_ext. apply lookup_app_l. lia.
Qed.

Lemma read_u64_app_l (l1 l2 : list byte) (off : Z) :
  0 <= off -> off + 8 <= buf_size l1 ->
  read_u64 (l1 ++ l2) off = read_u64 l1 off.
Proof.
  unfold buf_size. intros H0 Hi. apply read_u64_ext. intros k Hk.
  apply lookup_app_l. lia.
Qed.

Lemma peek_write_byte (data : list byte) (off v i : Z) :
  0 <= off < buf_size data -> 0 <= i ->
  peek (write_byte data off v) i = if i =? off then v mod 256 else peek data i.
Proof.
  unfold buf_size. intros Hoff Hi. unfold peek, get_byte, write_byte.
  destruct (i <? 0) eqn:E; [lia |].
  rewrite splice_lookup by (simpl; lia). simpl.
  destruct (i =? off) eqn:Eo; bool_hyps.
  - subst. case_decide; [| lia]. rewrite Nat.sub_diag. simpl.
    apply byte_val_of.
  - case_decide; [lia | done].
Qed.

Lemma read_u64_write_byte (data : list byte) (off v pos : Z) :
  0 <= off < buf_size data -> 0 <= pos -> (pos + 8 <= off \/ off < pos) ->
  read_u64 (write_byte data off v) pos = read_u64 data pos.
Proof.
  unfold buf_size. intros Hoff Hp Hd. apply read_u64_ext. intros k Hk.
  unfold write_byte. rewrite splice_lookup by (simpl; lia). simpl.
  case_decide; [lia | done].
Qed.

Lemma buf_size_write_byte (data : list byte) (off v : Z) :
  buf_size (write_byte data off v) = buf_size data.
Proof. apply buf_size_splice. Qed.

Section AttachFile.

Context `{ext : Externals}.

Local Open Scope alloc_scope.

(** [validate_buffer] touches nothing but the streaming flag. *)
Lemma validate_buffer_frame data shared a :
  holds_after (fun a' => a' = a \/ a' = with_streaming true a)
    (validate_buffer data shared a).
Proof.
  pose proof (validate_buffer_cases data shared a) as Hc. cbv zeta in Hc.
  unfold finish_cases in Hc.
  decompose [and or] Hc;
    match goal with H : validate_buffer _ _ _ = _ |- _ => rewrite H end;
    simpl; auto.
Qed.

Lemma attach_file_throws f a e a' :
  attach_file f a = Throw e a' ->
  m_attach_mode a = attach_None /\ exists b, a' = with_streaming b a.
Proof.
  intros H. unfold attach_file in H.
  apply bind_Throw in H as [H | (a0 & a1 & H0 & H)]; [discriminate H |].
  unfold gets, id in H0. injection H0 as <- <-.
  apply bind_Throw in H as [H | ([] & a2 & H0 & H)];
    [by apply realm_assert_Throw in H |].
  apply realm_assert_Ret in H0 as [Hd ->].
  assert (Hmode : m_attach_mode a = attach_None).
  { unfold is_attached in Hd. apply negb_true_iff, negb_false_iff in Hd.
    by apply bool_decide_eq_true in Hd. }
  split; [done |].
  monad_inv_throw;
    repeat match goal with
    | H : validate_buffer ?d ?s ?a = _ |- _ =>
        let F := fresh in
        pose proof (validate_buffer_frame d s a) as F; rewrite H in F;
        simpl in F; clear H; destruct F; subst
    end;
    match goal with
    | |- exists b, ?x = with_streaming b ?y =>
        exists (m_file_on_streaming_form x); destruct y; reflexivity
    end.
Qed.

Lemma attach_buffer_throws data a e a' :
  attach_buffer data a = Throw e a' ->
  m_attach_mode a = attach_None /\ exists b, a' = with_streaming b a.
Proof.
  intros H. unfold attach_buffer in H.
  apply bind_Throw in H as [H | (a0 & a1 & H0 & H)]; [discriminate H |].
  unfold gets, id in H0. injection H0 as <- <-.
  apply bind_Throw in H as [H | ([] & a2 & H0 & H)];
    [by apply realm_assert_Throw in H |].
  apply realm_assert_Ret in H0 as [Hd ->].
  assert (Hmode : m_attach_mode a = attach_None).
  { unfold is_attached in Hd. apply negb_true_iff, negb_false_iff in Hd.
    by apply bool_decide_eq_true in Hd. }
  split; [done |].
  monad_inv_throw;
    repeat match goal with
    | H : validate_buffer ?d ?s ?a = _ |- _ =>
        let F := fresh in
        pose proof (validate_buffer_frame d s a) as F; rewrite H in F;
        simpl in F; clear H; destruct F; subst
    end;
    match goal with
    | |- exists b, ?x = with_streaming b ?y =>
        exists (m_file_on_streaming_form x); destruct y; reflexivity
    end.
Qed.

(** A file in canonical form that passes every check. *)
Lemma validate_buffer_canonical data shared a :
  24 <= buf_size data -> buf_size data mod 8 = 0 -> magic_ok data ->
  format_ok data shared -> ~ streaming_form data ->
  read_u64 data (8 * selected_slot data) mod 8 = 0 ->
  read_u64 data (8 * selected_slot data) < buf_size data ->
  validate_buffer data shared a =
    Ret (read_u64 data (8 * selected_slot data)) a.
Proof.
  intros Hs Hm Hmg Hf Hst Hr Hlt.
  pose proof (validate_buffer_cases data shared a) as Hc. cbv zeta in Hc.
  unfold finish_cases, bad_size in Hc.
  decompose [and or] Hc; try done; try lia.
Qed.

Lemma buf_size_empty_file_header : buf_size empty_file_header = 24.
Proof. reflexivity. Qed.

(** The fields of the header of a new file, before the flags are set. *)
Lemma new_file_fields (zeros : list byte) :
  0 <= library_file_format < 256 ->
  let data := empty_file_header ++ zeros in
  magic_ok data /\ header_flags data = 0 /\
  peek data 20 = library_file_format /\
  peek data 21 = library_file_format /\
  read_u64 data 0 = 0 /\ read_u64 data 8 = 0.
Proof.
  intros Hf data. unfold magic_ok, header_flags, data.
  rewrite !peek_app_l by (rewrite ?buf_size_empty_file_header; lia).
  rewrite !read_u64_app_l by (rewrite ?buf_size_empty_file_header; lia).
  repeat split; try reflexivity.
  - change (peek empty_file_header 20)
      with (byte_val (byte_of library_file_format)).
    rewrite byte_val_of. apply Z.mod_small. lia.
  - change (peek empty_file_header 21)
      with (byte_val (byte_of library_file_format)).
    rewrite byte_val_of. apply Z.mod_small. lia.
Qed.

Lemma created_file_fields (sync : bool) :
  0 <= library_file_format < 256 ->
  let data := created_file sync in
  buf_size data = 4096 /\ magic_ok data /\
  header_flags data = (if sync then 2 else 0) /\
  peek data 20 = library_file_format /\
  read_u64 data 0 = 0 /\ read_u64 data 8 = 0.
Proof.
  intros Hf data. unfold data, created_file.
  set (zeros := replicate _ _).
  destruct (new_file_fields zeros Hf) as ((M0 & M1 & M2 & M3) & Hfl & F0 & F1 & T0 & T1).
  assert (Hsz : buf_size (empty_file_header ++ zeros) = 4096).
  { unfold buf_size. rewrite length_app. unfold zeros.
    rewrite length_replicate. reflexivity. }
  unfold magic_ok, header_flags.
  rewrite buf_size_write_byte, !peek_write_byte, !read_u64_write_byte
    by (rewrite ?Hsz; lia).
  unfold header_flags in Hfl. rewrite Hfl.
  change (16 =? 23) with false. change (17 =? 23) with false.
  change (18 =? 23) with false. change (19 =? 23) with false.
  change (20 =? 23) with false. change (23 =? 23) with true. cbv iota.
  repeat split; try done.
  by destruct sync.
Qed.

Lemma validate_new_file (zeros : list byte) (shared : bool) (a : SlabAlloc) :
  0 <= library_file_format < 256 ->
  buf_size (empty_file_header ++ zeros) = 4096 ->
  validate_buffer (empty_file_header ++ zeros) shared a = Ret 0 a.
Proof.
  intros Hf Hsz.
  destruct (new_file_fields zeros Hf) as (Hm & Hfl & F0 & F1 & T0 & T1).
  unfold header_flags in Hfl.
  assert (Hsel : selected_slot (empty_file_header ++ zeros) = 0)
    by (unfold selected_slot; by rewrite Hfl).
  rewrite validate_buffer_canonical;
    rewrite ?Hsel, ?Z.mul_0_r, ?T0, ?Hsz; try done.
  - unfold format_ok. rewrite Hsel. left. exact F0.
  - unfold streaming_form. rewrite T0. intros [_ ?]. done.
Qed.

Lemma validate_created_file (sync shared : bool) (a : SlabAlloc) :
  0 <= library_file_format < 256 ->
  validate_buffer (created_file sync) shared a = Ret 0 a.
Proof.
  intros Hf.
  destruct (created_file_fields sync Hf) as (Hsz & Hm & Hfl & F0 & T0 & T1).
  unfold header_flags in Hfl.
  assert (Hsel : selected_slot (created_file sync) = 0)
    by (unfold selected_slot; rewrite Hfl; by destruct sync).
  rewrite validate_buffer_canonical;
    rewrite ?Hsel, ?Z.mul_0_r, ?T0, ?Hsz; try done.
  - unfold format_ok. rewrite Hsel. left. exact F0.
  - unfold streaming_form. rewrite T0. intros [_ ?]. done.
Qed.

(** X1.  Creating a file.  When the path holds no file (and creation is
    allowed) or an empty file, and the call is not read-only, [attach_file]
    writes the empty header, extends the file to 4096 bytes, sets the
    server-sync flag as asked, and returns top ref 0; the allocator ends
    attached to the 4096 bytes with the library's file format and the
    free-space state Invalid.  The file it leaves validates. *)
Theorem attach_file_creates (f : FileArgs) (a : SlabAlloc) :
  0 <= library_file_format < 256 ->
  is_attached a = false ->
  read_only f = false ->
  file_contents f = Some [] \/ (file_contents f = None /\ no_create f = false) ->
  let new := created_file (server_sync_mode f) in
  attach_file f a =
    Ret (0, new)
      (mkSlabAlloc (Some (mkBuffer (map_addr f) new)) initial_size
         (if is_shared f then attach_SharedFile else attach_UnsharedFile)
         free_space_Invalid false library_file_format
         (m_slabs a) (m_free_space a) (m_free_read_only a)) /\
  buf_size new = initial_size /\
  header_top_ref new 0 = 0 /\ header_top_ref new 1 = 0 /\
  header_flags new = (if server_sync_mode f then flags_ServerSyncMode else 0) /\
  forall shared b, validate_buffer new shared b = Ret 0 b.
Proof.
  intros Hf Hd Hro Hfile new.
  destruct (created_file_fields (server_sync_mode f) Hf)
    as (Hsz & Hm & Hfl & F0 & T0 & T1).
  split; [| repeat split; try done; intros; by apply validate_created_file].
  assert (Hz : (word_max <=? buf_size []) = false) by done.
  unfold attach_file. step. unfold id. rewrite Hd, Hro, andb_false_r.
  cbv beta iota delta [negb]. step.
  assert (Hc : match file_contents f with
    | Some c => ret c
    | None => if false || no_create f
              then throw FileAccessError else ret []
    end = ret []).
  { destruct Hfile as [-> | [-> Hnc]]; [done |]. by rewrite Hnc. }
  rewrite Hc. clear Hc. step. rewrite ?Hz. step.
  change (buf_size [] =? 0) with true. cbv iota. step.
  rewrite ?bind_assoc. step.
  set (zeros := replicate _ _).
  assert (Hzs : buf_size (empty_file_header ++ zeros) = 4096).
  { unfold buf_size. rewrite length_app. unfold zeros.
    rewrite length_replicate. reflexivity. }
  step.
  rewrite (bind_eq _ _ _ 0 (with_streaming false a))
    by (destruct (skip_validate f); [done | by apply validate_new_file]).
  change (write_byte (empty_file_header ++ zeros) 23 _) with new.
  rewrite bind_assoc.
  assert (Hsync : eqb (server_sync_mode f)
            (has_flag (header_flags new) flags_ServerSyncMode) = true).
  { unfold new. rewrite Hfl. by destruct (server_sync_mode f). }
  rewrite Hsync. step.
  assert (Hfmt : selected_file_format new = library_file_format).
  { unfold selected_file_format, header_file_format, new. rewrite Hfl.
    replace (Z.land (if server_sync_mode f then 2 else 0) flags_SelectBit)
      with 0 by (by destruct (server_sync_mode f)).
    exact F0. }
  rewrite Hfmt. reflexivity.
Qed.

Lemma open_existing_file (f : FileArgs) (contents : list byte)
    (a a1 : SlabAlloc) (top : Z) :
  is_attached a = false ->
  is_shared f && read_only f = false ->
  file_contents f = Some contents ->
  0 < buf_size contents < word_max ->
  (if skip_validate f then ret 0
   else validate_buffer contents (is_shared f)) (with_streaming false a)
    = Ret top a1 ->
  let stored := has_flag (header_flags contents) flags_ServerSyncMode in
  attach_file f a =
    if eqb (server_sync_mode f) stored then
      Ret (top, contents)
        (mkSlabAlloc (Some (mkBuffer (map_addr f) contents))
           (buf_size contents)
           (if is_shared f then attach_SharedFile else attach_UnsharedFile)
           free_space_Invalid (m_file_on_streaming_form a1)
           (selected_file_format contents)
           (m_slabs a) (m_free_space a) (m_free_read_only a))
    else
      Throw (InvalidDatabase (if server_sync_mode f then NotCreatedForSync
                              else RequiresSync)) a1.
Proof.
  intros Hd Hsr Hfile Hsz Hv stored.
  assert (Ha1 : exists b, a1 = with_streaming b a).
  { destruct (skip_validate f).
    - unfold ret in Hv. injection Hv as <- <-. by exists false.
    - pose proof (validate_buffer_frame contents (is_shared f)
                    (with_streaming false a)) as F.
      rewrite Hv in F. simpl in F. destruct F as [-> | ->].
      + by exists false.
      + by exists true. }
  destruct Ha1 as (b & ->).
  unfold attach_file. step. unfold id. rewrite Hd, Hsr, Hfile.
  cbv beta iota delta [negb]. step.
  replace (word_max <=? buf_size contents) with false by (symmetry; lia).
  replace (buf_size contents =? 0) with false by (symmetry; lia).
  step. rewrite (bind_eq _ _ _ _ _ Hv). rewrite bind_assoc.
  fold stored.
  destruct (server_sync_mode f), stored; simpl; step; try reflexivity;
    rewrite bind_assoc; step; reflexivity.
Qed.

(** X2.  Opening a file that exists and is not empty.  Once the header
    checks pass (or are skipped), [attach_file] compares the server-sync bit
    stored in the flags byte with the mode asked for: if they differ it
    throws, leaving the allocator detached; if they agree it returns the top
    ref that validation found, leaves the file as it was, and attaches with
    the baseline at the file size and the file format of the selected slot. *)
Theorem attach_file_existing (f : FileArgs) (contents : list byte)
    (a a1 : SlabAlloc) (top : Z) :
  is_attached a = false ->
  is_shared f && read_only f = false ->
  file_contents f = Some contents ->
  0 < buf_size contents < word_max ->
  (if skip_validate f then ret 0
   else validate_buffer contents (is_shared f)) (with_streaming false a)
    = Ret top a1 ->
  let stored := has_flag (header_flags contents) flags_ServerSyncMode in
  attach_file f a =
    if eqb (server_sync_mode f) stored then
      Ret (top, contents)
        (mkSlabAlloc (Some (mkBuffer (map_addr f) contents))
           (buf_size contents)
           (if is_shared f then attach_SharedFile else attach_UnsharedFile)
           free_space_Invalid (m_file_on_streaming_form a1)
           (selected_file_format contents)
           (m_slabs a) (m_free_space a) (m_free_read_only a))
    else
      Throw (InvalidDatabase (if server_sync_mode f then NotCreatedForSync
                              else RequiresSync)) a1.
Proof. apply open_existing_file. Qed.

(** X3.  Create, then open again.  The file [attach_file] leaves behind
    when it creates one is accepted by a later [attach_file] (shared or
    not, read-only or not, validated or not) exactly when the same
    server-sync mode is asked for; it then yields top ref 0 and leaves the
    file unchanged.  With the other mode the call throws. *)
Theorem attach_file_reopens (sync : bool) (g : FileArgs) (b : SlabAlloc) :
  0 <= library_file_format < 256 ->
  is_attached b = false ->
  is_shared g && read_only g = false ->
  file_contents g = Some (created_file sync) ->
  attach_file g b =
    if eqb (server_sync_mode g) sync then
      Ret (0, created_file sync)
        (mkSlabAlloc (Some (mkBuffer (map_addr g) (created_file sync)))
           initial_size
           (if is_shared g then attach_SharedFile else attach_UnsharedFile)
           free_space_Invalid false library_file_format
           (m_slabs b) (m_free_space b) (m_free_read_only b))
    else
      Throw (InvalidDatabase (if server_sync_mode g then NotCreatedForSync
                              else RequiresSync)) (with_streaming false b).
Proof.
  intros Hf Hd Hsr Hfile.
  destruct (created_file_fields sync Hf) as (Hsz & Hm & Hfl & F0 & T0 & T1).
  assert (Hst : has_flag (header_flags (created_file sync))
                  flags_ServerSyncMode = sync).
  { rewrite Hfl. by destruct sync. }
  assert (Hfmt : selected_file_format (created_file sync) = library_file_format).
  { unfold selected_file_format, header_file_format. rewrite Hfl.
    replace (Z.land (if sync then 2 else 0) flags_SelectBit)
      with 0 by (by destruct sync).
    exact F0. }
  rewrite (open_existing_file g (created_file sync) b
             (with_streaming false b) 0 Hd Hsr Hfile).
  - cbv zeta. rewrite Hst, Hfmt, Hsz. reflexivity.
  - rewrite Hsz. unfold word_max. lia.
  - destruct (skip_validate g); [done |]. by apply validate_created_file.
Qed.

(** X4.  What [attach_file] refuses before it looks at a header: a path
    without a file when the call may not create one, and read-only access
    to an empty file.  The allocator is left exactly as it was. *)
Theorem attach_file_refuses (f : FileArgs) (a : SlabAlloc) :
  is_attached a = false ->
  is_shared f && read_only f = false ->
  (file_contents f = None -> read_only f || no_create f = true ->
   attach_file f a = Throw FileAccessError a) /\
  (file_contents f = Some [] -> read_only f = true ->
   attach_file f a = Throw (InvalidDatabase ReadOnlyEmpty) a).
Proof.
  intros Hd Hsr. split.
  - intros Hfile Hnc. unfold attach_file. step. unfold id.
    rewrite Hd, Hsr, Hfile, Hnc. cbv beta iota delta [negb]. step.
    reflexivity.
  - intros Hfile Hro. unfold attach_file. step. unfold id.
    rewrite Hd, Hsr, Hfile, Hro. cbv beta iota delta [negb]. step.
    change (word_max <=? buf_size []) with false. step.
    change (buf_size [] =? 0) with true. cbv iota.
    rewrite bind_assoc. step. reflexivity.
Qed.

(** X5.  Exception safety of attaching.  When [attach_file] or
    [attach_buffer] throws, the allocator was detached before the call and
    is detached after it; nothing but the streaming flag has changed. *)
Theorem attach_throws_detached (a : SlabAlloc) (e : exn) (a' : SlabAlloc) :
  (forall f, attach_file f a = Throw e a' ->
     is_attached a = false /\ is_attached a' = false /\
     exists b, a' = with_streaming b a) /\
  (forall data, attach_buffer data a = Throw e a' ->
     is_attached a = false /\ is_attached a' = false /\
     exists b, a' = with_streaming b a).
Proof.
  split.
  - intros f H. apply attach_file_throws in H as (Hm & b & ->).
    unfold is_attached. simpl. rewrite Hm. eauto.
  - intros data H. apply attach_buffer_throws in H as (Hm & b & ->).
    unfold is_attached. simpl. rewrite Hm. eauto.
Qed.



End AttachFile.

(** ** Remapping a grown file *)

Lemma slab_ref_of_shift d lo l i :
  (i <= length l)%nat ->
  slab_ref_of (lo + d) (shift_slabs d l) i = slab_ref_of lo l i + d.
Proof.
  intros Hi. destruct i as [|j]; simpl; [done |].
  unfold shift_slabs. rewrite list_lookup_fmap.
  destruct (lookup_lt_is_Some_2 l j) as [s Hs]; [lia |].
  by rewrite Hs.
Qed.

Section Remap.

Context `{ext : Externals}.

(** X7.  [remap] after the file grew.  In a reachable state with the free
    space Clean, [remap] returns whether the mapping moved, sets the baseline
    to the new file size, and moves every slab and its free chunk up by the
    growth [d] of the file, sizes and slab memory unchanged: the total size
    grows by [d], every slab is still wholly free, a mutable ref [r] has
    become [r + d] and translates to the address it had, and every ref
    below the new baseline translates into the new mapping. *)
Theorem remap_moves_slabs (mapping : Buffer) (file_size : Z) (a : SlabAlloc) :
  reachable a -> op_pre (OpRemap mapping file_size) a ->
  let d := file_size - m_baseline a in
  exists a',
    remap mapping file_size a = Ret (negb (base mapping =? data_addr a)) a' /\
    m_baseline a' = file_size /\ m_data a' = Some mapping /\
    m_slabs a' = shift_slabs d (m_slabs a) /\
    m_free_space a' = whole_slabs file_size (m_slabs a') /\
    m_free_space_state a' = free_space_Clean /\
    get_total_size a' = get_total_size a + d /\
    is_all_free a' = true /\
    (forall r, m_baseline a <= r < get_total_size a ->
       translate (r + d) a' = translate r a) /\
    (forall r, 0 <= r < file_size -> translate r a' = Some (base mapping + r)).
Proof.
  intros Hreach Hpre d.
  pose proof (reachable_inv a Hreach) as Hinv.
  pose proof (remap_inv mapping file_size a Hinv Hpre) as Hinv'.
  destruct Hpre as (_ & Hclean & Hle & _ & Hfit).
  destruct (inv_clean a Hinv Hclean) as [Hfr Hfm].
  pose proof (inv_sorted a Hinv) as Hs.
  pose proof (inv_baseline a Hinv) as Hb.
  unfold remap in *. simpl in *. rewrite Hfm in *.
  replace file_size with (m_baseline a + d) in * by lia.
  rewrite rebase_whole in *; [| done | done | lia | | done | done | lia |];
    try (apply Forall_lookup; intros i s Hi;
         pose proof (slabs_sorted_total a i s Hs Hi); lia).
  simpl in Hinv'.
  eexists. split; [reflexivity |]. simpl.
  repeat split; try done.
  - apply (get_total_size_shift d a _ eq_refl).
  - by apply is_all_free_whole.
  - intros r Hr.
    destruct (ref_in_some_slab a r Hinv Hr) as (i & s & Hi & Hri).
    rewrite (translate_in_slab a r i s Hinv Hi Hri).
    rewrite (translate_in_slab _ (r + d) i (mkSlab (addr s) (ref_end s + d)) Hinv').
    + simpl. unfold slab_ref. simpl.
      rewrite slab_ref_of_shift by (apply lookup_lt_Some in Hi; lia).
      f_equal. unfold slab_ref. lia.
    + simpl. unfold shift_slabs. rewrite list_lookup_fmap, Hi. done.
    + unfold slab_ref. simpl.
      rewrite slab_ref_of_shift by (apply lookup_lt_Some in Hi; lia).
      unfold slab_ref in Hri. lia.
  - intros r Hr. unfold translate, do_translate. simpl.
    replace (r <? m_baseline a + d) with true by (symmetry; lia).
    done.
Qed.

End Remap.

(** ** The two ways of [do_alloc] *)

Section AllocCases.

Context `{ext : Externals}.

Implicit Types (a : SlabAlloc) (c : Chunk).

Lemma do_alloc_cases env sz a mem a' :
  alloc_inv a -> alloc_pre a sz ->
  do_alloc env sz a = Ret mem a' ->
  m_free_space_state a <> free_space_Invalid /\
  (from_chunk sz a mem a' \/ from_new_slab env sz a mem a').
Proof.
  intros Hinv Hpre Hret.
  assert (Hst : m_free_space_state a <> free_space_Invalid).
  { intros E. unfold do_alloc in Hret.
    rewrite bool_decide_eq_true_2 in Hret by done. done. }
  split; [done |].
  destruct (rfind_if (fun c => sz <=? size c) (m_free_space a)) as [i|] eqn:Hf.
  - left. destruct (rfind_if_Some _ _ _ Hf) as (c & Hc & Hfit & _).
    apply Z.leb_le in Hfit.
    pose proof (Forall_lookup_1 _ _ _ _ (inv_mutable a Hinv) Hc) as Hokc.
    destruct (mutable_ok_bounds a _ _ Hinv Hokc) as (Hr0 & Hc0 & Hcmax).
    destruct Hpre as (Hsz & _).
    unfold do_alloc in Hret. rewrite bool_decide_eq_false_2 in Hret by done.
    simpl in Hret. rewrite Hf, Hc in Hret.
    rewrite (wrap_small (size c - sz)), (wrap_small (ref c + sz)) in Hret by lia.
    match type of Hret with context [translate (ref c) ?a2] =>
      change (translate (ref c) a2) with (translate (ref c) a) in Hret end.
    destruct (translate (ref c) a) as [q|] eqn:Hq; [| done].
    injection Hret as <- <-. exists i, c. done.
  - right. rewrite do_alloc_grow in Hret by done.
    split; [done |]. cbv zeta in Hret.
    destruct (new_array env) as [p|]; [| done].
    exists p. split; [done |].
    destruct (slabs_push_ok env); simpl in Hret; [| done].
    destruct (0 <? _); [| by simplify_eq].
    destruct (free_space_push_ok env); simpl in Hret; [| done].
    by simplify_eq.
Qed.

End AllocCases.

(** ** Chunks that do not overlap *)

Lemma apart_sym c d :
  apart (ref c) (size c) d -> apart (ref d) (size d) c.
Proof. unfold apart. lia. Qed.

Lemma disjoint_chunks_Permutation l l' :
  l ≡ₚ l' -> disjoint_chunks l -> disjoint_chunks l'.
Proof.
  induction 1 as [|x l l' Hp IH|x y l|l l' l'' _ IH1 _ IH2]; simpl.
  - done.
  - intros [Hx Hl]. split; [by rewrite <- Hp | by apply IH].
  - intros [Hy [Hx Hl]]. apply Forall_cons in Hy as [Hyx Hy].
    split; [| done]. apply Forall_cons. split; [| done].
    by apply (apart_sym y x).
  - auto.
Qed.

Lemma disjoint_chunks_snoc l c :
  disjoint_chunks l -> Forall (fun d => apart (ref d) (size d) c) l ->
  disjoint_chunks (l ++ [c]).
Proof.
  induction l as [|d l IH]; simpl; [done |].
  intros [Hd Hl] Hc. apply Forall_cons in Hc as [Hdc Hc].
  split; [| by apply IH].
  apply Forall_app. split; [done |]. by apply Forall_singleton.
Qed.

Lemma insert_Permutation {A} (l : list A) i x y :
  l !! i = Some x -> <[i := y]> l ≡ₚ y :: delete i l.
Proof.
  intros Hi. rewrite (delete_Permutation (<[i:=y]> l) i y).
  - f_equiv. revert i Hi. induction l as [|z l IH]; intros [|i] Hi; try done.
    simpl. f_equiv. by apply IH.
  - apply list_lookup_insert_eq. by eapply lookup_lt_Some.
Qed.

(** The whole-slab chunks of sorted slabs do not overlap. *)
Lemma whole_slabs_above lo l :
  slabs_sorted lo l -> Forall (fun c => lo <= ref c) (whole_slabs lo l).
Proof.
  revert lo. induction l as [|s l IH]; intros lo; simpl; [done |].
  intros [Hs Hl]. apply Forall_cons. split; [simpl; lia |].
  eapply Forall_impl; [by apply IH |]. simpl. intros c ?. lia.
Qed.

Lemma disjoint_whole_slabs lo l :
  slabs_sorted lo l -> disjoint_chunks (whole_slabs lo l).
Proof.
  revert lo. induction l as [|s l IH]; intros lo; simpl; [done |].
  intros [Hs Hl]. split; [| by apply IH].
  eapply Forall_impl; [by apply whole_slabs_above |].
  unfold apart. simpl. intros c ?. lia.
Qed.

(** ** Adding up the free space *)

Lemma total_size_Permutation l l' : l ≡ₚ l' -> total_size l = total_size l'.
Proof.
  induction 1; simpl; unfold total_size in *; simpl; lia.
Qed.

Lemma total_size_app l l' : total_size (l ++ l') = total_size l + total_size l'.
Proof. induction l; unfold total_size in *; simpl; lia. Qed.

Lemma total_size_insert l i c d :
  l !! i = Some c -> total_size (<[i := d]> l) = total_size l - size c + size d.
Proof.
  intros Hi.
  rewrite (total_size_Permutation _ _ (insert_Permutation l i c d Hi)).
  rewrite (total_size_Permutation _ _ (delete_Permutation l i c Hi)).
  unfold total_size. simpl. lia.
Qed.

Lemma total_size_erase l i c :
  l !! i = Some c -> total_size (erase_move_last i l) = total_size l - size c.
Proof.
  intros Hi.
  rewrite <- (total_size_Permutation _ _ (erase_move_last_Permutation i l c Hi)).
  unfold total_size. simpl. lia.
Qed.

Lemma wrap_wrap_add x y : wrap (wrap x + y) = wrap (x + y).
Proof. unfold wrap. apply Zplus_mod_idemp_l. Qed.

Lemma wrap_sub_wrap x y : wrap (x - wrap y) = wrap (x - y).
Proof. unfold wrap. apply Zminus_mod_idemp_r. Qed.

Lemma wrap_wrap_sub x y : wrap (wrap x - y) = wrap (x - y).
Proof. unfold wrap. apply Zminus_mod_idemp_l. Qed.

Lemma sum_sizes_total acc l :
  wrap (sum_sizes acc l) = wrap (acc + total_size l).
Proof.
  revert acc. induction l as [|c l IH]; intros acc; simpl.
  - unfold total_size. simpl. by rewrite Z.add_0_r.
  - rewrite IH, wrap_wrap_add. unfold total_size. simpl. f_equal. lia.
Qed.

Lemma allocated_for_slabs_total a :
  allocated_for_slabs a = wrap (get_total_size a - m_baseline a).
Proof.
  unfold allocated_for_slabs, get_total_size.
  destruct (last (m_slabs a)); [done |]. by rewrite Z.sub_diag.
Qed.

(** What [print] shows as allocated: the refs of the slabs less the sizes
    of the free chunks, modulo [2^64]. *)
Lemma print_allocated_eq a :
  print_allocated a =
    wrap (get_total_size a - m_baseline a - total_size (m_free_space a)).
Proof.
  unfold print_allocated. rewrite allocated_for_slabs_total.
  rewrite <- wrap_sub_wrap, sum_sizes_total, wrap_sub_wrap. simpl.
  by rewrite wrap_wrap_sub.
Qed.

(** ** What [do_alloc] hands out *)

Section AllocProps.

Context `{ext : Externals}.

Implicit Types (a : SlabAlloc) (c : Chunk).





Lemma do_alloc_allocated env sz a mem a' :
  alloc_inv a -> alloc_pre a sz -> do_alloc env sz a = Ret mem a' ->
  print_allocated a' = wrap (print_allocated a + sz) /\
  get_total_size a <= get_total_size a'.
Proof.
  intros Hinv Hpre Hret.
  rewrite !print_allocated_eq, wrap_wrap_add.
  destruct (do_alloc_cases env sz a mem a' Hinv Hpre Hret) as [Hst [Hc|Hn]].
  - destruct Hc as (i & c & Hf & Hc & Hle & Hm & Htr & ->).
    unfold get_total_size. simpl. split; [| lia]. f_equal.
    destruct (size c - sz =? 0) eqn:Hrest; bool_hyps.
    + rewrite (total_size_erase _ i c Hc). lia.
    + rewrite (total_size_insert _ i c _ Hc). simpl. lia.
  - destruct Hn as (Hf & p & Hnew & -> & Ha'). cbv zeta in Ha'.
    destruct (new_size_bounds a sz Hinv Hpre) as [Hns Hmax].
    set (ns := Z.max (256 * ((sz + 255) / 256)) (2 * last_slab_size a)) in *.
    set (slab := mkSlab _ (get_total_size a + ns)) in *.
    assert (Ht : forall x, m_slabs x = m_slabs a ++ [slab] ->
                   get_total_size x = get_total_size a + ns).
    { intros x Hx. unfold get_total_size at 1. by rewrite Hx, last_snoc. }
    pose proof (proj1 Hpre) as Hsz.
    destruct (0 <? ns - sz) eqn:Hun; bool_hyps; subst a'.
    + rewrite Ht by done. simpl. rewrite total_size_app.
      unfold total_size at 2. simpl.
      split; [f_equal; lia | lia].
    + rewrite Ht by done. simpl. split; [f_equal; lia | lia].
Qed.

(** X10.  Every returning [do_alloc] raises the "Allocated" figure of
    [print] by the size asked for (modulo [2^64], as [print] computes it),
    and never lowers the total size. *)
Theorem alloc_accounting env sz a mem a' :
  reachable a -> alloc_pre a sz -> do_alloc env sz a = Ret mem a' ->
  print_allocated a' = wrap (print_allocated a + sz) /\
  get_total_size a <= get_total_size a'.
Proof.
  intros Hreach. apply do_alloc_allocated. by apply reachable_inv.
Qed.

End AllocProps.

(** ** What [do_free] does to the free list, as a multiset *)

Section CoalesceMultiset.

Variables (slabs : list Slab) (ok : Z -> Z -> Prop).

Hypothesis ok_bounds : forall x n, ok x n -> 0 <= x /\ 0 < n /\ x + n < word_max.
Hypothesis ok_join : forall x n m,
  ok x n -> ok (x + n) m -> find_if (SlabRefEndEq (x + n)) slabs = None ->
  ok x (n + m).

(** Either nothing is adjacent and the list is untouched, or the block is
    united with the chunk after it, the chunk before it, or both. *)
Lemma coalesce_multiset r sz fs :
  ok r sz -> Forall (chunk_in ok) fs ->
  let res := coalesce slabs r sz fs in
  res = (fs, true) \/
  (res.2 = false /\
   ((exists c rest, fs ≡ₚ c :: rest /\ ref c = r + sz /\
       res.1 ≡ₚ mkChunk r (sz + size c) :: rest) \/
    (exists p rest, fs ≡ₚ p :: rest /\ ref p + size p = r /\
       res.1 ≡ₚ mkChunk (ref p) (size p + sz) :: rest) \/
    (exists c p rest, fs ≡ₚ c :: p :: rest /\ ref c = r + sz /\
       ref p + size p = r /\
       res.1 ≡ₚ mkChunk (ref p) (size p + sz + size c) :: rest))).
Proof.
  intros Hblock Hfs. cbv zeta. unfold coalesce.
  destruct (ok_bounds _ _ Hblock) as (Hr0 & Hsz0 & Hrsz).
  rewrite (wrap_small (r + sz)) by lia.
  (* the successor *)
  set (succ := match find_if (ChunkRefEq (r + sz)) fs with
               | Some i =>
                   match find_if (SlabRefEndEq (r + sz)) slabs, fs !! i with
                   | None, Some c =>
                       (<[i := mkChunk r (wrap (size c + sz))]> fs, Some i)
                   | _, _ => (fs, None)
                   end
               | None => (fs, None)
               end).
  assert (Hsucc : match succ.2 with
                  | Some i => exists c, fs !! i = Some c /\ ref c = r + sz /\
                      ok r (sz + size c) /\
                      succ.1 = <[i := mkChunk r (sz + size c)]> fs
                  | None => succ.1 = fs
                  end).
  { unfold succ.
    destruct (find_if (ChunkRefEq (r + sz)) fs) as [i|] eqn:Hfi; [| done].
    destruct (find_if_Some _ _ _ Hfi) as (c & Hc & Hrc & _).
    unfold ChunkRefEq in Hrc. apply Z.eqb_eq in Hrc.
    destruct (find_if (SlabRefEndEq (r + sz)) slabs) eqn:Hsl; [done |].
    rewrite Hc. simpl.
    assert (Hokc : chunk_in ok c) by (eapply Forall_lookup_1; eauto).
    unfold chunk_in in Hokc. rewrite Hrc in Hokc.
    pose proof (ok_join _ _ _ Hblock Hokc Hsl) as Hj.
    destruct (ok_bounds _ _ Hj) as (_ & _ & Hb).
    destruct (ok_bounds _ _ Hokc) as (_ & Hc0 & _).
    rewrite wrap_small by lia.
    rewrite (Z.add_comm (size c) sz). exists c. done. }
  clearbody succ. destruct succ as [fs1 merged_with]. simpl in Hsucc.
  (* the predecessor *)
  set (pred := match find_if (SlabRefEndEq r) slabs with
               | None => find_if (ChunkRefEndEq r) fs1
               | Some _ => None
               end).
  assert (Hpred : match pred with
                  | Some k => exists p, fs1 !! k = Some p /\
                                wrap (ref p + size p) = r /\
                                find_if (SlabRefEndEq r) slabs = None
                  | None => True
                  end).
  { unfold pred. destruct (find_if (SlabRefEndEq r) slabs) eqn:Hsl; [done |].
    destruct (find_if (ChunkRefEndEq r) fs1) as [k|] eqn:Hfk; [| done].
    destruct (find_if_Some _ _ _ Hfk) as (p & Hp & Hrp & _).
    exists p. unfold ChunkRefEndEq in Hrp. apply Z.eqb_eq in Hrp. done. }
  clearbody pred. destruct pred as [k|].
  - destruct Hpred as (p & Hp & Hend & Hsl). right.
    destruct merged_with as [i|]; simpl.
    + destruct Hsucc as (c & Hc & Hrc & Hokm & ->).
      destruct (ok_bounds _ _ Hokm) as (_ & _ & Hmb).
      assert (Hokc : chunk_in ok c) by (eapply Forall_lookup_1; eauto).
      destruct (ok_bounds _ _ Hokc) as (_ & Hc0 & _).
      assert (Hki : k <> i).
      { intros ->.
        rewrite list_lookup_insert_eq in Hp by (by eapply lookup_lt_Some).
        injection Hp as <-. simpl in Hend. rewrite wrap_small in Hend by lia.
        lia. }
      rewrite list_lookup_insert_ne in Hp by done.
      assert (Hokp : chunk_in ok p) by (eapply Forall_lookup_1; eauto).
      destruct (ok_bounds _ _ Hokp) as (Hp0 & Hps & Hpb).
      rewrite wrap_small in Hend by lia.
      unfold chunk_in in Hokp. rewrite <- Hend in Hokm, Hsl.
      pose proof (ok_join _ _ _ Hokp Hokm Hsl) as Hj.
      destruct (ok_bounds _ _ Hj) as (_ & _ & Hjb).
      rewrite list_lookup_insert_eq by (by eapply lookup_lt_Some). simpl.
      split; [done |]. right. right.
      destruct (two_positions fs i k c p Hc Hp (not_eq_sym Hki))
        as (rest & Hperm & Hins).
      exists c, p, rest. split; [done |]. split; [lia |]. split; [done |].
      rewrite (list_alter_insert _ _ _ p)
        by (by rewrite list_lookup_insert_ne).
      unfold add_size. simpl. rewrite wrap_small by lia.
      set (merged := mkChunk r (sz + size c)).
      set (merged2 := mkChunk (ref p) (size p + (sz + size c))).
      apply (Permutation_cons_inv (a := merged)).
      rewrite (erase_move_last_Permutation i _ merged).
      * rewrite (Hins merged merged2). do 2 f_equiv.
        unfold merged2. f_equal. lia.
      * rewrite list_lookup_insert_ne by done.
        apply list_lookup_insert_eq. by eapply lookup_lt_Some.
    + subst fs1. split; [done |]. right. left.
      assert (Hokp : chunk_in ok p) by (eapply Forall_lookup_1; eauto).
      destruct (ok_bounds _ _ Hokp) as (Hp0 & Hps & Hpb).
      rewrite wrap_small in Hend by lia.
      unfold chunk_in in Hokp. rewrite <- Hend in Hblock, Hsl.
      pose proof (ok_join _ _ _ Hokp Hblock Hsl) as Hj.
      destruct (ok_bounds _ _ Hj) as (_ & _ & Hjb).
      exists p, (delete k fs). split; [by apply delete_Permutation |].
      split; [done |].
      rewrite (list_alter_insert _ _ _ p Hp). unfold add_size. simpl.
      rewrite wrap_small by lia. by apply (insert_Permutation _ _ p).
  - destruct merged_with as [i|]; simpl.
    + right. split; [done |]. left.
      destruct Hsucc as (c & Hc & Hrc & Hokm & ->).
      exists c, (delete i fs). split; [by apply delete_Permutation |].
      split; [done |]. by apply (insert_Permutation _ _ c).
    + left. by subst fs1.
Qed.

Lemma coalesce_total r sz fs :
  ok r sz -> Forall (chunk_in ok) fs ->
  let res := coalesce slabs r sz fs in
  total_size res.1 = total_size fs + (if res.2 then 0 else sz).
Proof.
  intros Hb Hfs. cbv zeta.
  destruct (coalesce_multiset r sz fs Hb Hfs) as [->|[-> H]]; simpl; [lia |].
  destruct H as [(c & rest & Hp & _ & Hres)|[(p & rest & Hp & _ & Hres)|
                 (c & p & rest & Hp & _ & _ & Hres)]];
    rewrite (total_size_Permutation _ _ Hp), (total_size_Permutation _ _ Hres);
    unfold total_size; simpl; lia.
Qed.

Lemma coalesce_disjoint r sz fs :
  ok r sz -> Forall (chunk_in ok) fs ->
  disjoint_chunks fs -> Forall (apart r sz) fs ->
  let res := coalesce slabs r sz fs in
  disjoint_chunks (if res.2 then res.1 ++ [mkChunk r sz] else res.1).
Proof.
  intros Hb Hfs Hdis Hap. cbv zeta.
  destruct (ok_bounds _ _ Hb) as (Hr0 & Hsz0 & Hrsz).
  assert (Hpos : Forall (fun d => 0 < size d) fs).
  { eapply Forall_impl; [exact Hfs |]. intros d Hd.
    by destruct (ok_bounds _ _ Hd) as (_ & ? & _). }
  destruct (coalesce_multiset r sz fs Hb Hfs) as [->|[-> H]]; simpl.
  - apply disjoint_chunks_snoc; [done |].
    eapply Forall_impl; [exact Hap |]. unfold apart. simpl. intros d. lia.
  - destruct H as [(c & rest & Hp & Hc & Hres)|[(p & rest & Hp & Hc & Hres)|
                   (c & p & rest & Hp & Hc & Hc' & Hres)]];
      apply (disjoint_chunks_Permutation _ _ (symmetry Hres));
      pose proof (disjoint_chunks_Permutation _ _ Hp Hdis) as Hd;
      rewrite Hp in Hap, Hpos; simpl in *.
    + destruct Hd as [Hd1 Hd2]. split; [| done].
      apply Forall_cons in Hap as [Hac Hap].
      apply Forall_cons in Hpos as [Hpc Hpos].
      apply Forall_forall. intros d Hd.
      pose proof (proj1 (Forall_forall _ _) Hd1 d Hd).
      pose proof (proj1 (Forall_forall _ _) Hap d Hd).
      pose proof (proj1 (Forall_forall _ _) Hpos d Hd).
      unfold apart in *. simpl in *. lia.
    + destruct Hd as [Hd1 Hd2]. split; [| done].
      apply Forall_cons in Hap as [Hac Hap].
      apply Forall_cons in Hpos as [Hpc Hpos].
      apply Forall_forall. intros d Hd.
      pose proof (proj1 (Forall_forall _ _) Hd1 d Hd).
      pose proof (proj1 (Forall_forall _ _) Hap d Hd).
      pose proof (proj1 (Forall_forall _ _) Hpos d Hd).
      unfold apart in *. simpl in *. lia.
    + destruct Hd as [Hd1 [Hd2 Hd3]]. split; [| done].
      apply Forall_cons in Hd1 as [_ Hd1].
      apply Forall_cons in Hap as [_ Hap]. apply Forall_cons in Hap as [_ Hap].
      apply Forall_cons in Hpos as [Hpc Hpos].
      apply Forall_cons in Hpos as [Hpp Hpos].
      apply Forall_forall. intros d Hd.
      pose proof (proj1 (Forall_forall _ _) Hd1 d Hd).
      pose proof (proj1 (Forall_forall _ _) Hd2 d Hd).
      pose proof (proj1 (Forall_forall _ _) Hap d Hd).
      pose proof (proj1 (Forall_forall _ _) Hpos d Hd).
      unfold apart in *. simpl in *. lia.
Qed.

End CoalesceMultiset.

Section FreeProps.

Context `{ext : Externals}.

Implicit Types (a : SlabAlloc) (c : Chunk).

(** What a returning [do_free] of a mutable block leaves. *)
Lemma do_free_mutable push_ok r p a a' :
  is_read_only a r = false -> do_free push_ok r p a = Some a' ->
  translate r a = Some p /\
  ((m_free_space_state a = free_space_Invalid /\ a' = a) \/
   (m_free_space_state a = free_space_Dirty /\
    let res := coalesce (m_slabs a) r (freed_size r a) (m_free_space a) in
    let a1 := with_free_space_state free_space_Dirty a in
    a' = if res.2 then
           if push_ok
           then with_free_space (res.1 ++ [mkChunk r (freed_size r a)]) a1
           else with_free_space_state free_space_Invalid
                  (with_free_space res.1 a1)
         else with_free_space res.1 a1)).
Proof.
  intros Hro Hfree. unfold do_free in Hfree. rewrite Hro in Hfree.
  case_bool_decide as Htr; [| done]. split; [done |]. simpl in Hfree.
  case_bool_decide as Hinv; [left; by simplify_eq |].
  case_bool_decide as Hd; [| done]. right. split; [done |].
  simpl in Hfree. cbv zeta.
  destruct (coalesce _ _ _ _) as [fs append]. simpl.
  destruct append; [destruct push_ok |]; by simplify_eq.
Qed.

(** X11.  A returning [do_free] of a mutable block that was recorded (the
    free-space state is not Invalid afterwards) lowers the "Allocated"
    figure of [print] by the size of the block, whether the block was
    merged with its neighbours or appended; the total size is unchanged. *)
Theorem free_accounting push_ok r p a a' :
  reachable a -> block_ok a r (freed_size r a) ->
  is_read_only a r = false ->
  do_free push_ok r p a = Some a' ->
  m_free_space_state a' <> free_space_Invalid ->
  print_allocated a' = wrap (print_allocated a - freed_size r a) /\
  get_total_size a' = get_total_size a.
Proof.
  intros Hreach Hblock Hro Hfree Hst.
  pose proof (reachable_inv a Hreach) as Hinv.
  pose proof (block_ok_read_only a r _ Hinv Hblock) as Hb. rewrite Hro in Hb.
  destruct (do_free_mutable push_ok r p a a' Hro Hfree)
    as (_ & [[Hi ->]|[Hd Ha']]); [done |].
  cbv zeta in Ha'.
  pose proof (coalesce_total (m_slabs a) (fun x n => 0 < n /\ in_slab a x (x + n))
                (fun x n => mutable_ok_bounds a x n Hinv)
                (fun x n m H1 H2 H3 => mutable_ok_join a x n m Hinv H1 H2 H3)
                r (freed_size r a) (m_free_space a) Hb (inv_mutable a Hinv))
    as Htot.
  cbv zeta in Htot. rewrite !print_allocated_eq, wrap_wrap_sub.
  destruct (coalesce _ _ _ _) as [fs append]. simpl in *.
  destruct append; [destruct push_ok |]; subst a'; simpl in *; try done.
  - unfold get_total_size. simpl. split; [| done].
    rewrite total_size_app. unfold total_size at 2. simpl. f_equal. lia.
  - unfold get_total_size. simpl. split; [| done]. f_equal. lia.
Qed.

(** X12.  Freeing a mutable block that overlaps no free chunk keeps the
    chunks of the free list from overlapping, whether the block is merged
    or appended. *)
Theorem do_free_keeps_chunks_apart push_ok r p a a' :
  reachable a -> block_ok a r (freed_size r a) ->
  is_read_only a r = false ->
  disjoint_chunks (m_free_space a) ->
  Forall (apart r (freed_size r a)) (m_free_space a) ->
  do_free push_ok r p a = Some a' ->
  disjoint_chunks (m_free_space a').
Proof.
  intros Hreach Hblock Hro Hdis Hap Hfree.
  pose proof (reachable_inv a Hreach) as Hinv.
  pose proof (block_ok_read_only a r _ Hinv Hblock) as Hb. rewrite Hro in Hb.
  destruct (do_free_mutable push_ok r p a a' Hro Hfree)
    as (_ & [[Hi ->]|[Hd Ha']]); [done |].
  cbv zeta in Ha'.
  pose proof (coalesce_disjoint (m_slabs a) (fun x n => 0 < n /\ in_slab a x (x + n))
                (fun x n => mutable_ok_bounds a x n Hinv)
                (fun x n m H1 H2 H3 => mutable_ok_join a x n m Hinv H1 H2 H3)
                r (freed_size r a) (m_free_space a) Hb (inv_mutable a Hinv)
                Hdis Hap) as Hd'.
  cbv zeta in Hd'.
  pose proof (coalesce_append (m_slabs a) r (freed_size r a) (m_free_space a))
    as Happ.
  destruct (coalesce _ _ _ _) as [fs append]. simpl in *.
  destruct append; [destruct push_ok |]; subst a'; simpl; try done.
  by rewrite Happ.
Qed.

End FreeProps.

(** ** What [is_all_free] decides *)

Lemma whole_slabs_NoDup lo l : slabs_sorted lo l -> NoDup (whole_slabs lo l).
Proof.
  revert lo. induction l as [|s l IH]; intros lo; simpl; [constructor |].
  intros [Hs Hl]. constructor; [| by apply IH].
  intros Hin.
  pose proof (proj1 (Forall_forall _ _) (whole_slabs_above _ _ Hl) _ Hin) as H.
  simpl in H. lia.
Qed.

Lemma total_size_whole_slabs lo l :
  total_size (whole_slabs lo l) = slab_ref_of lo l (length l) - lo.
Proof.
  revert lo. induction l as [|s l IH]; intros lo; [simpl; unfold total_size; simpl; lia |].
  cbn [whole_slabs length]. rewrite slab_ref_of_cons.
  unfold total_size in *. simpl. rewrite IH. lia.
Qed.

(** Every slab that passes the loop of [is_all_free] has its whole chunk
    in the free list. *)
Lemma slabs_all_free_elem fs lo l :
  slabs_sorted lo l -> 0 <= lo -> Forall (fun s => ref_end s < word_max) l ->
  slabs_all_free fs l lo = true ->
  forall c, c ∈ whole_slabs lo l -> c ∈ fs.
Proof.
  revert lo. induction l as [|s l IH]; intros lo Hs Hlo Hmax Hall c Hc;
    [by apply elem_of_nil in Hc |].
  destruct Hs as [Hs Hl]. apply Forall_cons in Hmax as [Hsm Hmax].
  cbn [slabs_all_free] in Hall. rewrite wrap_small in Hall by lia.
  destruct (find_if (ChunkRefEq lo) fs) as [i|] eqn:Hf; [| done].
  destruct (find_if_Some _ _ _ Hf) as (x & Hx & Hrx & _).
  rewrite Hx in Hall. unfold ChunkRefEq in Hrx. apply Z.eqb_eq in Hrx.
  destruct (ref_end s - lo =? size x) eqn:Hsz; [| done]. simpl in Hall.
  apply Z.eqb_eq in Hsz.
  cbn [whole_slabs] in Hc. apply elem_of_cons in Hc as [->|Hc].
  - apply list_elem_of_lookup_2 in Hx. destruct x as [xr xs]. simpl in *.
    by subst.
  - apply (IH (ref_end s)); [done | lia | done | done | done].
Qed.

Lemma slabs_all_free_perm lo l fs (front rest : list Slab) :
  slabs_sorted lo l -> 0 <= lo -> Forall (fun s => ref_end s < word_max) l ->
  fs ≡ₚ whole_slabs lo l -> l = front ++ rest ->
  slabs_all_free fs rest (slab_ref_of lo l (length front)) = true.
Proof.
  intros Hs Hlo Hmax Hperm. revert front.
  induction rest as [|x rest IH]; intros front Hl; [done |].
  assert (Hx : l !! length front = Some x)
    by (rewrite Hl; by apply list_lookup_middle).
  destruct (slabs_sorted_lookup _ _ _ _ Hs Hx) as [H1 H2].
  pose proof (proj1 (Forall_lookup _ _) Hmax _ _ Hx) as H3. simpl in H3.
  cbn [slabs_all_free]. rewrite wrap_small by lia.
  set (start := slab_ref_of lo l (length front)) in *.
  assert (Hw : mkChunk start (ref_end x - start) ∈ fs).
  { rewrite Hperm. eapply list_elem_of_lookup_2.
    by apply whole_slabs_lookup_slab. }
  destruct (find_if_is_Some (ChunkRefEq start) fs _ Hw) as [j Hj].
  { unfold ChunkRefEq. simpl. apply Z.eqb_refl. }
  rewrite Hj. destruct (find_if_Some _ _ _ Hj) as (y & Hy & Hry & _).
  rewrite Hy. unfold ChunkRefEq in Hry. apply Z.eqb_eq in Hry.
  assert (Hyw : y ∈ whole_slabs lo l)
    by (rewrite <- Hperm; by eapply list_elem_of_lookup_2).
  apply list_elem_of_lookup_1 in Hyw as [k Hk].
  destruct (whole_slabs_lookup _ _ _ _ Hk) as (t & Ht & ->). simpl in Hry.
  assert (k = length front) as ->.
  { destruct (slabs_sorted_lookup _ _ _ _ Hs Ht) as [H4 H5].
    destruct (Nat.lt_trichotomy k (length front)) as [Hlt|[Heq|Hgt]]; [| done |].
    - pose proof (slabs_sorted_mono lo l k (length front) t Hs Hlt Ht) as H6.
      apply lookup_lt_Some in Hx. unfold start in *. lia.
    - pose proof (slabs_sorted_mono lo l (length front) k x Hs Hgt Hx) as H6.
      apply lookup_lt_Some in Ht. unfold start in *. lia. }
  rewrite Hx in Ht. injection Ht as <-. simpl. fold start.
  rewrite Z.eqb_refl. simpl.
  specialize (IH (front ++ [x])).
  rewrite length_app in IH. simpl in IH.
  replace (length front + 1)%nat with (S (length front)) in IH by lia.
  simpl in IH. rewrite Hx in IH. simpl in IH. apply IH.
  by rewrite <- app_assoc.
Qed.

Lemma is_all_free_Permutation a :
  alloc_inv a ->
  is_all_free a = true <->
  m_free_space a ≡ₚ whole_slabs (m_baseline a) (m_slabs a).
Proof.
  intros Hinv.
  pose proof (inv_sorted a Hinv) as Hs. pose proof (inv_baseline a Hinv) as Hb.
  pose proof (slabs_below_max a Hs (inv_total a Hinv)) as Hmax.
  unfold is_all_free. split.
  - destruct (length (m_free_space a) =? length (m_slabs a))%nat eqn:Hlen;
      [| done].
    simpl. intros Hall. apply Nat.eqb_eq in Hlen. symmetry.
    apply submseteq_length_Permutation.
    + apply NoDup_submseteq; [by apply whole_slabs_NoDup |].
      by apply slabs_all_free_elem.
    + rewrite length_whole_slabs. lia.
  - intros Hperm.
    replace (length (m_free_space a) =? length (m_slabs a))%nat with true.
    + simpl.
      by apply (slabs_all_free_perm (m_baseline a) (m_slabs a) _ []
                  (m_slabs a)).
    + symmetry. apply Nat.eqb_eq. by rewrite Hperm, length_whole_slabs.
Qed.

Lemma all_free_allocated a :
  alloc_inv a -> is_all_free a = true -> print_allocated a = 0.
Proof.
  intros Hinv Hall. apply (is_all_free_Permutation a Hinv) in Hall.
  rewrite print_allocated_eq, (total_size_Permutation _ _ Hall).
  rewrite total_size_whole_slabs. fold (slab_ref a (length (m_slabs a))).
  rewrite <- get_total_size_slab_ref.
  by replace (get_total_size a - m_baseline a -
              (get_total_size a - m_baseline a)) with 0 by lia.
Qed.

Section Leaks.

Context `{ext : Externals}.

(** X13.  On a reachable state, [is_all_free] returns true exactly when
    the free list is a rearrangement of one chunk per slab, each covering
    its slab from its first ref to its [ref_end]. *)
Theorem is_all_free_iff (a : SlabAlloc) :
  reachable a ->
  is_all_free a = true <->
  m_free_space a ≡ₚ whole_slabs (m_baseline a) (m_slabs a).
Proof.
  intros Hreach. apply is_all_free_Permutation. by apply reachable_inv.
Qed.

(** X14.  Leak detection by the destructor of a debug build.  With all
    space free (state Clean) the destructor runs to its end and detaches;
    after one more allocation it stops the process with "SlabAlloc detected
    a leak", unless the allocator is attached to a shared file. *)
Theorem destructor_detects_leak env sz (a : SlabAlloc) mem a' :
  reachable a -> m_free_space_state a = free_space_Clean ->
  m_attach_mode a <> attach_SharedFile ->
  alloc_pre a sz -> do_alloc env sz a = Ret mem a' ->
  destructor a = Some (with_attach_mode attach_None a) /\
  destructor a' = None.
Proof.
  intros Hreach Hclean Hmode Hpre Hret.
  pose proof (reachable_inv a Hreach) as Hinv.
  destruct (inv_clean a Hinv Hclean) as [_ Hfm].
  pose proof (is_all_free_whole a Hinv Hfm) as Hall.
  pose proof Hpre as (Hsz & _ & Hatt & Hfit).
  split.
  - unfold destructor. rewrite Hall, Hatt. simpl. by rewrite andb_false_r.
  - pose proof (do_alloc_inv env sz a Hinv Hpre) as Hinv'.
    rewrite Hret in Hinv'. simpl in Hinv'.
    destruct (do_alloc_allocated env sz a mem a' Hinv Hpre Hret) as [Hacc _].
    rewrite (all_free_allocated a Hinv Hall) in Hacc. simpl in Hacc.
    assert (Hnot : is_all_free a' = false).
    { destruct (is_all_free a') eqn:E; [| done].
      rewrite (all_free_allocated a' Hinv' E) in Hacc.
      pose proof (baseline_le_total a (inv_sorted a Hinv)).
      pose proof (inv_baseline a Hinv).
      unfold alloc_fits in Hfit. rewrite wrap_small in Hacc by lia. lia. }
    destruct (do_alloc_cases env sz a mem a' Hinv Hpre Hret) as [Hst Hc].
    assert (Hsame : m_attach_mode a' = m_attach_mode a /\
                    m_free_space_state a' = free_space_Dirty).
    { destruct Hc as [(i & c & _ & _ & _ & _ & _ & ->)|(_ & p & _ & _ & Ha')].
      - done.
      - cbv zeta in Ha'. destruct (0 <? _); by subst a'. }
    destruct Hsame as [Hm' Hs'].
    unfold destructor, is_attached in *. rewrite Hm', Hs', Hnot, Hatt. simpl.
    rewrite bool_decide_eq_false_2 by done. done.
Qed.

End Leaks.

(** ** Reuse of a freed block *)

Lemma rfind_if_snoc {A} (p : A -> bool) (l : list A) x :
  p x = true -> rfind_if p (l ++ [x]) = Some (length l).
Proof.
  intros Hp. induction l as [|y l IH]; simpl; [by rewrite Hp |].
  by rewrite IH.
Qed.

Lemma erase_move_last_snoc {A} (l : list A) x :
  erase_move_last (length l) (l ++ [x]) = l.
Proof.
  unfold erase_move_last. rewrite last_snoc, length_app. simpl.
  replace (pred (length l + 1)) with (length l) by lia.
  rewrite insert_app_r_alt by lia. rewrite Nat.sub_diag. simpl.
  by rewrite take_app_length.
Qed.

Section Reuse.

Context `{ext : Externals}.

Implicit Types (a : SlabAlloc) (c : Chunk).

(** X15.  Last freed, first reused.  When a freed mutable block had no
    free neighbour to merge with, so that it was appended to the free
    list, the next [do_alloc] of at most its size returns that very block,
    at the same address.  If the sizes agree the allocator is back in the
    state it had before the [do_free]; else the rest of the block stays
    last in the free list. *)
Theorem free_then_alloc_reuses env r p sz a a1 :
  m_free_space_state a = free_space_Dirty ->
  is_read_only a r = false ->
  do_free true r p a = Some a1 ->
  (coalesce (m_slabs a) r (freed_size r a) (m_free_space a)).2 = true ->
  0 < sz <= freed_size r a ->
  do_alloc env sz a1 =
    Ret (mkMemRef p r)
      (if sz =? freed_size r a then a
       else with_free_space
              (m_free_space a ++
               [mkChunk (wrap (r + sz)) (freed_size r a - sz)]) a).
Proof.
  intros Hst Hro Hfree Happ Hsz.
  destruct (do_free_mutable true r p a a1 Hro Hfree)
    as (Htr & [[Hi _]|[_ Ha1]]); [congruence |].
  cbv zeta in Ha1. rewrite Happ in Ha1.
  rewrite (coalesce_append _ _ _ _ Happ) in Ha1.
  set (s := freed_size r a) in *.
  assert (Hs : 0 <= s < word_max) by apply wrap_range.
  assert (Hdirty : with_free_space_state free_space_Dirty a = a).
  { destruct a. simpl in Hst. by subst. }
  rewrite Hdirty in Ha1. subst a1.
  unfold do_alloc. simpl. rewrite Hst.
  rewrite bool_decide_eq_false_2 by done.
  rewrite rfind_if_snoc by (simpl; apply Z.leb_le; lia).
  rewrite list_lookup_middle by done. simpl.
  rewrite (wrap_small (s - sz)) by lia.
  match goal with |- context [translate r ?x] =>
    change (translate r x) with (translate r a) end.
  rewrite Htr.
  destruct (sz =? s) eqn:E; bool_hyps.
  - subst sz. rewrite Z.sub_diag. simpl. rewrite erase_move_last_snoc.
    f_equal. destruct a. simpl in *. by subst.
  - replace (s - sz =? 0) with false by (symmetry; lia).
    rewrite insert_app_r_alt by lia. rewrite Nat.sub_diag. simpl.
    f_equal. destruct a. simpl in *. by subst.
Qed.

End Reuse.

(** ** Merging stops at the end of a slab *)

Section SlabEnds.

Variables (slabs : list Slab) (r sz : Z) (fs : list Chunk).

Hypothesis block_bounds : 0 <= r /\ 0 < sz /\ r + sz < word_max.
Hypothesis chunk_bounds :
  Forall (fun c => 0 <= ref c /\ 0 < size c /\ ref c + size c < word_max) fs.



End SlabEnds.

Section SlabEndsFree.

Context `{ext : Externals}.

Implicit Types (a : SlabAlloc) (c : Chunk).


End SlabEndsFree.

(** ** What the operations do to the slabs *)

Section Frames.

Context `{ext : Externals}.

Implicit Types (a : SlabAlloc) (c : Chunk).

(** [do_alloc] leaves the slabs alone or appends one, zero-filled, at the
    end of the refs; this holds when it throws as well. *)
Lemma do_alloc_slabs env sz a :
  alloc_inv a -> alloc_pre a sz ->
  holds_after
    (fun a' =>
       m_baseline a' = m_baseline a /\ m_data a' = m_data a /\
       (m_slabs a' = m_slabs a \/
        exists p ns, sz <= ns /\
          m_slabs a' =
            m_slabs a ++ [mkSlab (mkBuffer p (replicate (Z.to_nat ns) x00))
                            (get_total_size a + ns)]))
    (do_alloc env sz a).
Proof.
  intros Hinv Hpre.
  destruct (decide (m_free_space_state a = free_space_Invalid)) as [Hst|Hst].
  { unfold do_alloc. rewrite bool_decide_eq_true_2 by done. simpl. auto. }
  destruct (rfind_if (fun c => sz <=? size c) (m_free_space a)) as [i|] eqn:Hf.
  - unfold do_alloc. rewrite bool_decide_eq_false_2 by done. simpl.
    rewrite Hf. destruct (m_free_space a !! i); [| done].
    destruct (translate _ _); simpl; auto.
  - rewrite do_alloc_grow by done. cbv zeta.
    destruct (new_size_bounds a sz Hinv Hpre) as [Hns _].
    destruct (new_array env) as [p|]; simpl; [| auto].
    destruct (slabs_push_ok env); simpl; [| auto].
    destruct (0 <? _); [destruct (free_space_push_ok env) |]; simpl;
      (split; [done |]; split; [done |]; right; eexists _, _; split;
       [exact Hns | reflexivity]).
Qed.

Lemma do_free_slabs push_ok r p a a' :
  do_free push_ok r p a = Some a' ->
  m_baseline a' = m_baseline a /\ m_data a' = m_data a /\
  m_slabs a' = m_slabs a.
Proof.
  unfold do_free. intros H.
  repeat (case_match; simplify_eq; simpl; try done).
Qed.

Lemma reset_slabs pushes a :
  holds_after (fun a' => m_baseline a' = m_baseline a /\
                         m_data a' = m_data a /\ m_slabs a' = m_slabs a)
    (reset_free_space_tracking pushes a).
Proof.
  unfold reset_free_space_tracking. case_bool_decide; [done |].
  destruct (rebuild_free_space _ _ _ _) as [l []]; done.
Qed.

Lemma store_baseline r bs a : m_baseline (store r bs a) = m_baseline a.
Proof. unfold store. by destruct (m_slabs a !! _). Qed.

(** The total size never goes down. *)
Lemma run_total op a :
  alloc_inv a -> op_pre op a ->
  holds_after (fun a' => get_total_size a <= get_total_size a') (run op a).
Proof.
  intros Hinv Hpre.
  assert (Hal : forall env sz, alloc_pre a sz ->
    holds_after (fun a' => get_total_size a <= get_total_size a')
      (do_alloc env sz a)).
  { intros env sz Hp. pose proof (do_alloc_slabs env sz a Hinv Hp) as H.
    destruct (do_alloc env sz a) as [m a'|e a'|]; simpl in *; [| | done].
    - destruct H as (Hb & _ & [Hs|(p & ns & Hns & Hs)]);
        unfold get_total_size; rewrite Hs, Hb, ?last_snoc; simpl; [lia |].
      destruct Hp as (? & _). fold (get_total_size a). lia.
    - destruct H as (Hb & _ & [Hs|(p & ns & Hns & Hs)]);
        unfold get_total_size; rewrite Hs, Hb, ?last_snoc; simpl; [lia |].
      destruct Hp as (? & _). fold (get_total_size a). lia. }
  destruct op; simpl.
  - specialize (Hal env sz Hpre). unfold bind.
    by destruct (do_alloc env sz a).
  - destruct (do_free push_ok r p a) as [a'|] eqn:Hf; simpl; [| done].
    destruct (do_free_slabs _ _ _ _ _ Hf) as (Hb & _ & Hs).
    unfold get_total_size. rewrite Hs, Hb. lia.
  - destruct Hpre as [Hpre _]. specialize (Hal env new_size Hpre).
    unfold do_realloc, bind.
    destruct (do_alloc env new_size a) as [m a1|e a1|]; simpl in *;
      [| done | done].
    unfold gets, modify. set (a2 := store _ _ a1).
    assert (Ht2 : get_total_size a2 = get_total_size a1).
    { apply same_ends_total; [apply store_baseline | apply store_same_ends]. }
    destruct (do_free push_ok r p a2) as [a3|] eqn:Hf; simpl; [| done].
    destruct (do_free_slabs _ _ _ _ _ Hf) as (Hb & _ & Hs).
    unfold ret. simpl. unfold get_total_size in *. rewrite Hs, Hb. lia.
  - pose proof (reset_slabs pushes a) as H.
    destruct (reset_free_space_tracking pushes a); simpl in *; [| | done];
      destruct H as (Hb & _ & Hs); unfold get_total_size; rewrite Hs, Hb; lia.
  - destruct Hpre as (_ & Hclean & Hle & _ & Hfit).
    destruct (inv_clean a Hinv Hclean) as [Hfr Hfm].
    unfold remap, bind. simpl. rewrite Hfm.
    set (d := file_size - m_baseline a).
    replace file_size with (m_baseline a + d) by lia.
    rewrite rebase_whole;
      [| apply (inv_sorted a Hinv) | apply (inv_baseline a Hinv) | lia |].
    + simpl.
      pose proof (get_total_size_shift d a _ eq_refl) as Ht.
      unfold get_total_size in *. simpl in *. lia.
    + apply Forall_lookup. intros i s Hi.
      pose proof (slabs_sorted_total a i s (inv_sorted a Hinv) Hi). lia.
  - unfold modify. simpl.
    rewrite (same_ends_total a (store r bs a));
      [lia | apply store_baseline | apply store_same_ends].
Qed.

(** X17.  The refs never shrink: whatever operation is run on a reachable
    state, and whether it returns or throws, the total size afterwards is
    at least the total size before. *)
Theorem total_size_never_shrinks (op : Op) (a : SlabAlloc) :
  reachable a -> op_pre op a ->
  holds_after (fun a' => get_total_size a <= get_total_size a') (run op a).
Proof.
  intros Hreach. apply run_total. by apply reachable_inv.
Qed.

(** X18.  A [reset_free_space_tracking] that runs out of memory.  When
    fewer [push_back] calls succeed than there are slabs, the call throws
    [bad_alloc]; it leaves the read-only free list empty, the mutable free
    list with the whole chunks of the slabs it got to, and the free-space
    state as it was, so that a later call with enough memory rebuilds the
    whole list and ends in state Clean. *)
Theorem reset_out_of_memory (pushes : nat) (a : SlabAlloc) :
  reachable a -> m_free_space_state a <> free_space_Clean ->
  (pushes < length (m_slabs a))%nat ->
  let whole := whole_slabs (m_baseline a) (m_slabs a) in
  exists a',
    reset_free_space_tracking pushes a = Throw bad_alloc a' /\
    m_free_space a' = take pushes whole /\ m_free_read_only a' = [] /\
    m_free_space_state a' = m_free_space_state a /\
    m_slabs a' = m_slabs a /\
    forall enough, (length (m_slabs a) <= enough)%nat ->
      exists a'',
        reset_free_space_tracking enough a' = Ret tt a'' /\
        m_free_space a'' = whole /\
        m_free_space_state a'' = free_space_Clean /\
        is_all_free a'' = true.
Proof.
  intros Hreach Hst Hlt whole.
  pose proof (reachable_inv a Hreach) as Hinv.
  pose proof (reset_inv pushes a Hinv) as Hinv'.
  rewrite reset_free_space_tracking_spec in * by done.
  rewrite bool_decide_eq_false_2 in * by lia. simpl in Hinv'.
  eexists. split; [reflexivity |]. simpl. repeat split; try done.
  intros enough Hen.
  pose proof (reset_inv enough _ Hinv') as Hinv''.
  rewrite reset_free_space_tracking_spec in * by done. simpl in *.
  rewrite bool_decide_eq_true_2 in * by lia. simpl in Hinv''.
  eexists. split; [reflexivity |]. simpl. repeat split; try done.
  by apply is_all_free_whole.
Qed.

(** X19.  Within one slab [translate] is an offset: if the [n] bytes at
    [r] lie in one slab, then [translate r] is defined and
    [translate (r + k)] is [k] bytes further, for every [k] below [n].
    Below the baseline [translate r] is [r] bytes into the attached
    memory. *)
Theorem translate_is_offset (a : SlabAlloc) (r n k : Z) :
  reachable a -> 0 <= k < n ->
  (in_slab a r (r + n) ->
   exists p, translate r a = Some p /\ translate (r + k) a = Some (p + k)) /\
  (r + n <= m_baseline a ->
   translate (r + k) a = Some (data_addr a + r + k)).
Proof.
  intros Hreach Hk. pose proof (reachable_inv a Hreach) as Hinv. split.
  - intros (i & s & Hi & Hlo & Hhi).
    rewrite (translate_in_slab a r i s Hinv Hi) by lia.
    rewrite (translate_in_slab a (r + k) i s Hinv Hi) by lia.
    eexists. split; [reflexivity |]. f_equal. lia.
  - intros Hb. unfold translate, do_translate.
    replace (r + k <? m_baseline a) with true by (symmetry; lia).
    f_equal. lia.
Qed.

End Frames.

(** ** The memory of the slabs *)


Section Memory.

Context `{ext : Externals}.

Implicit Types (a : SlabAlloc) (c : Chunk).




(** *** The arrays are as long as the slabs *)








End Memory.

(** ** What a successful [attach_buffer] establishes *)

Lemma land_1_cases z : Z.land z 1 = 0 \/ Z.land z 1 = 1.
Proof.
  change (Z.land z 1) with (Z.land z (Z.ones 1)).
  rewrite Z.land_ones by lia.
  change (2 ^ 1) with 2. pose proof (Z.mod_pos_bound z 2). lia.
Qed.

Lemma peek_get_byte (data : list byte) (i : Z) :
  0 <= i < buf_size data ->
  exists b, get_byte data i = Some b /\ peek data i = byte_val b.
Proof.
  unfold buf_size. intros Hi. unfold peek, get_byte.
  replace (i <? 0) with false by (symmetry; lia).
  destruct (lookup_lt_is_Some_2 data (Z.to_nat i)) as [b Hb]; [lia |].
  exists b. by rewrite Hb.
Qed.

Section Attached.

Context `{ext : Externals}.

Local Open Scope alloc_scope.

(** A header that can be read has the format of its selected slot as its
    committed format. *)
Lemma committed_selected (data : Buffer) (a : SlabAlloc) :
  24 <= buf_size (bytes data) -> m_data a = Some data ->
  get_committed_file_format a = Some (selected_file_format (bytes data)).
Proof.
  intros Hsz Hd. unfold get_committed_file_format. rewrite Hd. simpl.
  destruct (peek_get_byte (bytes data) 23 ltac:(lia)) as (b & Hb & Hpb).
  rewrite Hb. simpl. unfold selected_file_format, header_flags.
  rewrite Hpb. unfold flags_SelectBit, header_file_format.
  destruct (land_1_cases (byte_val b)) as [E|E]; rewrite E; simpl.
  - destruct (peek_get_byte (bytes data) 20 ltac:(lia)) as (c & Hc & Hpc).
    change (20 + 0) with 20. by rewrite Hc, Hpc.
  - destruct (peek_get_byte (bytes data) 21 ltac:(lia)) as (c & Hc & Hpc).
    change (20 + 1) with 21. by rewrite Hc, Hpc.
Qed.

(** X21.  A returning [attach_buffer].  The top ref it returns is a
    multiple of 8 inside the buffer; the baseline is the size of the
    buffer, at least 24 and a multiple of 8; the streaming flag is set
    exactly when the buffer is on streaming form; and the file format it
    records is the library's own, which is also what
    [get_committed_file_format] then reads from the header. *)
Theorem attach_buffer_returns (data : Buffer) (a : SlabAlloc) (top : Z)
    (a' : SlabAlloc) :
  attach_buffer data a = Ret top a' ->
  top mod 8 = 0 /\ 0 <= top < m_baseline a' /\
  m_baseline a' = buf_size (bytes data) /\
  24 <= m_baseline a' /\ m_baseline a' mod 8 = 0 /\
  m_data a' = Some data /\ m_attach_mode a' = attach_UsersBuffer /\
  (m_file_on_streaming_form a' = true <-> streaming_form (bytes data)) /\
  m_file_format a' = library_file_format /\
  get_committed_file_format a' = Some (m_file_format a').
Proof.
  intros H. unfold attach_buffer in H. monad_inv. simpl.
  match goal with Hv : validate_buffer _ _ ?a0 = Ret _ ?a1 |- _ =>
    pose proof (validate_buffer_cases (bytes data) false a0) as Hc;
    cbv zeta in Hc; rewrite Hv in Hc; rename a1 into a2; clear Hv end.
  unfold finish_cases, bad_size in Hc.
  assert (Hfacts : (24 <= buf_size (bytes data) /\
                    buf_size (bytes data) mod 8 = 0) /\
            format_ok (bytes data) false /\
            top mod 8 = 0 /\ 0 <= top < buf_size (bytes data) /\
            (m_file_on_streaming_form a2 = true <-> streaming_form (bytes data))).
  { decompose [and or] Hc; try done; simplify_eq; simpl.
    - split; [lia |]. split; [done |]. split; [done |].
      split; [pose proof (read_u64_range (bytes data) (buf_size (bytes data) - 16)); lia |].
      done.
    - split; [lia |]. split; [done |]. split; [done |].
      split; [pose proof (read_u64_range (bytes data) (8 * selected_slot (bytes data))); lia |].
      split; [done | tauto]. }
  destruct Hfacts as ((Hsz & Hm8) & Hfmt & Ht8 & Htr & Hstr).
  assert (Hsel : selected_file_format (bytes data) = library_file_format).
  { unfold format_ok in Hfmt. unfold selected_file_format, header_file_format,
      header_flags, flags_SelectBit.
    unfold selected_slot in Hfmt.
    destruct Hfmt as [Hfmt|(_ & _ & ?)]; [| done].
    destruct (land_1_cases (peek (bytes data) 23)) as [E|E];
      rewrite E in *; simpl; done. }
  split_and!; try done; try lia.
  rewrite Hsel.
  rewrite (committed_selected data) by done. by rewrite Hsel.
Qed.

(** X22.  [do_realloc] throws exactly when its [do_alloc] throws, with the
    same exception and the same allocator: nothing has been copied, and the
    old block has not been freed. *)
Theorem do_realloc_throws env push_ok r p old_size new_size
    (a : SlabAlloc) (e : exn) (a' : SlabAlloc) :
  do_realloc env push_ok r p old_size new_size a = Throw e a' <->
  do_alloc env new_size a = Throw e a'.
Proof.
  unfold do_realloc. split.
  - intros H. apply bind_Throw in H as [H|(m & a1 & _ & H)]; [done |].
    exfalso. unfold bind, gets, modify, ret in H.
    destruct (do_free _ _ _ _); simpl in H; done.
  - intros H. unfold bind. by rewrite H.
Qed.

End Attached.

(** ** Alignment *)

Section Alignment.

Context `{ext : Externals}.

Implicit Types (a : SlabAlloc) (c : Chunk).

Lemma aligned_total a : aligned8 a -> get_total_size a mod 8 = 0.
Proof.
  intros (Hb & Hs & _). unfold get_total_size.
  destruct (last (m_slabs a)) as [s|] eqn:Hl; [| done].
  apply last_Some in Hl as [l' Hl]. rewrite Hl in Hs.
  apply Forall_app in Hs as [_ Hs].
  rewrite Forall_singleton in Hs. exact Hs.
Qed.

Lemma aligned_last_slab a : aligned8 a -> last_slab_size a mod 8 = 0.
Proof.
  intros Ha. pose proof (aligned_total a Ha) as Ht.
  destruct Ha as (Hb & Hs & _). unfold last_slab_size.
  destruct (length (m_slabs a)) as [|n] eqn:Hlen; [done |].
  assert (Hr : slab_ref a n mod 8 = 0).
  { unfold slab_ref. destruct n as [|n]; simpl; [done |].
    destruct (m_slabs a !! n) as [s|] eqn:Hn; simpl; [| done].
    by apply (Forall_lookup_1 _ _ _ _ Hs Hn). }
  rewrite Zminus_mod, Ht, Hr. done.
Qed.

Lemma mod8_add x y : x mod 8 = 0 -> y mod 8 = 0 -> (x + y) mod 8 = 0.
Proof. intros Hx Hy. by rewrite Z.add_mod, Hx, Hy by lia. Qed.

Lemma mod8_sub x y : x mod 8 = 0 -> y mod 8 = 0 -> (x - y) mod 8 = 0.
Proof. intros Hx Hy. by rewrite Zminus_mod, Hx, Hy. Qed.

(** X23.  [do_alloc] keeps everything aligned.  In a reachable state whose
    baseline, slab ends and free chunks are multiples of 8, a [do_alloc]
    (whose size is a multiple of 8, as it asserts) returns a ref that is a
    multiple of 8 and leaves such a state. *)
Theorem do_alloc_aligned env sz a mem a' :
  reachable a -> aligned8 a -> alloc_pre a sz ->
  do_alloc env sz a = Ret mem a' ->
  m_ref mem mod 8 = 0 /\ aligned8 a'.
Proof.
  intros Hreach Ha Hpre Hret.
  pose proof (reachable_inv a Hreach) as Hinv.
  pose proof (aligned_total a Ha) as Ht.
  pose proof (aligned_last_slab a Ha) as Hl.
  pose proof Hpre as (Hsz & Hsz8 & _).
  destruct Ha as (Hb & Hs & Hfm).
  destruct (do_alloc_cases env sz a mem a' Hinv Hpre Hret) as [Hst [Hc|Hn]].
  - destruct Hc as (i & c & Hf & Hc & Hle & Hm & Htr & ->).
    destruct (Forall_lookup_1 _ _ _ _ Hfm Hc) as [Hc1 Hc2].
    rewrite Hm. split; [done |]. split; [done |]. split; [done |]. simpl.
    destruct (size c - sz =? 0).
    + by apply erase_move_last_Forall.
    + apply Forall_insert; [done |]. simpl.
      split; [by apply mod8_add | by apply mod8_sub].
  - destruct Hn as (Hf & p & Hnew & -> & Ha'). cbv zeta in Ha'. simpl.
    split; [done |].
    set (ns := Z.max (256 * ((sz + 255) / 256)) (2 * last_slab_size a)) in *.
    assert (Hns : ns mod 8 = 0).
    { unfold ns. apply Z.max_case.
      - replace (256 * ((sz + 255) / 256)) with ((32 * ((sz + 255) / 256)) * 8)
          by lia.
        apply Z_mod_mult.
      - replace (2 * last_slab_size a) with (last_slab_size a + last_slab_size a)
          by lia.
        by apply mod8_add. }
    assert (Hslabs : Forall (fun s => ref_end s mod 8 = 0)
              (m_slabs a ++
               [mkSlab (mkBuffer p (replicate (Z.to_nat ns) x00))
                  (get_total_size a + ns)])).
    { apply Forall_app. split; [done |]. apply Forall_singleton. simpl.
      by apply mod8_add. }
    destruct (0 <? ns - sz); subst a'; (split; [done |]); (split; [done |]);
      simpl; [| done].
    apply Forall_app. split; [done |]. apply Forall_singleton. simpl.
    split; [by apply mod8_add | by apply mod8_sub].
Qed.

(** X24.  [do_free] keeps everything aligned as well, when the block freed
    is aligned: its ref and the size read from its header are multiples
    of 8.  Merged chunks are sums of aligned sizes. *)
Theorem do_free_aligned push_ok r p a a' :
  reachable a -> aligned8 a -> block_ok a r (freed_size r a) ->
  is_read_only a r = false ->
  r mod 8 = 0 -> freed_size r a mod 8 = 0 ->
  do_free push_ok r p a = Some a' ->
  aligned8 a'.
Proof.
  intros Hreach (Hb & Hs & Hfm) Hblock Hro Hr8 Hs8 Hfree.
  pose proof (reachable_inv a Hreach) as Hinv.
  pose proof (block_ok_read_only a r _ Hinv Hblock) as Hbk. rewrite Hro in Hbk.
  destruct (do_free_mutable push_ok r p a a' Hro Hfree)
    as (_ & [[Hi ->]|[Hd Ha']]); [done |].
  cbv zeta in Ha'.
  pose proof (coalesce_multiset (m_slabs a)
                (fun x n => 0 < n /\ in_slab a x (x + n))
                (fun x n => mutable_ok_bounds a x n Hinv)
                (fun x n m H1 H2 H3 => mutable_ok_join a x n m Hinv H1 H2 H3)
                r (freed_size r a) (m_free_space a) Hbk (inv_mutable a Hinv))
    as Hm.
  cbv zeta in Hm.
  set (s := freed_size r a) in *.
  assert (Hres : Forall (fun c => ref c mod 8 = 0 /\ size c mod 8 = 0)
                   (coalesce (m_slabs a) r s (m_free_space a)).1).
  { destruct Hm as [->|[_ H]]; [done |].
    destruct H as [(c & rest & Hp & Hc & Hres)|[(q & rest & Hp & Hc & Hres)|
                   (c & q & rest & Hp & Hc & Hc' & Hres)]];
      rewrite Hres; rewrite Hp in Hfm.
    - apply Forall_cons in Hfm as [[Hc1 Hc2] Hrest].
      apply Forall_cons. split; [| done]. simpl.
      split; [done | by apply mod8_add].
    - apply Forall_cons in Hfm as [[Hc1 Hc2] Hrest].
      apply Forall_cons. split; [| done]. simpl.
      split; [done | by apply mod8_add].
    - apply Forall_cons in Hfm as [[Hc1 Hc2] Hrest].
      apply Forall_cons in Hrest as [[Hq1 Hq2] Hrest].
      apply Forall_cons. split; [| done]. simpl.
      split; [done |]. apply mod8_add; [by apply mod8_add | done]. }
  destruct (coalesce _ _ _ _) as [fs append]. simpl in *.
  destruct append; [destruct push_ok |]; subst a'; (split; [done |]);
    (split; [done |]); simpl; try done.
  apply Forall_app. split; [done |]. by apply Forall_singleton.
Qed.

End Alignment.

(** * The owning pointer *)

Lemma DefaultDelete_alive p q alive alive' :
  UniquePtr.DefaultDelete p alive = Some alive' ->
  q ∈ alive' <-> q ∈ alive /\ (p = 0 \/ q <> p).
Proof.
  unfold UniquePtr.DefaultDelete. destruct (p =? 0) eqn:E; bool_hyps.
  - intros [= <-]. tauto.
  - case_bool_decide; [| done]. intros [= <-].
    rewrite list_elem_of_filter. split; [intros [? ?] | intros [? [?|?]]];
      (done || tauto || lia).
Qed.

Lemma DefaultDelete_owned (u : UniquePtr.UniquePtr) (alive : list Z) :
  UniquePtr.owns u alive -> ~ 0 ∈ alive ->
  exists alive',
    UniquePtr.DefaultDelete (UniquePtr.m_ptr u) alive = Some alive' /\
    forall q, q ∈ alive' <-> q ∈ alive /\ q <> UniquePtr.m_ptr u.
Proof.
  intros Hown H0.
  destruct (UniquePtr.DefaultDelete (UniquePtr.m_ptr u) alive)
    as [alive'|] eqn:Hd.
  - exists alive'. split; [done |]. intros q.
    rewrite (DefaultDelete_alive _ q _ _ Hd).
    split; [| tauto]. intros [Hq [E|E]]; [| done].
    split; [done |]. intros ->. by rewrite E in Hq.
  - exfalso. unfold UniquePtr.DefaultDelete in Hd.
    destruct (UniquePtr.m_ptr u =? 0) eqn:E; [done |]. bool_hyps.
    case_bool_decide; [done |]. destruct Hown; done.
Qed.

(** X25.  [reset(p)] deletes the object held so far, exactly that one, and
    holds [p].  When [p] is another object (or null) the pointer still
    owns what it holds; but [reset(get())] of a pointer that holds an
    object deletes that object and keeps pointing at it, so that the
    destructor then deletes it a second time. *)
Theorem reset_deletes_the_old_object (u : UniquePtr.UniquePtr) (p : Z)
    (alive : list Z) :
  UniquePtr.owns u alive -> ~ 0 ∈ alive ->
  exists alive',
    UniquePtr.reset u p alive = Some (UniquePtr.construct p, alive') /\
    (forall q, q ∈ alive' <-> q ∈ alive /\ q <> UniquePtr.get u) /\
    ((p = 0 \/ (p ∈ alive /\ p <> UniquePtr.get u)) ->
     UniquePtr.owns (UniquePtr.construct p) alive') /\
    (p = UniquePtr.get u -> p <> 0 ->
     UniquePtr.destruct_ (UniquePtr.construct p) alive' = None).
Proof.
  intros Hown H0.
  destruct (DefaultDelete_owned u alive Hown H0) as (alive' & Hd & Hq).
  unfold UniquePtr.reset, UniquePtr.swap, UniquePtr.construct,
    UniquePtr.destruct_, UniquePtr.get. simpl. rewrite Hd. simpl.
  exists alive'. split; [done |]. split; [done |]. split.
  - intros [->|[Hp Hne]]; [by left |]. right. simpl. by apply Hq.
  - intros -> Hne. unfold UniquePtr.DefaultDelete.
    replace (UniquePtr.m_ptr u =? 0) with false by (symmetry; lia).
    rewrite bool_decide_eq_false_2; [done |].
    rewrite Hq. tauto.
Qed.

Lemma calls_spec (cs : list UniquePtr.Call) :
  forall (u : UniquePtr.UniquePtr) (alive : list Z),
  UniquePtr.owns u alive -> ~ 0 ∈ alive ->
  NoDup (filter (fun p => p <> 0) (UniquePtr.m_ptr u :: UniquePtr.given cs)) ->
  Forall (fun p => p = 0 \/ p ∈ alive) (UniquePtr.given cs) ->
  exists u' alive' released alive'',
    UniquePtr.calls cs u alive = Some (u', alive', released) /\
    UniquePtr.destruct_ u' alive' = Some alive'' /\
    (forall q, q ∈ released ->
       q = 0 \/ q = UniquePtr.m_ptr u \/ q ∈ UniquePtr.given cs) /\
    (forall q, q ∈ alive'' <->
       q ∈ alive /\
       (q ∈ released \/ (q <> UniquePtr.m_ptr u /\ ~ q ∈ UniquePtr.given cs))).
Proof.
  induction cs as [|[p|] cs IH]; intros u alive Hown H0 Hnd Hall.
  - destruct (DefaultDelete_owned u alive Hown H0) as (alive'' & Hd & Hq).
    exists u, alive, [], alive''. simpl. split; [done |]. split; [done |].
    split; [intros q Hq'; by apply elem_of_nil in Hq' |].
    intros q. rewrite Hq. rewrite !elem_of_nil. tauto.
  - (* reset *)
    simpl in Hnd, Hall. apply Forall_cons in Hall as [Hp Hall].
    destruct (DefaultDelete_owned u alive Hown H0) as (alive1 & Hd & Hq1).
    assert (Hne : p = 0 \/ p <> UniquePtr.m_ptr u).
    { destruct (decide (p = 0)) as [|Hp0]; [by left |]. right. intros ->.
      rewrite filter_cons_True in Hnd by done.
      rewrite filter_cons_True in Hnd by done.
      apply NoDup_cons in Hnd as [Hnotin _]. apply Hnotin. by left. }
    assert (Hnd1 : NoDup (filter (fun p => p <> 0) (p :: UniquePtr.given cs))).
    { rewrite filter_cons in Hnd. destruct (decide (UniquePtr.m_ptr u <> 0));
        [by apply NoDup_cons in Hnd as [_ ?] | done]. }
    assert (Hnotgiven : forall q, q ∈ p :: UniquePtr.given cs -> q <> 0 ->
                                  q <> UniquePtr.m_ptr u).
    { intros q Hq Hq0 ->.
      rewrite filter_cons_True in Hnd by done.
      apply NoDup_cons in Hnd as [Hnotin _]. apply Hnotin.
      apply list_elem_of_filter. done. }
    destruct (IH (UniquePtr.construct p) alive1) as
      (u' & alive' & rel & alive'' & Hc & Hdel & Hrel & Hq).
    + destruct Hp as [->|Hp]; [by left |]. right. simpl. apply Hq1.
      split; [done |]. destruct Hne as [->|?]; [by destruct H0 | done].
    + rewrite Hq1. tauto.
    + done.
    + apply Forall_forall. intros q Hqg.
      destruct (proj1 (Forall_forall _ _) Hall q Hqg) as [->|Hqa];
        [by left |].
      right. apply Hq1. split; [done |].
      apply Hnotgiven; [by right |]. intros ->. done.
    + exists u', alive', rel, alive''.
      unfold UniquePtr.calls. fold UniquePtr.calls.
      unfold UniquePtr.reset, UniquePtr.swap, UniquePtr.destruct_. simpl.
      rewrite Hd. simpl. split; [exact Hc |]. split; [exact Hdel |].
      simpl in Hrel. split.
      * intros q Hqr. destruct (Hrel q Hqr) as [?|[->|?]]; [by left | |].
        -- right. right. by left.
        -- right. right. by right.
      * intros q. rewrite Hq, Hq1. simpl. rewrite elem_of_cons.
        split.
        -- intros [[Ha Hn] [Hr|[Hnp Hng]]]; (split; [done |]); [by left |].
           right. tauto.
        -- intros [Ha [Hr|[Hn Hng]]].
           ++ split; [| by left]. split; [done |].
              destruct (Hrel q Hr) as [->|[->|Hg]]; [done | |].
              ** apply Hnotgiven; [by left |]. intros E.
                 simpl in Ha. rewrite E in Ha. done.
              ** apply Hnotgiven; [by right |]. intros ->. done.
           ++ split; [done |]. right. tauto.
  - (* release *)
    simpl in Hnd, Hall.
    assert (Hnd1 : NoDup (filter (fun p => p <> 0) (0 :: UniquePtr.given cs))).
    { rewrite filter_cons_False by lia.
      rewrite filter_cons in Hnd. destruct (decide (UniquePtr.m_ptr u <> 0));
        [by apply NoDup_cons in Hnd as [_ ?] | done]. }
    destruct (IH (UniquePtr.mkUniquePtr 0) alive) as
      (u' & alive' & rel & alive'' & Hc & Hdel & Hrel & Hq);
      [by left | done | done | done |].
    exists u', alive', (UniquePtr.m_ptr u :: rel), alive''.
    unfold UniquePtr.calls. fold UniquePtr.calls.
    unfold UniquePtr.release. rewrite Hc. simpl.
    split; [done |]. split; [exact Hdel |]. simpl in Hrel. split.
    + intros q Hqr. apply elem_of_cons in Hqr as [->|Hqr]; [tauto |].
      destruct (Hrel q Hqr) as [?|[?|?]]; tauto.
    + intros q. rewrite Hq. simpl. rewrite elem_of_cons.
      split.
      * intros [Ha [Hr|[Hn Hng]]]; (split; [done |]); [tauto |].
        destruct (decide (q = UniquePtr.m_ptr u)); tauto.
      * intros [Ha [[->|Hr]|[Hn Hng]]]; (split; [done |]).
        -- right. split; [intros E; by rewrite E in Ha |].
           intros Hg.
           assert (Hu0 : UniquePtr.m_ptr u <> 0)
             by (intros E; by rewrite E in Ha).
           rewrite filter_cons_True in Hnd by done.
           apply NoDup_cons in Hnd as [Hnotin _]. apply Hnotin.
           by apply list_elem_of_filter.
        -- by left.
        -- right. split; [intros E; by rewrite E in Ha | done].
Qed.

(** X26.  Every object is deleted once.  Take a pointer that owns what it
    holds, and any run of [reset] and [release] calls in which the objects
    handed to [reset] are alive and pairwise different (and different from
    the one held at first).  Then no call deletes an object twice, and when
    the pointer is destroyed at the end, the objects that are gone are
    exactly those the pointer held at some time and did not release. *)
Theorem calls_delete_each_object_once (cs : list UniquePtr.Call)
    (u : UniquePtr.UniquePtr) (alive : list Z) :
  UniquePtr.owns u alive -> ~ 0 ∈ alive ->
  NoDup (filter (fun p => p <> 0) (UniquePtr.m_ptr u :: UniquePtr.given cs)) ->
  Forall (fun p => p = 0 \/ p ∈ alive) (UniquePtr.given cs) ->
  exists u' alive' released alive'',
    UniquePtr.calls cs u alive = Some (u', alive', released) /\
    UniquePtr.destruct_ u' alive' = Some alive'' /\
    (forall q, q ∈ alive'' <->
       q ∈ alive /\
       (q ∈ released \/ (q <> UniquePtr.get u /\ ~ q ∈ UniquePtr.given cs))).
Proof.
  intros Hown H0 Hnd Hall.
  destruct (calls_spec cs u alive Hown H0 Hnd Hall)
    as (u' & alive' & rel & alive'' & Hc & Hd & _ & Hq).
  by exists u', alive', rel, alive''.
Qed.

(** ** The properties on concrete runs *)


Lemma validate_buffer_decision_witness :
  validate_buffer (ext := realm3) (streaming_file 3 3) false
    (fresh free_space_Clean) =
  Ret 0x40 (with_streaming true (fresh free_space_Clean)).
Proof.
  pose proof (validate_buffer_decision (ext := realm3) (streaming_file 3 3)
                false (fresh free_space_Clean)) as H.
  cbv zeta in H. destruct H as [_ H].
  destruct (H ltac:(vm_compute; intros [?|?]; done)) as [_ H1].
  destruct (H1 ltac:(vm_compute; repeat split; done)) as [_ H2].
  destruct (H2 ltac:(left; reflexivity)) as [H3 _].
  destruct (H3 ltac:(split; reflexivity)) as [_ H4].
  destruct (H4 ltac:(vm_compute; discriminate)) as [_ H5].
  destruct (H5 ltac:(reflexivity)) as [_ H6].
  destruct (H6 ltac:(reflexivity)) as [_ H7].
  apply H7. reflexivity.
Defined.


Lemma free_coalesces_both_sides_witness :
  exists a',
    do_free (ext := realm3) true 40 0x10010 state_two_freed = Some a' /\
    length (m_free_space a') = 1%nat.
Proof.
  destruct (proj1 free_coalesces_both_sides realm3 true 40 0x10010
              state_two_freed (mkChunk 48 232) (mkChunk 24 16))
    as (a' & rest & Hfree & _ & _ & Hlen & _).
  - apply state_two_freed_reachable.
  - reflexivity.
  - reflexivity.
  - discriminate.
  - apply (op_ok_sound (ext := realm3) (OpFree true 40 0x10010)). reflexivity.
  - change (m_free_space state_two_freed) with [mkChunk 48 232; mkChunk 24 16].
    by repeat constructor.
  - reflexivity.
  - change (m_free_space state_two_freed) with [mkChunk 48 232; mkChunk 24 16].
    intros c Hc E.
    apply elem_of_cons in Hc as [->|Hc]; [done |].
    apply elem_of_cons in Hc as [->|Hc]; [discriminate E |].
    by apply elem_of_nil in Hc.
  - change (m_free_space state_two_freed) with [mkChunk 48 232; mkChunk 24 16].
    by repeat constructor.
  - reflexivity.
  - change (m_free_space state_two_freed) with [mkChunk 48 232; mkChunk 24 16].
    intros c Hc E.
    apply elem_of_cons in Hc as [->|Hc]; [discriminate E |].
    apply elem_of_cons in Hc as [->|Hc]; [done |].
    by apply elem_of_nil in Hc.
  - intros slab Hs E. apply list_elem_of_singleton in Hs. subst slab.
    discriminate E.
  - intros slab Hs E. apply list_elem_of_singleton in Hs. subst slab.
    discriminate E.
  - exists a'. split; [exact Hfree |].
    change (length (m_free_space state_two_freed)) with 2%nat in Hlen. lia.
Defined.

Lemma invalid_free_space_sticks_witness :
  do_free (ext := realm3) false 32 0x10008 state_three_blocks =
  Some (with_free_space_state free_space_Invalid state_three_blocks).
Proof.
  destruct (invalid_free_space_sticks (ext := realm3) state_three_blocks
              state_three_blocks_reachable) as (_ & Hfail & _).
  apply Hfail.
  - reflexivity.
  - by right.
  - discriminate.
  - reflexivity.
Defined.

Lemma reset_free_space_tracking_rebuilds_witness :
  exists a',
    reset_free_space_tracking 1 state_two_freed = Ret tt a' /\
    m_free_space a' !! 0%nat = Some (mkChunk 24 256) /\
    is_all_free a' = true.
Proof.
  destruct (reset_free_space_tracking_rebuilds (ext := realm3) 1
              state_two_freed state_two_freed_reachable) as (_ & Hre & Hall).
  destruct Hre as (a' & Hret & _ & _ & Hith & _).
  - discriminate.
  - change (length (m_slabs state_two_freed)) with 1%nat. lia.
  - exists a'. split; [exact Hret |]. split; [| by apply Hall].
    destruct (m_slabs state_two_freed !! 0%nat) as [s|] eqn:Hs; [| discriminate Hs].
    rewrite (Hith 0%nat s Hs). vm_compute in Hs. injection Hs as <-. reflexivity.
Defined.



Lemma attach_free_space_state_witness :
  (exists res a',
     attach_file (ext := realm3) new_file (fresh free_space_Clean) = Ret res a' /\
     m_free_space_state a' = free_space_Invalid) /\
  (exists top_ref a',
     attach_buffer (ext := realm3) empty_buffer (fresh free_space_Clean) =
       Ret top_ref a' /\
     m_free_space_state a' = free_space_Clean) /\
  m_free_space_state (attached_empty free_space_Dirty) = free_space_Dirty.
Proof.
  destruct (attach_free_space_state (ext := realm3) (fresh free_space_Clean))
    as (Hfile & Hbuf & _).
  destruct (attach_free_space_state (ext := realm3) (fresh free_space_Dirty))
    as (_ & _ & Hempty).
  split; [| split].
  - destruct (attach_file (ext := realm3) new_file (fresh free_space_Clean))
      as [res a'| |] eqn:Hal; [| vm_compute in Hal; discriminate Hal ..].
    exists res, a'. split; [reflexivity |]. by apply (Hfile new_file res).
  - destruct (attach_buffer (ext := realm3) empty_buffer (fresh free_space_Clean))
      as [top a'| |] eqn:Hal; [| vm_compute in Hal; discriminate Hal ..].
    exists top, a'. split; [reflexivity |]. by apply (Hbuf empty_buffer top).
  - by apply Hempty.
Defined.

Lemma get_committed_file_format_needs_header_witness :
  get_committed_file_format (attached_empty free_space_Clean) = None /\
  exists top_ref a',
    attach_buffer (ext := realm3) empty_buffer (fresh free_space_Clean) =
      Ret top_ref a' /\
    get_committed_file_format a' = Some 3.
Proof.
  split.
  - destruct (get_committed_file_format_needs_header
                (fresh free_space_Clean)) as (_ & _ & Hempty).
    by apply Hempty.
  - eexists _, _. split; [vm_compute; reflexivity |].
    match goal with |- get_committed_file_format ?a = _ =>
      destruct (get_committed_file_format_needs_header a)
        as (_ & Hdef & _) end.
    rewrite (Hdef empty_buffer eq_refl); [reflexivity |].
    vm_compute. discriminate.
Defined.

(** ** Where the specification and the code part *)


(** Against C9: attach to a buffer, reset the free-space tracking, detach
    and attach empty.  Every step returns, and after the last attach the
    free-space state is Clean, not Invalid. *)
Lemma attach_empty_leaves_state_clean :
  exists a,
    reattach_empty (fresh free_space_Invalid) = Ret tt a /\
    m_attach_mode a = attach_OwnedBuffer /\
    m_free_space_state a = free_space_Clean.
Proof.
  eexists. split; [vm_compute; reflexivity |]. split; reflexivity.
Qed.

(** ** The further properties on concrete runs *)

Lemma state_new_file_reachable : reachable (ext := realm3) state_new_file.
Proof.
  eapply (reach_attach_file (ext := realm3) free_space_Clean new_file).
  vm_compute. reflexivity.
Qed.

Lemma state_file_slab_reachable : reachable (ext := realm3) state_file_slab.
Proof.
  apply (run_ops_reachable (ext := realm3) file_one_slab state_new_file).
  - apply state_new_file_reachable.
  - vm_compute. reflexivity.
Qed.

Lemma two_freed_disjoint : disjoint_chunks (m_free_space state_two_freed).
Proof.
  change (m_free_space state_two_freed) with [mkChunk 48 232; mkChunk 24 16].
  simpl. split; [| split; [constructor | done]].
  apply Forall_singleton. unfold apart. simpl. lia.
Qed.

Lemma attach_throws_detached_witness :
  is_attached (fresh free_space_Clean) = false /\
  is_attached (with_streaming false (fresh free_space_Clean)) = false /\
  exists b, with_streaming false (fresh free_space_Clean) =
            with_streaming b (fresh free_space_Clean).
Proof.
  apply (proj2 (attach_throws_detached (ext := realm3)
                  (fresh free_space_Clean) (InvalidDatabase BadSize)
                  (with_streaming false (fresh free_space_Clean)))
           (mkBuffer 0 [])).
  reflexivity.
Defined.

Lemma attach_file_creates_witness :
  exists a',
    attach_file (ext := realm3) new_file (fresh free_space_Clean) =
      Ret (0, created_file (ext := realm3) false) a' /\
    m_baseline a' = 4096.
Proof.
  destruct (attach_file_creates (ext := realm3) new_file
              (fresh free_space_Clean)) as (H & _).
  - simpl. lia.
  - reflexivity.
  - reflexivity.
  - right. split; reflexivity.
  - eexists. split; [exact H | reflexivity].
Defined.

Lemma attach_file_existing_witness :
  exists a',
    attach_file (ext := realm3) existing_file (fresh free_space_Clean) =
      Ret (0, empty_file_header (ext := realm3)) a' /\
    m_baseline a' = 24.
Proof.
  pose proof (attach_file_existing (ext := realm3) existing_file
                (empty_file_header (ext := realm3)) (fresh free_space_Clean)
                (with_streaming false (fresh free_space_Clean)) 0) as H.
  cbv zeta in H. eexists. split.
  - rewrite H.
    + reflexivity.
    + reflexivity.
    + reflexivity.
    + reflexivity.
    + split; reflexivity.
    + reflexivity.
  - reflexivity.
Defined.

Lemma attach_file_reopens_witness :
  exists a',
    attach_file (ext := realm3) reopened_file (fresh free_space_Clean) =
      Ret (0, created_file (ext := realm3) false) a' /\
    m_attach_mode a' = attach_UnsharedFile.
Proof.
  eexists. split.
  - rewrite (attach_file_reopens (ext := realm3) false reopened_file
               (fresh free_space_Clean)).
    + reflexivity.
    + simpl. lia.
    + reflexivity.
    + reflexivity.
    + reflexivity.
  - reflexivity.
Defined.

Lemma attach_file_refuses_witness :
  attach_file (ext := realm3) empty_read_only (fresh free_space_Clean) =
  Throw (InvalidDatabase ReadOnlyEmpty) (fresh free_space_Clean).
Proof.
  apply (proj2 (attach_file_refuses (ext := realm3) empty_read_only
                  (fresh free_space_Clean) eq_refl eq_refl));
    reflexivity.
Defined.


Lemma remap_moves_slabs_witness :
  exists a',
    remap grown_mapping 8192 state_file_slab = Ret true a' /\
    m_baseline a' = 8192 /\ get_total_size a' = 8448 /\
    is_all_free a' = true.
Proof.
  destruct (remap_moves_slabs (ext := realm3) grown_mapping 8192
              state_file_slab) as (a' & Hr & Hb & _ & _ & _ & _ & Ht & Hall & _).
  - apply state_file_slab_reachable.
  - split; [by right |]. split; [reflexivity |]. vm_compute.
    repeat split; done.
  - exists a'. split; [exact Hr |]. split; [exact Hb |].
    split; [exact Ht | exact Hall].
Defined.



Lemma alloc_accounting_witness :
  exists mem a',
    do_alloc (plenty 0) 16 state_two_freed = Ret mem a' /\
    print_allocated a' = wrap (print_allocated state_two_freed + 16).
Proof.
  eexists _, _. split; [vm_compute; reflexivity |].
  eapply (alloc_accounting (ext := realm3) (plenty 0) 16 state_two_freed).
  - apply state_two_freed_reachable.
  - apply (op_ok_sound (ext := realm3) (OpAlloc (plenty 0) 16)). reflexivity.
  - vm_compute. reflexivity.
Defined.

Lemma free_accounting_witness :
  exists a',
    do_free (ext := realm3) true 40 0x10010 state_two_freed = Some a' /\
    print_allocated a' = wrap (print_allocated state_two_freed - 8).
Proof.
  eexists. split; [vm_compute; reflexivity |].
  eapply (free_accounting (ext := realm3) true 40 0x10010 state_two_freed).
  - apply state_two_freed_reachable.
  - apply (op_ok_sound (ext := realm3) (OpFree true 40 0x10010)). reflexivity.
  - reflexivity.
  - vm_compute. reflexivity.
  - discriminate.
Defined.

Lemma do_free_keeps_chunks_apart_witness :
  exists a',
    do_free (ext := realm3) true 40 0x10010 state_two_freed = Some a' /\
    disjoint_chunks (m_free_space a').
Proof.
  eexists. split; [vm_compute; reflexivity |].
  eapply (do_free_keeps_chunks_apart (ext := realm3) true 40 0x10010
            state_two_freed).
  - apply state_two_freed_reachable.
  - apply (op_ok_sound (ext := realm3) (OpFree true 40 0x10010)). reflexivity.
  - reflexivity.
  - apply two_freed_disjoint.
  - change (m_free_space state_two_freed) with [mkChunk 48 232; mkChunk 24 16].
    change (freed_size (ext := realm3) 40 state_two_freed) with 8.
    repeat constructor; unfold apart; simpl; lia.
  - vm_compute. reflexivity.
Defined.

Lemma is_all_free_iff_witness :
  is_all_free state_two_freed = true <->
  m_free_space state_two_freed ≡ₚ
    whole_slabs (m_baseline state_two_freed) (m_slabs state_two_freed).
Proof.
  apply (is_all_free_iff (ext := realm3) state_two_freed).
  apply state_two_freed_reachable.
Defined.

Lemma destructor_detects_leak_witness :
  exists mem a',
    do_alloc (plenty 0x10000) 8 (attached_empty free_space_Clean) = Ret mem a' /\
    destructor (attached_empty free_space_Clean) =
      Some (with_attach_mode attach_None (attached_empty free_space_Clean)) /\
    destructor a' = None.
Proof.
  eexists _, _. split; [vm_compute; reflexivity |].
  eapply (destructor_detects_leak (ext := realm3) (plenty 0x10000) 8
            (attached_empty free_space_Clean)).
  - apply attached_empty_reachable.
  - reflexivity.
  - discriminate.
  - apply (op_ok_sound (ext := realm3) (OpAlloc (plenty 0x10000) 8)).
    reflexivity.
  - vm_compute. reflexivity.
Defined.


Lemma free_then_alloc_reuses_witness :
  exists a1,
    do_free (ext := realm3) true 32 0x10008 state_three_blocks = Some a1 /\
    do_alloc (plenty 0) 8 a1 = Ret (mkMemRef 0x10008 32) state_three_blocks.
Proof.
  eexists. split; [vm_compute; reflexivity |].
  etransitivity.
  - eapply (free_then_alloc_reuses (ext := realm3) (plenty 0) 32 0x10008 8
              state_three_blocks).
    + reflexivity.
    + reflexivity.
    + vm_compute. reflexivity.
    + vm_compute. reflexivity.
    + vm_compute. split; [reflexivity | discriminate].
  - reflexivity.
Defined.


Lemma reset_out_of_memory_witness :
  exists a',
    reset_free_space_tracking 0 state_three_blocks = Throw bad_alloc a' /\
    m_free_space a' = [] /\
    m_free_space_state a' = free_space_Dirty.
Proof.
  destruct (reset_out_of_memory (ext := realm3) 0 state_three_blocks)
    as (a' & Hr & Hfm & _ & Hst & _).
  - apply state_three_blocks_reachable.
  - discriminate.
  - change (length (m_slabs state_three_blocks)) with 1%nat. lia.
  - exists a'. split; [exact Hr |]. split; [exact Hfm | exact Hst].
Defined.

Lemma translate_is_offset_witness :
  exists p,
    translate 24 state_three_blocks = Some p /\
    translate (24 + 4) state_three_blocks = Some (p + 4).
Proof.
  apply (proj1 (translate_is_offset (ext := realm3) state_three_blocks 24 8 4
                  state_three_blocks_reachable ltac:(lia))).
  apply in_slab_b_sound. reflexivity.
Defined.

Lemma total_size_never_shrinks_witness :
  holds_after
    (fun a' => get_total_size state_three_blocks <= get_total_size a')
    (run (ext := realm3) (OpAlloc (plenty 0) 512) state_three_blocks).
Proof.
  apply (total_size_never_shrinks (ext := realm3)).
  - apply state_three_blocks_reachable.
  - apply (op_ok_sound (ext := realm3) (OpAlloc (plenty 0) 512)). reflexivity.
Defined.

Lemma attach_buffer_returns_witness :
  exists a',
    attach_buffer (ext := realm3) empty_buffer (fresh free_space_Clean) =
      Ret 0 a' /\
    m_baseline a' = 24 /\
    get_committed_file_format a' = Some (m_file_format a').
Proof.
  eexists. split; [vm_compute; reflexivity |].
  edestruct (attach_buffer_returns (ext := realm3) empty_buffer
               (fresh free_space_Clean) 0)
    as (_ & _ & Hb & _ & _ & _ & _ & _ & _ & Hc).
  - vm_compute. reflexivity.
  - split; [exact Hb | exact Hc].
Defined.

Lemma do_realloc_throws_witness :
  do_realloc (ext := realm3) (plenty 0) true 24 0 8 16
    (attached_empty free_space_Invalid) =
  Throw InvalidFreeSpace (attached_empty free_space_Invalid).
Proof.
  apply (proj2 (do_realloc_throws (ext := realm3) (plenty 0) true 24 0 8 16
                  (attached_empty free_space_Invalid) InvalidFreeSpace
                  (attached_empty free_space_Invalid))).
  reflexivity.
Defined.

Lemma two_freed_aligned : aligned8 state_two_freed.
Proof.
  split; [reflexivity |]. split.
  - unfold state_two_freed. simpl. by repeat constructor.
  - change (m_free_space state_two_freed) with [mkChunk 48 232; mkChunk 24 16].
    by repeat constructor.
Qed.

Lemma do_alloc_aligned_witness :
  exists mem a',
    do_alloc (plenty 0) 16 state_two_freed = Ret mem a' /\
    m_ref mem mod 8 = 0 /\ aligned8 a'.
Proof.
  eexists _, _. split; [vm_compute; reflexivity |].
  eapply (do_alloc_aligned (ext := realm3) (plenty 0) 16 state_two_freed).
  - apply state_two_freed_reachable.
  - apply two_freed_aligned.
  - apply (op_ok_sound (ext := realm3) (OpAlloc (plenty 0) 16)). reflexivity.
  - vm_compute. reflexivity.
Defined.

Lemma do_free_aligned_witness :
  exists a',
    do_free (ext := realm3) true 40 0x10010 state_two_freed = Some a' /\
    aligned8 a'.
Proof.
  eexists. split; [vm_compute; reflexivity |].
  eapply (do_free_aligned (ext := realm3) true 40 0x10010 state_two_freed).
  - apply state_two_freed_reachable.
  - apply two_freed_aligned.
  - apply (op_ok_sound (ext := realm3) (OpFree true 40 0x10010)). reflexivity.
  - reflexivity.
  - reflexivity.
  - reflexivity.
  - vm_compute. reflexivity.
Defined.

Lemma reset_deletes_the_old_object_witness :
  exists alive',
    UniquePtr.reset (UniquePtr.mkUniquePtr 5) 7 [5; 7] =
      Some (UniquePtr.construct 7, alive') /\
    forall q, q ∈ alive' <-> q ∈ [5; 7] /\ q <> 5.
Proof.
  destruct (reset_deletes_the_old_object (UniquePtr.mkUniquePtr 5) 7 [5; 7])
    as (alive' & Hr & Hq & _).
  - right. simpl. by repeat constructor.
  - intros H. repeat (apply elem_of_cons in H as [H|H]; [done |]).
    by apply elem_of_nil in H.
  - exists alive'. split; [exact Hr | exact Hq].
Defined.

Lemma calls_delete_each_object_once_witness :
  exists u' alive' released alive'',
    UniquePtr.calls
      [UniquePtr.CallReset 7; UniquePtr.CallRelease; UniquePtr.CallReset 9]
      (UniquePtr.mkUniquePtr 5) [5; 7; 9] = Some (u', alive', released) /\
    UniquePtr.destruct_ u' alive' = Some alive'' /\
    (9 ∈ alive'' <-> 9 ∈ [5; 7; 9] /\ (9 ∈ released \/ (9 <> 5 /\ ~ 9 ∈ [7; 9]))).
Proof.
  destruct (calls_delete_each_object_once
              [UniquePtr.CallReset 7; UniquePtr.CallRelease; UniquePtr.CallReset 9]
              (UniquePtr.mkUniquePtr 5) [5; 7; 9])
    as (u' & alive' & rel & alive'' & Hc & Hd & Hq).
  - right. simpl. by repeat constructor.
  - intros H. repeat (apply elem_of_cons in H as [H|H]; [done |]).
    by apply elem_of_nil in H.
  - simpl. rewrite !filter_cons_True by done. rewrite filter_nil.
    repeat (apply NoDup_cons; split;
            [rewrite ?elem_of_cons, elem_of_nil; lia |]).
    apply NoDup_nil_2.
  - simpl. repeat (apply Forall_cons; split; [right; by repeat constructor |]).
    apply Forall_nil_2.
  - exists u', alive', rel, alive''. split; [exact Hc |].
    split; [exact Hd | apply Hq].
Defined.
